(** * Incarnate / AvatarCrafter 360: the agentic generation pipeline

    A shallow embedding of the control code of the repository:

    - [App]: the critique-and-refinement loop of [executeGenerationLoop]
      (the React component of the agent loop, lines 97-166);
    - [GeminiService]: the adapters of [services/geminiService.ts]
      ([optimizePrompt], [generateAvatarImage]) and the retry loop of
      [generateAvatarVideo];
    - [TripoService]: the task poller [waitForTaskCompletion] of
      [services/tripoService.ts].

    Provider calls are modelled by oracles indexed by the number of the
    call; every call that returns is recorded in a chronological trace. *)

From Stdlib Require Import ZArith List Bool String Ascii Lia Arith DecimalString.
Import ListNotations.

Set Implicit Arguments.

Open Scope string_scope.
Open Scope list_scope.

(** ** JavaScript values shared by the services *)

(** A thrown value: only [err.message] is ever inspected by the code. *)
Record JsError : Type := mkError { message : option string }.

Definition Error (msg : string) : JsError := {| message := Some msg |}.

(** Outcome of an [await]ed call: it returns or it throws. *)
Inductive Result (A : Type) : Type :=
| Ok (a : A)
| Throw (e : JsError).

Arguments Ok {A} a.
Arguments Throw {A} e.

(** * The agent loop ([executeGenerationLoop]) *)

Module App.

Local Open Scope Z_scope.

Definition MAX_REFINEMENT_LOOPS : nat := 3.
Definition QUALITY_THRESHOLD : Z := 85.

(** [interface GeneratedImage { data: string; mimeType: string }] *)
Record GeneratedImage : Type := mkImage { data : string; mimeType : string }.

(** A JavaScript object reference to a [GeneratedImage].  Every call of
    [generateAvatarImage] returns a fresh object literal, so the identity
    [obj] of an image is the number of the generator call that made it;
    [!==] on images compares [obj]. *)
Record ImageRef : Type := mkRef { obj : nat; value : GeneratedImage }.

(** [interface CritiqueResult { score: number; feedback: string; suggestions: string }] *)
Record CritiqueResult : Type :=
  mkCritique { score : Z; feedback : string; suggestions : string }.

(** The three adapters the loop awaits.  The first argument is the number
    of earlier calls of the same adapter in this run. *)
Record Env : Type := mkEnv {
  critiqueGeneratedImage : nat -> ImageRef -> Result CritiqueResult;
  refinePrompt : nat -> string -> CritiqueResult -> Result string;
  generateAvatarImage : nat -> string -> Result GeneratedImage
}.

(** Provider calls that returned, in the order they returned. *)
Inductive Event : Type :=
| Critiqued (image : ImageRef) (result : CritiqueResult)
| Refined (newPrompt : string)
| Generated (image : ImageRef).

Definition Trace : Type := list Event.

Definition critiques (t : Trace) : list (ImageRef * CritiqueResult) :=
  flat_map (fun e => match e with Critiqued i c => [(i, c)] | _ => [] end) t.

Definition generated (t : Trace) : list ImageRef :=
  flat_map (fun e => match e with Generated i => [i] | _ => [] end) t.

Definition refinements (t : Trace) : list string :=
  flat_map (fun e => match e with Refined p => [p] | _ => [] end) t.

(** The critique scores fed to the loop, in order. *)
Definition scores (t : Trace) : list Z := map (fun p => score (snd p)) (critiques t).

(** The variables of the loop (lines 68 and 101-109). *)
Record LoopState : Type := mkState {
  currentPrompt : string;
  currentImage : ImageRef;
  loops : nat;
  bestImage : ImageRef;
  bestScore : Z;
  isSatisfied : bool
}.

(** What a computation over the trace ends with. *)
Inductive Outcome (A : Type) : Type :=
| Done (a : A) (t : Trace)
| Thrown (e : JsError) (t : Trace)
| OutOfFuel.

Arguments Done {A} a t.
Arguments Thrown {A} e t.
Arguments OutOfFuel {A}.

(** The calls that had returned when the computation ended. *)
Definition outcomeTrace {A} (o : Outcome A) : option Trace :=
  match o with
  | Done _ t => Some t
  | Thrown _ t => Some t
  | OutOfFuel => None
  end.

Definition M (A : Type) : Type := Trace -> Outcome A.

Definition ret {A} (a : A) : M A := fun t => Done a t.

Definition bind {A B} (c : M A) (k : A -> M B) : M B :=
  fun t => match c t with
           | Done a t' => k a t'
           | Thrown e t' => Thrown e t'
           | OutOfFuel => OutOfFuel
           end.

Notation "x <- c ;; k" := (bind c (fun x => k))
  (at level 61, c at next level, right associativity).

Section Loop.

Variable env : Env.

Definition awaitCritique (image : ImageRef) : M CritiqueResult :=
  fun t => match critiqueGeneratedImage env (List.length (critiques t)) image with
           | Ok c => Done c (t ++ [Critiqued image c])
           | Throw e => Thrown e t
           end.

Definition awaitRefine (prompt : string) (c : CritiqueResult) : M string :=
  fun t => match refinePrompt env (List.length (refinements t)) prompt c with
           | Ok p => Done p (t ++ [Refined p])
           | Throw e => Thrown e t
           end.

Definition awaitGenerate (prompt : string) : M ImageRef :=
  fun t => match generateAvatarImage env (List.length (generated t)) prompt with
           | Ok img => let r := mkRef (List.length (generated t)) img in
                       Done r (t ++ [Generated r])
           | Throw e => Thrown e t
           end.

(** Lines 120-124: "Track best". *)
Definition trackBest (st : LoopState) (c : CritiqueResult) : LoopState :=
  if score c >? bestScore st
  then mkState (currentPrompt st) (currentImage st) (loops st)
               (currentImage st) (score c) (isSatisfied st)
  else st.

(** Lines 112-148: one pass through the body of the [while]. *)
Definition loopBody (st : LoopState) : M LoopState :=
  critiqueResult <- awaitCritique (currentImage st) ;;
  let st1 := trackBest st critiqueResult in
  if score critiqueResult >=? QUALITY_THRESHOLD
  then ret (mkState (currentPrompt st1) (currentImage st1) (loops st1)
                    (bestImage st1) (bestScore st1) true)
  else
    newPrompt <- awaitRefine (currentPrompt st1) critiqueResult ;;
    nextImage <- awaitGenerate newPrompt ;;
    ret (mkState newPrompt nextImage (S (loops st1))
                 (bestImage st1) (bestScore st1) (isSatisfied st1)).

(** Line 111: [loops < MAX_REFINEMENT_LOOPS && !isSatisfied]. *)
Definition guard (st : LoopState) : bool :=
  (loops st <? MAX_REFINEMENT_LOOPS)%nat && negb (isSatisfied st).

Fixpoint whileLoop (fuel : nat) (st : LoopState) : M LoopState :=
  fun t =>
    if guard st then
      match fuel with
      | O => OutOfFuel
      | S fuel' => match loopBody st t with
                   | Done st' t' => whileLoop fuel' st' t'
                   | Thrown e t' => Thrown e t'
                   | OutOfFuel => OutOfFuel
                   end
      end
    else Done st t.

(** Lines 101-149: generate V1, initialise the variables, run the loop. *)
Definition critiqueLoop (prompt : string) : M LoopState :=
  v1 <- awaitGenerate prompt ;;
  whileLoop MAX_REFINEMENT_LOOPS (mkState prompt v1 0%nat v1 0 false).

(** Lines 151-156: "Restore best image if the last one wasn't the best". *)
Definition restoreBest (st : LoopState) : LoopState :=
  if negb (obj (currentImage st) =? obj (bestImage st))%nat
  then mkState (currentPrompt st) (bestImage st) (loops st)
               (bestImage st) (bestScore st) (isSatisfied st)
  else st.

(** Lines 158-166: where the run goes next: the best image waits for
    approval, or [startVideoGeneration(currentImage)] is called. *)
Inductive NextStep : Type :=
| AWAITING_APPROVAL
| GENERATING_VIDEO (image : ImageRef).

Record LoopResult : Type := mkResult {
  final : LoopState;       (* the variables when the function leaves *)
  generatedImage : ImageRef; (* the image on display, [setGeneratedImage] *)
  next : NextStep
}.

(** [executeGenerationLoop] from line 97 on, entered with [currentPrompt]
    as lines 68-95 leave it (the optimized prompt of a fresh start, or the
    previous prompt refined with the user's feedback).  The log lines and
    the step shown to the user are not part of the model. *)
Definition executeGenerationLoop (prompt : string) : M LoopResult :=
  st <- critiqueLoop prompt ;;
  let st' := restoreBest st in
  ret (mkResult st' (currentImage st')
         (if negb (isSatisfied st') then AWAITING_APPROVAL
          else GENERATING_VIDEO (currentImage st'))).

End Loop.

(** No adapter call ever throws. *)
Definition adaptersSucceed (env : Env) : Prop :=
  (forall k i, exists c, critiqueGeneratedImage env k i = Ok c) /\
  (forall k p c, exists p', refinePrompt env k p c = Ok p') /\
  (forall k p, exists img, generateAvatarImage env k p = Ok img).

(** The score range of a critique: "score: integer (0-100)". *)
Definition validScore (s : Z) : Prop := 0 <= s <= 100.

(** A scripted critic: the k-th critique returns the k-th score of the
    list, and 0 once the list is used up; the refiner hands the prompt
    back and the generator always delivers. *)
Definition scripted (l : list Z) : Env :=
  mkEnv (fun k _ => Ok (mkCritique (nth k l 0) "" ""))
        (fun _ p _ => Ok p)
        (fun _ _ => Ok (mkImage "" "image/png")).

(** The critic answers its first calls with the scores of [l], in order,
    whatever image it is shown. *)
Definition criticReturns (env : Env) (l : list Z) : Prop :=
  forall k s, nth_error l k = Some s ->
  forall i, exists c, critiqueGeneratedImage env k i = Ok c /\ score c = s.

(** The trace of a computation that ended. *)
Definition runTrace {A} (o : Outcome A) : Trace :=
  match outcomeTrace o with Some t => t | None => [] end.

(** The scenario of the specification for the critic script 80, 95, 70,
    in its words: the best image is the one of the second critique (score
    95), it is the image returned, and a third image was generated after
    it, so that the restoration step had to put the best image back. *)
Definition thirdImageScenario (env : Env) (prompt : string) : Prop :=
  exists r st t c,
    executeGenerationLoop env prompt [] = Done r t /\
    critiqueLoop env prompt [] = Done st t /\
    nth_error (critiques t) 1 = Some (bestImage st, c) /\ score c = 95 /\
    generatedImage r = bestImage st /\
    (3 <= List.length (generated t))%nat /\
    currentImage st <> bestImage st.

(** ** The runs of the loop as a transition system *)

Section Semantics.

Variable env : Env.

(** One execution of the body of the [while]: the guard of line 111 held
    in [st] and the body ran to its end. *)
Inductive iteration : LoopState * Trace -> LoopState * Trace -> Prop :=
| iteration_body st t st' t' :
    guard st = true ->
    loopBody env st t = Done st' t' ->
    iteration (st, t) (st', t').

(** Zero or more executions of the body, one after the other. *)
Inductive iterations : LoopState * Trace -> LoopState * Trace -> Prop :=
| iterations_refl x : iterations x x
| iterations_step x y z : iterations x y -> iteration y z -> iterations x z.

(** The variables at line 109, once V1 exists. *)
Definition initialState (prompt : string) (v1 : ImageRef) : LoopState :=
  mkState prompt v1 0%nat v1 0 false.

(** What holds of the variables and the trace each time line 111 is
    reached, in a run whose first image is [v1]. *)
Record Inv (v1 : ImageRef) (st : LoopState) (t : Trace) : Prop := mkInv {
  inv_loops : (loops st <= MAX_REFINEMENT_LOOPS)%nat;
  inv_generated : List.length (generated t) = S (loops st);
  inv_refinements : List.length (refinements t) = loops st;
  inv_critiques :
    List.length (critiques t) = (loops st + if isSatisfied st then 1 else 0)%nat;
  inv_current : obj (currentImage st) = loops st;
  inv_zero : loops st = 0%nat -> currentImage st = v1;
  inv_first : exists g, generated t = v1 :: g;
  inv_first_obj : obj v1 = 0%nat;
  inv_first_critique :
    critiques t = [] \/ exists c r, critiques t = (v1, c) :: r;
  inv_critiqued :
    Forall (fun p => (obj (fst p) < List.length (critiques t))%nat) (critiques t);
  inv_oracle : forall k i c,
    nth_error (critiques t) k = Some (i, c) ->
    critiqueGeneratedImage env k i = Ok c;
  inv_last :
    if isSatisfied st
    then exists t0 c, t = t0 ++ [Critiqued (currentImage st) c] /\
                      QUALITY_THRESHOLD <= score c /\
                      Forall (fun s => s < QUALITY_THRESHOLD) (scores t0)
    else (exists t0, t = t0 ++ [Generated (currentImage st)]) /\
         Forall (fun s => s < QUALITY_THRESHOLD) (scores t);
  inv_best_bound : Forall (fun s => s <= bestScore st) (scores t);
  inv_best_nonneg : 0 <= bestScore st;
  inv_best :
    (bestScore st = 0 /\ bestImage st = v1) \/
    (exists r1 c r2, critiques t = r1 ++ (bestImage st, c) :: r2 /\
                     score c = bestScore st /\ 0 < bestScore st /\
                     Forall (fun p => score (snd p) < bestScore st) r1);
  inv_best_obj : (obj (bestImage st) <= loops st)%nat;
  inv_best_current : obj (bestImage st) = loops st -> bestImage st = currentImage st;
  inv_best_older :
    isSatisfied st = false -> (0 < loops st)%nat -> (obj (bestImage st) < loops st)%nat
}.

End Semantics.


(** ** The order of the provider calls *)

(** More of what holds each time line 111 is reached, in a run entered
    with the prompt [prompt0]: the images critiqued so far are the images
    generated so far, in the same order, up to the current one; the
    identities of the images count the generator calls; the current
    prompt is the one the refiner returned last. *)
Record OrderInv (prompt0 : string) (st : LoopState) (t : Trace) : Prop := mkOrderInv {
  ord_generated :
    generated t = map fst (critiques t) ++
                  (if isSatisfied st then [] else [currentImage st]);
  ord_ids : map obj (generated t) = seq 0 (List.length (generated t));
  ord_prompt : currentPrompt st = last (refinements t) prompt0;
  ord_satisfied : isSatisfied st = true -> (loops st < MAX_REFINEMENT_LOOPS)%nat
}.

End App.

(** * JavaScript strings *)

Module Js.

(** [s || d] on strings: the empty string is falsy. *)
Definition orElse (s d : string) : string := if (s =? "")%string then d else s.

(** Truthiness of an optional string argument ([undefined] and [""] are
    falsy). *)
Definition truthy (s : option string) : bool :=
  match s with
  | Some x => negb (x =? "")%string
  | None => false
  end.

(** A string is held as the bytes of its UTF-8 encoding.  (A JavaScript
    string with a lone surrogate has none and is outside the model.) *)

(** The UTF-8 bytes of a code point below U+10000. *)
Definition utf8 (codePoint : N) : string :=
  (if codePoint <? 128 then String (ascii_of_N codePoint) EmptyString
   else if codePoint <? 2048 then
     String (ascii_of_N (192 + codePoint / 64))
       (String (ascii_of_N (128 + codePoint mod 64)) EmptyString)
   else
     String (ascii_of_N (224 + codePoint / 4096))
       (String (ascii_of_N (128 + (codePoint / 64) mod 64))
          (String (ascii_of_N (128 + codePoint mod 64)) EmptyString)))%N.

(** A byte [10xxxxxx] continues the character begun before it. *)
Definition isContinuation (c : ascii) : bool :=
  ((128 <=? N_of_ascii c) && (N_of_ascii c <? 192))%N.

Definition continues (s : string) : bool :=
  match s with
  | EmptyString => false
  | String c _ => isContinuation c
  end.

(** The characters of a string, in order: each byte that is not a
    continuation byte, together with the continuation bytes after it. *)
Fixpoint chars (s : string) : list string :=
  match s with
  | EmptyString => []
  | String c s' =>
      match chars s' with
      | [] => [String c EmptyString]
      | next :: rest =>
          if continues next then String c next :: rest
          else String c EmptyString :: next :: rest
      end
  end.

Definition join (l : list string) : string := fold_right append EmptyString l.

(** The code points [String.prototype.trim] removes: the white space
    (TAB, VT, FF, SPACE, NBSP, U+1680, U+2000 to U+200A, U+202F, U+205F,
    U+3000, U+FEFF) and the line terminators (LF, CR, U+2028, U+2029). *)
Definition whiteSpace : list string :=
  map utf8 [9; 10; 11; 12; 13; 32; 160; 5760;
            8192; 8193; 8194; 8195; 8196; 8197; 8198; 8199; 8200; 8201; 8202;
            8232; 8233; 8239; 8287; 12288; 65279]%N.

Definition isWhiteSpace (ch : string) : bool := existsb (String.eqb ch) whiteSpace.

Fixpoint dropWhile {A} (f : A -> bool) (l : list A) : list A :=
  match l with
  | [] => []
  | x :: l' => if f x then dropWhile f l' else l
  end.

(** [s.trim()]: the characters of [s] without the white space at its
    start and at its end. *)
Definition trim (s : string) : string :=
  join (rev (dropWhile isWhiteSpace (rev (dropWhile isWhiteSpace (chars s))))).

(** A string of nothing but white space. *)
Definition blank (s : string) : bool := forallb isWhiteSpace (chars s).

(** [toLowerCase] on the letters A to Z; every other byte is left as it
    is. *)
Definition lowerChar (c : ascii) : ascii :=
  let n := nat_of_ascii c in
  if ((65 <=? n) && (n <=? 90))%nat then ascii_of_nat (n + 32) else c.

Fixpoint toLowerCase (s : string) : string :=
  match s with
  | EmptyString => EmptyString
  | String c s' => String (lowerChar c) (toLowerCase s')
  end.

(** [hay.includes(needle)] *)
Fixpoint includes (needle hay : string) : bool :=
  if prefix needle hay then true
  else match hay with
       | EmptyString => false
       | String _ hay' => includes needle hay'
       end.

(** The characters a string literal of this file cannot hold. *)
Definition dq : string := String (ascii_of_nat 34) EmptyString.
Definition nl : string := String (ascii_of_nat 10) EmptyString.

(** The lines of a template literal, joined by line feeds. *)
Definition lines (l : list string) : string := String.concat nl l.

(** The first and the last character of a string. *)
Definition firstChar (s : string) : option string := hd_error (chars s).

Definition lastChar (s : string) : option string := hd_error (rev (chars s)).

(** [s.split(sep)] for a separator of one character. *)
Fixpoint split (sep : ascii) (s : string) : list string :=
  match s with
  | EmptyString => [EmptyString]
  | String c s' =>
      if Ascii.eqb c sep then EmptyString :: split sep s'
      else match split sep s' with
           | piece :: pieces => String c piece :: pieces
           | [] => [String c EmptyString]
           end
  end.

(** The characters of [s] are all different from [c]. *)
Fixpoint without (c : ascii) (s : string) : bool :=
  match s with
  | EmptyString => true
  | String a s' => negb (Ascii.eqb a c) && without c s'
  end.

(** An integer that JavaScript holds exactly and prints digit by digit:
    one of absolute value at most 2^53 - 1.  Other numbers are outside the
    model (from 1e21 on they are printed in exponent form). *)
Record SafeInteger : Type := mkInt {
  value : Z;
  value_safe : (Z.abs value <=? 9007199254740991)%Z = true
}.

(** A number in a template literal. *)
Definition decimal (n : SafeInteger) : string := NilZero.string_of_int (Z.to_int (value n)).

End Js.

(** * The Gemini adapters ([services/geminiService.ts]) *)

Module GeminiService.

Local Open Scope Z_scope.

Inductive BackgroundMode : Type := STUDIO | IMMERSIVE | GAMEPLAY.

(** The parts of a request's [contents]. *)
Inductive Part : Type :=
| TextPart (text : string)
| InlineDataPart (mimeType data : string).

Record ImageConfig : Type := mkImageConfig { aspectRatio : string; imageSize : string }.

Record GenerateContentRequest : Type := mkRequest {
  model : string;
  contents : list Part;
  imageConfig : option ImageConfig   (* [config.imageConfig], when given *)
}.

(** [part.inlineData] of a response part. *)
Record InlineData : Type := mkInline { inlineBytes : string; inlineMime : option string }.

Record GenerateContentResponse : Type := mkResponse {
  text : option string;              (* [response.text] *)
  parts : list (option InlineData)   (* [candidates?.[0]?.content?.parts || []] *)
}.

(** [ai.models.generateContent] *)
Definition Provider : Type := GenerateContentRequest -> Result GenerateContentResponse.

Record GeneratedImage : Type := mkImage { data : string; mimeType : string }.

(** ** [optimizePrompt] (lines 18-81) *)

Definition backgroundInstruction (backgroundMode : BackgroundMode) (scenario : string) : string :=
  match backgroundMode with
  | STUDIO => "1. It must ask for a neutral, solid background (dark grey or black) to make it easy for the video model to understand the 3D form."
  | IMMERSIVE => "1. The character MUST be integrated into the requested scenario: " ++ Js.dq ++ scenario ++ Js.dq ++ ". The background should be highly detailed and match the environment description."
  | GAMEPLAY => "1. The image must look like a third-person video game screenshot (gameplay view). The character is in the scenario: " ++ Js.dq ++ scenario ++ Js.dq ++ ". Include environmental details consistent with a game level."
  end%string.

Definition textPrompt (name description style scenario : string)
    (backgroundMode : BackgroundMode) (userImageBase64 : option string) : string :=
  Js.lines [
    "";
    "    You are an expert concept artist and prompt engineer.";
    "    I need to generate a character reference sheet for a video generation model.";
    "    ";
    "    Character Name: " ++ name;
    "    Description: " ++ description;
    "    Art Style: " ++ style;
    "    Scenario/Vibe: " ++ scenario;
    "";
    "    " ++ (if Js.truthy userImageBase64 then "CRITICAL INSTRUCTION: The user has provided a reference image containing a specific face/person. The output character MUST bear a strong facial resemblance to this person (maintain likeness, ethnicity, and facial structure) while adapting them into the requested Art Style and costume." else "");
    "";
    "    Task: Write a highly detailed image generation prompt. ";
    "    The prompt must describe a " ++ Js.dq ++ "Character Turnaround Sheet" ++ Js.dq ++ " featuring the character in a full-body view. ";
    "    It should include a front view, side view, and back view arranged horizontally.";
    "    ";
    "    Key requirements for the output prompt:";
    "    " ++ backgroundInstruction backgroundMode scenario;
    "    2. It must specify high fidelity, perfect lighting, 4k resolution, and clear details.";
    "    3. Focus heavily on the visual aesthetic defined by the style.";
    "    4. Ensure the character design is consistent across all views.";
    "    " ++ (if Js.truthy userImageBase64 then "5. Emphasize that the face must match the reference image provided." else "");
    "";
    "    Return ONLY the raw prompt text, no markdown formatting or explanations.";
    "  "
  ]%string.

Definition referencePart (image : option string) : list Part :=
  match image with
  | Some bytes => if Js.truthy image then [InlineDataPart "image/jpeg" bytes] else []
  | None => []
  end.

Definition optimizePromptRequest (name description style scenario : string)
    (backgroundMode : BackgroundMode) (userImageBase64 : option string) :
    GenerateContentRequest :=
  mkRequest "gemini-3-pro-preview"
            (TextPart (textPrompt name description style scenario
                                  backgroundMode userImageBase64)
             :: referencePart userImageBase64)
            None.

(** Line 80: [return response.text?.trim() || ""]. *)
Definition optimizePrompt (generateContent : Provider)
    (name description style scenario : string)
    (backgroundMode : BackgroundMode) (userImageBase64 : option string) :
    Result string :=
  match generateContent (optimizePromptRequest name description style scenario
                                               backgroundMode userImageBase64) with
  | Throw e => Throw e
  | Ok response =>
      Ok (match text response with
          | Some t => Js.orElse (Js.trim t) ""
          | None => ""
          end)
  end.

(** ** [generateAvatarImage] (lines 176-215) *)

Definition generateAvatarImageRequest (optimizedPrompt : string)
    (referenceImageBase64 : option string) : GenerateContentRequest :=
  mkRequest "gemini-3-pro-image-preview"
            (TextPart optimizedPrompt :: referencePart referenceImageBase64)
            (Some (mkImageConfig "16:9" "2K")).

(** Lines 205-212: the first part that carries inline data. *)
Fixpoint firstInlineData (ps : list (option InlineData)) : option GeneratedImage :=
  match ps with
  | [] => None
  | Some d :: _ =>
      Some (mkImage (inlineBytes d)
                    (match inlineMime d with
                     | Some m => Js.orElse m "image/png"
                     | None => "image/png"
                     end))
  | None :: ps' => firstInlineData ps'
  end.

Definition generateAvatarImage (generateContent : Provider)
    (optimizedPrompt : string) (referenceImageBase64 : option string) :
    Result GeneratedImage :=
  match generateContent (generateAvatarImageRequest optimizedPrompt
                                                    referenceImageBase64) with
  | Throw e => Throw e
  | Ok response =>
      match firstInlineData (parts response) with
      | Some image => Ok image
      | None => Throw (Error "No image data found in response")
      end
  end.


(** ** [generateAvatarVideo] (lines 218-304) *)

Definition MAX_RETRIES : nat := 3.

(** What the code reads of a video operation. *)
Record VideoOperation : Type := mkOperation {
  done : bool;
  stateFailed : bool;          (* [metadata?.state === 'FAILED'] *)
  operationError : option string;  (* [error], by its message *)
  uri : option string   (* [response?.generatedVideos?.[0]?.video?.uri] *)
}.

(** The provider's part in one attempt: the answer of [generateVideos] and
    the answers of the successive [getVideosOperation] calls. *)
Record Attempt : Type := mkAttempt {
  start : Result VideoOperation;
  polls : list (Result VideoOperation)
}.

Definition videoPrompt (backgroundMode : BackgroundMode) (scenario : string) : string :=
  match backgroundMode with
  | STUDIO => "Cinematic 360-degree turntable shot of the character. Smooth camera rotation around the subject. Neutral studio lighting. 4k."
  | IMMERSIVE => "Cinematic 360-degree camera orbit around the character in a " ++ scenario ++ " environment. Detailed background, atmospheric lighting. 4k."
  | GAMEPLAY => "Video game character showcase. 360-degree rotating camera view of the character in a " ++ scenario ++ ". Third-person perspective, game engine style."
  end%string.

(** [ai.models.generateVideos] and the polling that follows it: the
    attempt number and the prompt select the provider's answers. *)
Definition VideoProvider : Type := nat -> string -> Attempt.

(** Lines 268-276, with the milliseconds slept so far.  [None]: the
    operation is not done and the provider has no further answer. *)
Fixpoint pollOperation (operation : VideoOperation)
    (answers : list (Result VideoOperation)) (slept : list Z) :
    option (Result VideoOperation * list Z) :=
  if done operation then Some (Ok operation, slept)
  else
    match answers with
    | [] => None
    | answer :: answers' =>
        let slept' := slept ++ [5000] in
        match answer with
        | Throw e => Some (Throw e, slept')
        | Ok operation' =>
            if stateFailed operation'
            then Some (Throw (Error ("Veo State FAILED: " ++
                         match operationError operation' with
                         | Some m => Js.orElse m "Unknown error"
                         | None => "Unknown error"
                         end)), slept')
            else pollOperation operation' answers' slept'
        end
    end.

(** Lines 253-285: the body of the [try]. *)
Definition runAttempt (a : Attempt) : option (Result string * list Z) :=
  match start a with
  | Throw e => Some (Throw e, [])
  | Ok operation =>
      match pollOperation operation (polls a) [] with
      | None => None
      | Some (Throw e, slept) => Some (Throw e, slept)
      | Some (Ok operation', slept) =>
          match operationError operation' with
          | Some m => Some (Throw (Error ("Veo Operation Error: " ++ m)), slept)
          | None =>
              if Js.truthy (uri operation')
              then Some (Ok (match uri operation' with Some u => u | None => "" end), slept)
              else Some (Throw (Error "Video URI not found in response"), slept)
          end
      end
  end.

(** Line 289. *)
Definition isInternalError (err : JsError) : bool :=
  match message err with
  | Some m => Js.includes "internal" (Js.toLowerCase m) ||
              Js.includes "server" (Js.toLowerCase m)
  | None => false
  end.

Record VideoRun : Type := mkRun {
  result : Result string;   (* the link returned or the value thrown *)
  delays : list Z;          (* every [delay(ms)] awaited, in order *)
  attempts : nat            (* calls of [generateVideos] *)
}.

(** Line 303: [throw lastError || new Error(...)]. *)
Definition throwLast (lastError : option JsError) : Result string :=
  Throw (match lastError with
         | Some e => e
         | None => Error "Video generation failed after multiple attempts."
         end).

(** Lines 252-301: the [for] loop, entered with [attempt]. *)
Fixpoint retryLoop (provider : nat -> Attempt) (fuel attempt : nat)
    (lastError : option JsError) (slept : list Z) : option VideoRun :=
  if (attempt <=? MAX_RETRIES)%nat then
    match fuel with
    | O => None
    | S fuel' =>
        match runAttempt (provider attempt) with
        | None => None
        | Some (Ok downloadLink, d) => Some (mkRun (Ok downloadLink) (slept ++ d) attempt)
        | Some (Throw err, d) =>
            if (attempt <? MAX_RETRIES)%nat && isInternalError err
            then retryLoop provider fuel' (S attempt) (Some err) (slept ++ d ++ [4000])
            else Some (mkRun (throwLast (Some err)) (slept ++ d) attempt)
        end
    end
  else Some (mkRun (throwLast lastError) slept (attempt - 1)).

(** The reference image goes to the provider as it is and
    [characterName] is not used, so neither is a parameter here. *)
Definition generateAvatarVideo (generateVideos : VideoProvider)
    (backgroundMode : BackgroundMode) (scenario : string) : option VideoRun :=
  retryLoop (fun attempt => generateVideos attempt (videoPrompt backgroundMode scenario))
            MAX_RETRIES 1 None [].

(** The delay between two attempts and the delay between two polls. *)
Definition baseDelayMs : Z := 4000.
Definition pollDelayMs : Z := 5000.

(** The delays of a run that are retry delays. *)
Definition retryDelays (slept : list Z) : list Z := filter (Z.eqb baseDelayMs) slept.

(** Three providers to run the loop on: one that fails twice with
    server-side errors and then delivers, one that rejects the prompt, and
    one that is down. *)
Definition pendingOperation : VideoOperation := mkOperation false false None None.

Definition flakyVideos : VideoProvider :=
  fun attempt _ =>
    match attempt with
    | 1%nat => mkAttempt (Throw (Error "500 Internal Server Error")) []
    | 2%nat => mkAttempt (Ok pendingOperation)
                 [Ok (mkOperation false true (Some "internal failure") None)]
    | _ => mkAttempt (Ok pendingOperation)
             [Ok pendingOperation;
              Ok (mkOperation true false None (Some "https://video/1"))]
    end.

Definition blockedVideos : VideoProvider :=
  fun _ _ => mkAttempt (Throw (Error "Prompt rejected by the safety filter")) [].

Definition downVideos : VideoProvider :=
  fun _ _ => mkAttempt (Throw (Error "Service unavailable: SERVER overloaded")) [].

(** The image configuration of the later variant of the adapter, the one
    of the 3D pipeline: [aspectRatio: "1:1"] ("Square for 3D model
    generation") and [imageSize: "2K"]. *)
Definition imageConfigFor3D : ImageConfig := mkImageConfig "1:1" "2K".

(** An aspect ratio [W:H] is square when [W] and [H] are the same
    numeral. *)
Definition squareAspectRatio (ratio : string) : bool :=
  match index 0 ":" ratio with
  | Some i => (substring 0 i ratio =?
               substring (S i) (String.length ratio - S i) ratio)%string
  | None => false
  end.

(** A provider that answers every request with empty text. *)
Definition emptyTextProvider : Provider := fun _ => Ok (mkResponse (Some "") []).

(** ** [refinePrompt] (lines 136-173) *)

Definition specificInstructions (critique : App.CritiqueResult)
    (userFeedback : option string) : string :=
  (Js.lines [
     "";
     "    Critique of previous output: " ++ Js.dq ++ App.feedback critique ++ Js.dq;
     "    Suggestions for improvement: " ++ Js.dq ++ App.suggestions critique ++ Js.dq;
     "  "
   ] ++
   match userFeedback with
   | Some fb =>
       if Js.truthy userFeedback
       then Js.nl ++ Js.nl ++ "USER FEEDBACK (HIGHEST PRIORITY): " ++ Js.dq ++ fb ++ Js.dq
            ++ Js.nl ++ "Make sure to incorporate this feedback immediately."
       else ""
   | None => ""
   end)%string.

Definition refinePromptText (currentPrompt : string) (critique : App.CritiqueResult)
    (userFeedback : option string) : string :=
  Js.lines [
    "";
    "    You are an expert Prompt Engineer.";
    "    ";
    "    Current Prompt: " ++ Js.dq ++ currentPrompt ++ Js.dq;
    "    ";
    "    " ++ specificInstructions critique userFeedback;
    "    ";
    "    Task: Rewrite the current prompt to address the critique/feedback and improve the output quality. ";
    "    Keep the core requirements (Character Turnaround Sheet, background instructions, 4k).";
    "    Enhance the descriptive details based on the suggestions.";
    "    ";
    "    Return ONLY the raw new prompt text.";
    "  "
  ]%string.

Definition refinePromptRequest (currentPrompt : string)
    (critique : App.CritiqueResult) (userFeedback : option string) :
    GenerateContentRequest :=
  mkRequest "gemini-3-pro-preview"
            [TextPart (refinePromptText currentPrompt critique userFeedback)] None.

(** Line 172: [return response.text?.trim() || currentPrompt]. *)
Definition refinePrompt (generateContent : Provider) (currentPrompt : string)
    (critique : App.CritiqueResult) (userFeedback : option string) : Result string :=
  match generateContent (refinePromptRequest currentPrompt critique userFeedback) with
  | Throw e => Throw e
  | Ok response =>
      Ok (match text response with
          | Some t => Js.orElse (Js.trim t) currentPrompt
          | None => currentPrompt
          end)
  end.

(** ** [critiqueGeneratedImage] (lines 84-133) *)

Definition critiquePromptText (originalBrief : string) : string :=
  Js.lines [
    "";
    "    You are a Senior Art Director. ";
    "    Compare the generated image (attached) with the original brief: " ++ Js.dq ++ originalBrief ++ Js.dq ++ ".";
    "    ";
    "    Evaluate 3 criteria:";
    "    1. Accuracy to description (and likeness to face if implied).";
    "    2. Consistency of the character views (front/side/back).";
    "    3. Visual quality (clarity, lighting).";
    "";
    "    Provide a JSON response with:";
    "    - score: integer (0-100)";
    "    - feedback: short string explaining the main issue or success.";
    "    - suggestions: specific details to add to the prompt to fix issues.";
    "  "
  ]%string.

(** The response schema of the request is not part of the model. *)
Definition critiqueRequest (originalBrief : string) (image : GeneratedImage) :
    GenerateContentRequest :=
  mkRequest "gemini-3-pro-preview"
            [TextPart (critiquePromptText originalBrief);
             InlineDataPart (mimeType image) (data image)]
            None.

(** Lines 130-132; [JSON.parse] with the cast to [CritiqueResult] is the
    parameter [jsonParse]. *)
Definition critiqueGeneratedImage (generateContent : Provider)
    (jsonParse : string -> Result App.CritiqueResult)
    (originalBrief : string) (image : GeneratedImage) : Result App.CritiqueResult :=
  match generateContent (critiqueRequest originalBrief image) with
  | Throw e => Throw e
  | Ok response =>
      match text response with
      | Some t => if (t =? "")%string then Throw (Error "No critique returned")
                  else jsonParse t
      | None => Throw (Error "No critique returned")
      end
  end.

(** An answer to a poll after which the loop of lines 268-276 goes on:
    the operation is not done and its state is not FAILED. *)
Definition pendingAnswer (answer : Result VideoOperation) : bool :=
  match answer with
  | Ok operation => negb (done operation) && negb (stateFailed operation)
  | Throw _ => false
  end.

(** The provider lets the attempt end: [generateVideos] throws or returns
    an operation that is done, or some poll is answered otherwise than
    with a pending operation. *)
Definition settles (a : Attempt) : bool :=
  match start a with
  | Throw _ => true
  | Ok operation =>
      done operation || existsb (fun answer => negb (pendingAnswer answer)) (polls a)
  end.

(** A provider whose operation never gets done: every poll the model
    has finds it pending. *)
Definition stuckVideos : VideoProvider :=
  fun _ _ => mkAttempt (Ok pendingOperation) (repeat (Ok pendingOperation) 5).


End GeminiService.

(** * The task poller ([services/tripoService.ts]) *)

Module TripoService.

Local Open Scope Z_scope.

(** ['queued' | 'running' | 'success' | 'failed' | 'banned' | 'expired' |
    'cancelled' | 'unknown'] *)
Inductive TaskStatusName : Type :=
| queued | running | success | failed | banned | expired | cancelled | unknown.

Definition statusString (s : TaskStatusName) : string :=
  match s with
  | queued => "queued" | running => "running" | success => "success"
  | failed => "failed" | banned => "banned" | expired => "expired"
  | cancelled => "cancelled" | unknown => "unknown"
  end.

Record TaskOutput : Type := mkOutput {
  model : option string;
  base_model : option string;
  pbr_model : option string;
  rendered_image : option string
}.

(** [TripoTaskStatus['data']], without the free-form [input]. *)
Record TaskData : Type := mkTask {
  task_id : string;
  type : string;
  status : TaskStatusName;
  output : TaskOutput;
  progress : Z;
  create_time : Z
}.

(** One call of [getTaskStatus]: what it returns or throws, and the
    milliseconds it takes. *)
Record StatusCall : Type := mkCall { response : Result TaskData; latency : N }.

(** The world outside the poller: the k-th status call for a task, and
    by how many milliseconds the k-th sleep overshoots its timer. *)
Record Env : Type := mkEnv {
  getTaskStatus : nat -> string -> StatusCall;
  lateness : nat -> N
}.

Record World : Type := mkWorld {
  now : Z;                              (* [Date.now()] *)
  statusCalls : nat;                    (* calls of [getTaskStatus] so far *)
  progressCalls : list (Z * string)     (* arguments of the [onProgress] calls *)
}.

Definition pollInterval : Z := 3000.

(** Line 181. *)
Definition failureStatuses : list string :=
  ["failed"; "banned"; "expired"; "cancelled"; "unknown"].

Definition isFailure (s : TaskStatusName) : bool :=
  existsb (String.eqb (statusString s)) failureStatuses.

Definition taskFailed (s : TaskStatusName) (taskId : string) : JsError :=
  Error ("Task " ++ statusString s ++ ": " ++ taskId)%string.

Definition taskTimedOut : JsError := Error "Task timed out".

Section Poller.

Variable env : Env.
Variable taskId : string.
Variable onProgress : bool.   (* whether the optional callback was passed *)
Variable maxWaitMs : Z.
Variable startTime : Z.

(** [await delay(pollInterval)] after [k] status calls. *)
Definition sleep (w : World) : World :=
  mkWorld (now w + pollInterval + Z.of_N (lateness env (statusCalls w - 1)))
          (statusCalls w) (progressCalls w).

(** Lines 170-188: the [while] loop and the final [throw]. *)
Fixpoint pollLoop (fuel : nat) (w : World) : option (Result TaskData * World) :=
  if now w - startTime <? maxWaitMs then
    match fuel with
    | O => None
    | S fuel' =>
        let call := getTaskStatus env (statusCalls w) taskId in
        let w1 := mkWorld (now w + Z.of_N (latency call)) (S (statusCalls w))
                          (progressCalls w) in
        match response call with
        | Throw e => Some (Throw e, w1)
        | Ok st =>
            let w2 := if onProgress
                      then mkWorld (now w1) (statusCalls w1)
                                   (progressCalls w1 ++
                                    [(progress st, statusString (status st))])
                      else w1 in
            if (statusString (status st) =? "success")%string then Some (Ok st, w2)
            else if isFailure (status st)
                 then Some (Throw (taskFailed (status st) taskId), w2)
                 else pollLoop fuel' (sleep w2)
        end
    end
  else Some (Throw taskTimedOut, w).

End Poller.

(** Every pass that goes on sleeps [pollInterval] at least, so this many
    passes use up [maxWaitMs]. *)
Definition pollFuel (maxWaitMs : Z) : nat := S (Z.to_nat (maxWaitMs / pollInterval)).

Definition waitForTaskCompletion (env : Env) (taskId : string) (onProgress : bool)
    (maxWaitMs : Z) (w : World) : option (Result TaskData * World) :=
  pollLoop env taskId onProgress maxWaitMs (now w) (pollFuel maxWaitMs) w.

(** The default of the third parameter: five minutes. *)
Definition defaultMaxWaitMs : Z := 300000.

(** Milliseconds between the start of the poller and its k-th look at the
    clock (line 170), as long as every pass went on. *)
Fixpoint pollTime (env : Env) (taskId : string) (k : nat) : Z :=
  match k with
  | O => 0
  | S k' => pollTime env taskId k'
            + Z.of_N (latency (getTaskStatus env k' taskId))
            + pollInterval + Z.of_N (lateness env k')
  end.

(** The k-th status call returns a task that is still queued or running. *)
Definition pending (env : Env) (taskId : string) (k : nat) : Prop :=
  exists d, response (getTaskStatus env k taskId) = Ok d /\
            (status d = queued \/ status d = running).

(** What [onProgress] is told by the first [n] status calls. *)
Fixpoint reports (env : Env) (taskId : string) (n : nat) : list (Z * string) :=
  match n with
  | O => []
  | S n' => reports env taskId n' ++
            match response (getTaskStatus env n' taskId) with
            | Ok d => [(progress d, statusString (status d))]
            | Throw _ => []
            end
  end.

(** The world when [n] status calls have found the task pending and the
    poller, started at [t0], has slept after each of them. *)
Definition worldAfter (env : Env) (taskId : string) (onProgress : bool)
    (t0 : Z) (n : nat) : World :=
  mkWorld (t0 + pollTime env taskId n) n
          (if onProgress then reports env taskId n else []).

(** A task and a provider that answers with the statuses of a list, one
    per call and the last one for ever, each call taking [ms]. *)
Definition taskWith (s : TaskStatusName) (p : Z) : TaskData :=
  mkTask "task-1" "image_to_model" s (mkOutput (Some "model.glb") None None None) p 0.

Definition scriptedStatus (l : list (TaskStatusName * Z)) (ms : N) : Env :=
  mkEnv (fun k _ => let sp := nth k l (last l (queued, 0)) in
                    mkCall (Ok (taskWith (fst sp) (snd sp))) ms)
        (fun _ => 0%N).

(** The world when the status call number [n] has returned (or thrown),
    after [n] calls that found the task pending. *)
Definition worldAtCall (env : Env) (taskId : string) (onProgress : bool)
    (t0 : Z) (n : nat) : World :=
  mkWorld (t0 + pollTime env taskId n
           + Z.of_N (latency (getTaskStatus env n taskId)))
          (S n)
          (if onProgress then reports env taskId (S n) else []).

(** What the poller makes of a status call that ends the polling. *)
Definition verdict (taskId : string) (answer : Result TaskData) : Result TaskData :=
  match answer with
  | Throw e => Throw e
  | Ok d => if (statusString (status d) =? "success")%string then Ok d
            else Throw (taskFailed (status d) taskId)
  end.

(** ** The HTTP calls (lines 45-157) *)

Module Http.

(** What the code reads of a [fetch] response: [ok], [status], the body as
    text and the body as JSON, each read possibly throwing. *)
Record Response (A : Type) : Type := mkResponse {
  ok : bool;
  status : Js.SafeInteger;
  text : Result string;
  json : Result A
}.

(** The envelope [{ code, data }] of the provider's answers. *)
Record Coded (A : Type) : Type := mkCoded { code : Js.SafeInteger; data : A }.

(** The pattern the three calls repeat, each with its own words: a
    response that is not OK throws "<failed>: <status> - <body>", an
    envelope whose code is not 0 throws "<error>: code <code>", and the
    data of the envelope is returned otherwise. *)
Definition unwrap {A} (failed error : string)
    (fetched : Result (Response (Coded A))) : Result A :=
  match fetched with
  | Throw e => Throw e
  | Ok response =>
      if negb (ok response) then
        match text response with
        | Throw e => Throw e
        | Ok errorText =>
            Throw (Error (failed ++ ": " ++ Js.decimal (status response)
                          ++ " - " ++ errorText))
        end
      else
        match json response with
        | Throw e => Throw e
        | Ok result =>
            if negb (Js.value (code result) =? 0)%Z
            then Throw (Error (error ++ ": code " ++ Js.decimal (code result)))
            else Ok (data result)
        end
  end%string.

(** Line 57: [mimeType.split('/')[1] || 'png']. *)
Definition extension (mimeType : string) : string :=
  Js.orElse (nth 1 (Js.split "/" mimeType) "") "png".

(** Line 58: the name under which the image is uploaded. *)
Definition fileName (mimeType : string) : string := ("avatar." ++ extension mimeType)%string.

(** Lines 60-79, once the form is built; [data] is [{ image_token }]. *)
Definition uploadImageToTripo (fetched : Result (Response (Coded string))) : Result string :=
  unwrap "Upload failed" "Upload error" fetched.

(** Lines 101-131; [data] is [{ task_id }]. *)
Definition startImageToModelTask (fetched : Result (Response (Coded string))) : Result string :=
  unwrap "Task creation failed" "Task creation error" fetched.

(** Lines 137-157. *)
Definition getTaskStatus (fetched : Result (Response (Coded TaskData))) : Result TaskData :=
  unwrap "Get task failed" "Get task error" fetched.

End Http.

(** ** [generate3DModel] (lines 215-286) *)

(** The second argument of the progress callback: a number written in the
    code, or [20 + progress * 0.7] computed in floating point. *)
Inductive Percent : Type :=
| Exactly (n : Z)
| Adjusted (progress : Z).

Record ModelResult : Type := mkModel {
  modelUrl : string;
  modelBase64 : option string;
  pbrModelUrl : option string;
  renderedImageUrl : option string
}.

(** The calls [generate3DModel] awaits besides the poller: the upload, the
    start of the task, the download of a URL as a data URL, and the
    making of an object URL from a data URL ([fetch], [blob],
    [createObjectURL]). *)
Record ModelEnv : Type := mkModelEnv {
  uploadImageToTripo : string -> string -> Result string;
  startImageToModelTask : string -> Result string;
  downloadAsBase64 : string -> Result string;
  objectUrl : string -> Result string;
  statusEnv : Env
}.

(** [a || b] on optional strings. *)
Definition orUrl (a b : option string) : option string :=
  if Js.truthy a then a else b.

Definition urlOr (a : option string) (d : string) : string :=
  match a with
  | Some u => Js.orElse u d
  | None => d
  end.

(** Lines 254-266 and 270-279: a download whose failure is only logged.
    The data URL is kept as soon as it is there; the local URL replaces
    the remote one only when the object URL could be made too. *)
Definition tryDownload (env : ModelEnv) (url : string) : option string * option string :=
  match downloadAsBase64 env url with
  | Throw _ => (None, None)
  | Ok base64 =>
      match objectUrl env base64 with
      | Throw _ => (Some base64, None)
      | Ok local => (Some base64, Some local)
      end
  end.

Definition generate3DModel (env : ModelEnv) (imageBase64 mimeType : string)
    (onProgress : bool) (t0 : Z) :
    option (Result ModelResult * list (string * Percent)) :=
  let report (log : list (string * Percent)) (m : string) (p : Percent) :=
    if onProgress then log ++ [(m, p)] else log in
  let log := report [] "Uploading image to Tripo3D..." (Exactly 10) in
  match uploadImageToTripo env imageBase64 mimeType with
  | Throw e => Some (Throw e, log)
  | Ok imageToken =>
      let log := report log "Starting 3D model generation..." (Exactly 20) in
      match startImageToModelTask env imageToken with
      | Throw e => Some (Throw e, log)
      | Ok taskId =>
          match waitForTaskCompletion (statusEnv env) taskId true
                                      defaultMaxWaitMs (mkWorld t0 0 []) with
          | None => None
          | Some (waited, w) =>
              let log :=
                if onProgress
                then log ++ map (fun ps => ("Generating 3D model (" ++ snd ps ++ ")...",
                                            Adjusted (fst ps))%string)
                                (progressCalls w)
                else log in
              match waited with
              | Throw e => Some (Throw e, log)
              | Ok result =>
                  if negb (Js.truthy (model (output result))) &&
                     negb (Js.truthy (pbr_model (output result)))
                  then Some (Throw (Error "No model URL in response"), log)
                  else
                    let modelSourceUrl :=
                      urlOr (orUrl (pbr_model (output result)) (model (output result))) "" in
                    let log := report log "Downloading 3D model..." (Exactly 92) in
                    let downloaded := tryDownload env modelSourceUrl in
                    let log := match snd downloaded with
                               | Some _ => report log "3D model downloaded!" (Exactly 98)
                               | None => log
                               end in
                    let localPreviewUrl :=
                      match rendered_image (output result) with
                      | Some preview =>
                          if Js.truthy (rendered_image (output result))
                          then match snd (tryDownload env preview) with
                               | Some local => Some local
                               | None => Some preview
                               end
                          else Some preview
                      | None => None
                      end in
                    Some (Ok (mkModel (match snd downloaded with
                                       | Some local => local
                                       | None => modelSourceUrl
                                       end)
                                      (fst downloaded)
                                      (pbr_model (output result))
                                      localPreviewUrl),
                          log)
              end
          end
      end
  end.

(** A provider whose task succeeds at the second status call, whose
    files can be downloaded, and whose data URLs cannot be turned into
    object URLs. *)
Definition exampleModelEnv : ModelEnv :=
  mkModelEnv (fun _ _ => Ok "token-1") (fun _ => Ok "task-1")
             (fun url => Ok ("data:" ++ url)%string)
             (fun _ => Throw (Error "Failed to fetch"))
             (scriptedStatus [(queued, 0); (success, 100)] 100).

End TripoService.

(** * The handlers of the agent-loop component *)

Module Session.

Local Open Scope Z_scope.

(** [enum AppStep] *)
Inductive AppStep : Type :=
| INPUT | OPTIMIZING_PROMPT | GENERATING_IMAGE | CRITIQUING | REFINING
| AWAITING_APPROVAL | GENERATING_VIDEO | COMPLETE | ERROR.

(** What the handlers await: the optimizer on the form as it stands, the
    refiner called with the user's feedback, the adapters of the loop,
    the video generator, and the download of the video ([fetch] of the
    link with the key appended, then [blob] and [createObjectURL]).  The
    video generator polls without a deadline: [None] is a call of it
    that never returns.  Every other call is one request, which
    settles. *)
Record Providers : Type := mkProviders {
  optimizePrompt : Result string;
  refineWithFeedback : string -> App.CritiqueResult -> string -> Result string;
  loopEnv : App.Env;
  generateAvatarVideo : App.ImageRef -> option (Result string);
  fetchOk : string -> Result bool;
  objectUrl : string -> Result string
}.

(** The state of the component, without the log.  The identity of the
    image on display is the one it has within the run that made it. *)
Record State : Type := mkState {
  step : AppStep;
  generatedPrompt : string;
  generatedImage : option App.ImageRef;
  generatedVideoUrl : option string;
  error : option string;
  critique : option App.CritiqueResult;
  loopCount : nat;
  userFeedback : string
}.

Definition setStep (x : AppStep) (s : State) : State :=
  mkState x (generatedPrompt s) (generatedImage s) (generatedVideoUrl s) (error s)
          (critique s) (loopCount s) (userFeedback s).

Definition setGeneratedPrompt (x : string) (s : State) : State :=
  mkState (step s) x (generatedImage s) (generatedVideoUrl s) (error s)
          (critique s) (loopCount s) (userFeedback s).

Definition setGeneratedImage (x : option App.ImageRef) (s : State) : State :=
  mkState (step s) (generatedPrompt s) x (generatedVideoUrl s) (error s)
          (critique s) (loopCount s) (userFeedback s).

Definition setGeneratedVideoUrl (x : option string) (s : State) : State :=
  mkState (step s) (generatedPrompt s) (generatedImage s) x (error s)
          (critique s) (loopCount s) (userFeedback s).

Definition setError (x : option string) (s : State) : State :=
  mkState (step s) (generatedPrompt s) (generatedImage s) (generatedVideoUrl s) x
          (critique s) (loopCount s) (userFeedback s).

Definition setCritique (x : option App.CritiqueResult) (s : State) : State :=
  mkState (step s) (generatedPrompt s) (generatedImage s) (generatedVideoUrl s)
          (error s) x (loopCount s) (userFeedback s).

Definition setLoopCount (x : nat) (s : State) : State :=
  mkState (step s) (generatedPrompt s) (generatedImage s) (generatedVideoUrl s)
          (error s) (critique s) x (userFeedback s).


(** Lines 176-198.  [None]: the handler never returns, the video
    generator being still at its polling (the step on display is then
    the one of line 178, GENERATING_VIDEO). *)
Definition startVideoGeneration (P : Providers) (image : App.ImageRef) (s : State) :
    option State :=
  let s := setStep GENERATING_VIDEO s in
  let failed (e : JsError) := setStep ERROR (setError (message e) s) in
  match generateAvatarVideo P image with
  | None => None
  | Some (Throw e) => Some (failed e)
  | Some (Ok videoUri) =>
      match fetchOk P videoUri with
      | Throw e => Some (failed e)
      | Ok false => Some (failed (Error "Video download failed"))
      | Ok true =>
          match objectUrl P videoUri with
          | Throw e => Some (failed e)
          | Ok videoObjectUrl =>
              Some (setStep COMPLETE (setGeneratedVideoUrl (Some videoObjectUrl) s))
          end
      end
  end.

(** Line 92: "Create a mock critique to pass format". *)
Definition mockCritique (initialFeedback : string) : App.CritiqueResult :=
  App.mkCritique 0 "User Feedback Loop" initialFeedback.

(** Lines 68-95: the prompt the run starts from, and whether an adapter
    produced it (and [setGeneratedPrompt] was called). *)
Definition establishPrompt (P : Providers) (initialPrompt initialFeedback : option string) :
    Result (string * bool) :=
  let currentPrompt := match initialPrompt with Some p => p | None => "" end in
  if (currentPrompt =? "")%string then
    match optimizePrompt P with
    | Throw e => Throw e
    | Ok p => Ok (p, true)
    end
  else if Js.truthy initialFeedback then
    let feedback := match initialFeedback with Some f => f | None => "" end in
    match refineWithFeedback P currentPrompt (mockCritique feedback) feedback with
    | Throw e => Throw e
    | Ok p => Ok (p, true)
    end
  else Ok (currentPrompt, false).

(** What the calls of a trace leave on display: the prompt refined last,
    the image generated last, the critique returned last, and the number
    of regenerations. *)
Definition shown (t : App.Trace) (s : State) : State :=
  let s := setGeneratedPrompt (last (App.refinements t) (generatedPrompt s)) s in
  let s := setGeneratedImage (match rev (App.generated t) with
                              | image :: _ => Some image
                              | [] => generatedImage s
                              end) s in
  let s := setCritique (match rev (App.critiques t) with
                        | (_, c) :: _ => Some c
                        | [] => critique s
                        end) s in
  setLoopCount (List.length (App.generated t) - 1) s.

(** Line 170: [err.message || "An unexpected error occurred"]. *)
Definition errorText (e : JsError) : string :=
  match message e with
  | Some m => Js.orElse m "An unexpected error occurred"
  | None => "An unexpected error occurred"
  end.

(** Lines 60-174.  [None]: the handler never returns. *)
Definition executeGenerationLoop (P : Providers)
    (initialPrompt initialFeedback : option string) (s : State) : option State :=
  let s := setCritique None (setLoopCount 0 (setGeneratedVideoUrl None (setError None s))) in
  let failed (e : JsError) (s : State) := setStep ERROR (setError (Some (errorText e)) s) in
  match establishPrompt P initialPrompt initialFeedback with
  | Throw e => Some (failed e s)
  | Ok (prompt, fromAdapter) =>
      let s := if fromAdapter then setGeneratedPrompt prompt s else s in
      match App.executeGenerationLoop (loopEnv P) prompt [] with
      | App.OutOfFuel => None
      | App.Thrown e t => Some (failed e (shown t s))
      | App.Done r t =>
          let s := setGeneratedImage (Some (App.generatedImage r)) (shown t s) in
          match App.next r with
          | App.AWAITING_APPROVAL => Some (setStep AWAITING_APPROVAL s)
          | App.GENERATING_VIDEO image => startVideoGeneration P image s
          end
      end
  end.

(** Lines 200-203. *)
Definition handleSubmit (P : Providers) (s : State) : option State :=
  executeGenerationLoop P None None s.


(** Lines 213-217. *)
Definition handleApprove (P : Providers) (s : State) : option State :=
  match generatedImage s with
  | Some image => startVideoGeneration P image s
  | None => Some s
  end.

(** ** The adapters behind the handlers *)

(** [interface AvatarFormData] *)
Record AvatarFormData : Type := mkForm {
  name : string;
  description : string;
  style : string;
  scenario : string;
  userImage : string;
  backgroundMode : GeminiService.BackgroundMode
}.

(** The language model as the component reaches it: each adapter call
    makes one request, so the model is given by its answer to the
    optimizer, to the refiner called with the user's feedback, and to
    the k-th call of the critic, the refiner and the image generator of
    a run; [jsonParse] is [JSON.parse] on the critic's text. *)
Record Models : Type := mkModels {
  promptModel : GeminiService.Provider;
  feedbackModel : GeminiService.Provider;
  criticModel : nat -> GeminiService.Provider;
  refinerModel : nat -> GeminiService.Provider;
  imageModel : nat -> GeminiService.Provider;
  jsonParse : string -> Result App.CritiqueResult
}.

(** The adapters of the loop as lines 101, 115, 134 and 139 call them. *)
Definition geminiEnv (form : AvatarFormData) (G : Models) : App.Env :=
  App.mkEnv
    (fun k image =>
       GeminiService.critiqueGeneratedImage (criticModel G k) (jsonParse G)
         (description form)
         (GeminiService.mkImage (App.data (App.value image))
                                (App.mimeType (App.value image))))
    (fun k currentPrompt critiqueResult =>
       GeminiService.refinePrompt (refinerModel G k) currentPrompt critiqueResult None)
    (fun k currentPrompt =>
       match GeminiService.generateAvatarImage (imageModel G k) currentPrompt
                                               (Some (userImage form)) with
       | Ok image => Ok (App.mkImage (GeminiService.data image)
                                     (GeminiService.mimeType image))
       | Throw e => Throw e
       end).

(** The providers of the handlers, with the calls of lines 76-83 and 93;
    the video generator and the download are those of [P]. *)
Definition withGemini (form : AvatarFormData) (G : Models) (P : Providers) : Providers :=
  mkProviders
    (GeminiService.optimizePrompt (promptModel G) (name form) (description form)
                                  (style form) (scenario form) (backgroundMode form)
                                  (Some (userImage form)))
    (fun currentPrompt mock initialFeedback =>
       GeminiService.refinePrompt (feedbackModel G) currentPrompt mock
                                  (Some initialFeedback))
    (geminiEnv form G)
    (generateAvatarVideo P) (fetchOk P) (objectUrl P).

(** A state of the component before the first run. *)
Definition initialSession : State :=
  mkState INPUT "" None None None None 0 "".

(** Providers around a scripted critic: the optimizer writes a prompt,
    the refiner appends the feedback, the video is made and fetched. *)
Definition scriptedProviders (l : list Z) : Providers :=
  mkProviders (Ok "a neon hacker")
              (fun p _ f => Ok (p ++ " " ++ f)%string)
              (App.scripted l)
              (fun _ => Some (Ok "https://video/1"))
              (fun _ => Ok true)
              (fun _ => Ok "blob:1").

(** The same providers with a video generator that polls for ever. *)
Definition stuckProviders (l : list Z) : Providers :=
  mkProviders (optimizePrompt (scriptedProviders l))
              (refineWithFeedback (scriptedProviders l))
              (loopEnv (scriptedProviders l))
              (fun _ => None)
              (fetchOk (scriptedProviders l))
              (objectUrl (scriptedProviders l)).

(** The form as the component starts with it, for a character called
    Nova. *)
Definition novaForm : AvatarFormData :=
  mkForm "Nova" "a neon hacker" "Cyberpunk 2077, High Tech, Neon"
         "Standing in a futuristic laboratory" "" GeminiService.STUDIO.

(** The JSON text of a critique that scores 40. *)
Definition critique40 : string :=
  ("{" ++ Js.dq ++ "score" ++ Js.dq ++ ":40,"
       ++ Js.dq ++ "feedback" ++ Js.dq ++ ":" ++ Js.dq ++ "too dark" ++ Js.dq ++ ","
       ++ Js.dq ++ "suggestions" ++ Js.dq ++ ":" ++ Js.dq ++ "add light" ++ Js.dq ++ "}"
  )%string.

(** [JSON.parse] where these models need it: on the text [critique40],
    and on text that does not begin as JSON does. *)
Definition parseCritique (text : string) : Result App.CritiqueResult :=
  if (text =? critique40)%string
  then Ok (App.mkCritique 40 "too dark" "add light")
  else Throw (Error "Unexpected token in JSON at position 0").

(** A model that writes a prompt and paints an image, whose critic
    answers [critique40] every time, and whose refiner returns only
    white space: a space, a no-break space and a line separator. *)
Definition silentRefiner : Models :=
  mkModels (fun _ => Ok (GeminiService.mkResponse (Some " a neon hacker, turnaround sheet ") []))
           (fun _ => Ok (GeminiService.mkResponse (Some "a neon hacker, smiling") []))
           (fun _ _ => Ok (GeminiService.mkResponse (Some critique40) []))
           (fun _ _ => Ok (GeminiService.mkResponse
                             (Some (" " ++ Js.utf8 160 ++ Js.utf8 8232)%string) []))
           (fun _ _ => Ok (GeminiService.mkResponse None
                             [None; Some (GeminiService.mkInline "iVBORw0KGgo=" None)]))
           parseCritique.

(** The same model with a critic that returns no text. *)
Definition muteCritic : Models :=
  mkModels (promptModel silentRefiner) (feedbackModel silentRefiner)
           (fun _ _ => Ok (GeminiService.mkResponse None []))
           (refinerModel silentRefiner) (imageModel silentRefiner)
           (jsonParse silentRefiner).

End Session.

(** * Properties of the agent loop *)

Section AppProperties.

Import App.
Local Open Scope Z_scope.

Variable env : Env.

(** ** The trace *)

Lemma critiques_app t1 t2 : critiques (t1 ++ t2) = critiques t1 ++ critiques t2.
Proof. apply flat_map_app. Qed.

Lemma generated_app t1 t2 : generated (t1 ++ t2) = generated t1 ++ generated t2.
Proof. apply flat_map_app. Qed.

Lemma refinements_app t1 t2 :
  refinements (t1 ++ t2) = refinements t1 ++ refinements t2.
Proof. apply flat_map_app. Qed.

Lemma scores_app t1 t2 : scores (t1 ++ t2) = scores t1 ++ scores t2.
Proof. unfold scores. now rewrite critiques_app, map_app. Qed.

Create Rewrite HintDb trace.

Hint Rewrite critiques_app generated_app refinements_app scores_app
  length_app app_nil_r : trace.

Ltac trace_simpl :=
  autorewrite with trace in *; cbn [critiques generated refinements scores
    flat_map map app List.length fst snd] in *.

(** ** One pass through the body *)

Lemma trackBest_fields st c :
  currentPrompt (trackBest st c) = currentPrompt st /\
  currentImage (trackBest st c) = currentImage st /\
  loops (trackBest st c) = loops st /\
  isSatisfied (trackBest st c) = isSatisfied st.
Proof. unfold trackBest. destruct (score c >? bestScore st); auto. Qed.

Lemma trackBest_score st c :
  bestScore (trackBest st c) = Z.max (bestScore st) (score c).
Proof.
  unfold trackBest. destruct (Z.gtb_spec (score c) (bestScore st)); cbn; lia.
Qed.

(** The two ways the body can run to its end: the score reaches the
    threshold and nothing else is called, or the prompt is refined and a
    new image generated. *)
Lemma loopBody_Done st t st' t' :
  loopBody env st t = Done st' t' ->
  exists c,
    critiqueGeneratedImage env (List.length (critiques t)) (currentImage st) = Ok c /\
    let st1 := trackBest st c in
    (QUALITY_THRESHOLD <= score c /\
     st' = mkState (currentPrompt st) (currentImage st) (loops st)
                   (bestImage st1) (bestScore st1) true /\
     t' = t ++ [Critiqued (currentImage st) c])
    \/
    (score c < QUALITY_THRESHOLD /\
     exists p img,
       refinePrompt env (List.length (refinements t)) (currentPrompt st) c = Ok p /\
       generateAvatarImage env (List.length (generated t)) p = Ok img /\
       st' = mkState p (mkRef (List.length (generated t)) img) (S (loops st))
                     (bestImage st1) (bestScore st1) (isSatisfied st) /\
       t' = t ++ [Critiqued (currentImage st) c; Refined p;
                  Generated (mkRef (List.length (generated t)) img)]).
Proof.
  unfold loopBody, bind, awaitCritique.
  destruct (critiqueGeneratedImage env _ _) as [c|e] eqn:Hc; [|discriminate].
  intros H. exists c. split; [reflexivity|]. cbn zeta.
  destruct (trackBest_fields st c) as (Hp & Hi & Hl & Hs).
  rewrite Hp, Hi, Hl, Hs in H.
  destruct (Z.geb_spec (score c) QUALITY_THRESHOLD) as [Hge|Hlt].
  - left. unfold ret in H. inversion H; subst. auto.
  - right. split; [lia|].
    unfold awaitRefine in H. trace_simpl.
    destruct (refinePrompt env _ _ _) as [p|e] eqn:Hr; [|discriminate].
    unfold awaitGenerate in H. trace_simpl.
    destruct (generateAvatarImage env _ _) as [img|e] eqn:Hg; [|discriminate].
    unfold ret in H. inversion H; subst. exists p, img.
    repeat split; auto. now rewrite <- !app_assoc.
Qed.

(** ** The invariant of line 111 *)

Lemma guard_true st :
  guard st = true -> (loops st < MAX_REFINEMENT_LOOPS)%nat /\ isSatisfied st = false.
Proof.
  unfold guard. rewrite andb_true_iff, negb_true_iff, Nat.ltb_lt. auto.
Qed.

Lemma guard_false st :
  guard st = false -> (MAX_REFINEMENT_LOOPS <= loops st)%nat \/ isSatisfied st = true.
Proof.
  unfold guard. rewrite andb_false_iff, negb_false_iff, Nat.ltb_ge. auto.
Qed.

Lemma trackBest_inv v1 st t c :
  Inv env v1 st t ->
  let st1 := trackBest st c in
  Forall (fun s => s <= bestScore st1) (scores t ++ [score c]) /\
  0 <= bestScore st1 /\
  ((bestScore st1 = 0 /\ bestImage st1 = v1) \/
   (exists r1 c' r2,
      critiques t ++ [(currentImage st, c)] = r1 ++ (bestImage st1, c') :: r2 /\
      score c' = bestScore st1 /\ 0 < bestScore st1 /\
      Forall (fun p => score (snd p) < bestScore st1) r1)) /\
  (obj (bestImage st1) <= loops st)%nat /\
  (obj (bestImage st1) = loops st -> bestImage st1 = currentImage st).
Proof.
  intros I. cbn zeta. unfold trackBest.
  pose proof (inv_best_bound I) as Hb. pose proof (inv_best_nonneg I) as Hn.
  destruct (Z.gtb_spec (score c) (bestScore st)) as [Hgt|Hle]; cbn.
  - repeat split.
    + apply Forall_app. split; [|constructor; [lia|constructor]].
      eapply Forall_impl; [|exact Hb]. cbn. intros; lia.
    + lia.
    + right. exists (critiques t), c, []. repeat split; try lia.
      unfold scores in Hb. rewrite Forall_map in Hb.
      eapply Forall_impl; [|exact Hb]. cbn. intros; lia.
    + rewrite (inv_current I). lia.
  - repeat split.
    + apply Forall_app. split; [exact Hb|constructor; [lia|constructor]].
    + exact Hn.
    + destruct (inv_best I) as [H0|(r1 & c' & r2 & Hr & Hs & Hp & Hf)]; [now left|].
      right. exists r1, c', (r2 ++ [(currentImage st, c)]).
      rewrite Hr, <- app_assoc. repeat split; auto.
    + exact (inv_best_obj I).
    + exact (inv_best_current I).
Qed.

Lemma nth_error_snoc {A} (l : list A) (x y : A) k :
  nth_error (l ++ [x]) k = Some y ->
  nth_error l k = Some y \/ (k = List.length l /\ y = x).
Proof.
  intros H. destruct (Nat.lt_ge_cases k (List.length l)) as [Hk|Hk].
  - left. now rewrite nth_error_app1 in H.
  - right. rewrite nth_error_app2 in H by exact Hk.
    destruct (k - List.length l)%nat as [|n] eqn:E; cbn in H.
    + inversion H. split; [lia|reflexivity].
    + destruct n; discriminate.
Qed.

(** The facts about the critiques that hold after the critique of the
    current image has been recorded, whichever branch follows. *)
Lemma critique_recorded v1 st t c :
  Inv env v1 st t -> isSatisfied st = false ->
  critiqueGeneratedImage env (List.length (critiques t)) (currentImage st) = Ok c ->
  let r := critiques t ++ [(currentImage st, c)] in
  List.length r = S (loops st) /\
  (exists c0 r0, r = (v1, c0) :: r0) /\
  Forall (fun p => (obj (fst p) < List.length r)%nat) r /\
  (forall k i c0, nth_error r k = Some (i, c0) ->
                  critiqueGeneratedImage env k i = Ok c0).
Proof.
  intros I Hs Hc. cbn zeta.
  pose proof (inv_critiques I) as Hl. rewrite Hs, Nat.add_0_r in Hl.
  repeat split.
  - rewrite length_app. cbn. lia.
  - destruct (inv_first_critique I) as [E|(c0 & r0 & E)].
    + rewrite E in *. cbn in Hl. rewrite (inv_zero I) by lia.
      now exists c, [].
    + rewrite E. now exists c0, (r0 ++ [(currentImage st, c)]).
  - rewrite length_app. cbn. apply Forall_app. split.
    + eapply Forall_impl; [|exact (inv_critiqued I)]. cbn. intros; lia.
    + constructor; [|constructor]. cbn. rewrite (inv_current I). lia.
  - intros k i c0 H. apply nth_error_snoc in H.
    destruct H as [H|[-> H]]; [exact (inv_oracle I _ H)|].
    inversion H; subst. exact Hc.
Qed.

Lemma loopBody_Inv v1 st t st' t' :
  Inv env v1 st t -> guard st = true ->
  loopBody env st t = Done st' t' ->
  Inv env v1 st' t'.
Proof.
  intros I Hg H. apply guard_true in Hg. destruct Hg as [Hlt Hs].
  apply loopBody_Done in H. destruct H as (c & Hc & H). cbn zeta in H.
  destruct (trackBest_inv c I) as (Bb & Bn & Bbest & Bo & Bc).
  destruct (critique_recorded I Hs Hc) as (Rl & Rf & Ro & Rn).
  pose proof (inv_last I) as Hlast. rewrite Hs in Hlast.
  destruct Hlast as [_ Hbelow].
  destruct H as [(Hge & -> & ->)|(Hb & p & img & Hr & Hgen & -> & ->)].
  - constructor; cbn [loops isSatisfied currentImage bestImage bestScore];
      trace_simpl.
    + exact (inv_loops I).
    + exact (inv_generated I).
    + exact (inv_refinements I).
    + lia.
    + exact (inv_current I).
    + exact (inv_zero I).
    + exact (inv_first I).
    + exact (inv_first_obj I).
    + right. exact Rf.
    + exact Ro.
    + exact Rn.
    + exists t, c. auto.
    + exact Bb.
    + exact Bn.
    + exact Bbest.
    + exact Bo.
    + exact Bc.
    + discriminate.
  - pose proof (inv_generated I) as Gl. pose proof (inv_refinements I) as Fl.
    constructor; cbn [loops isSatisfied currentImage bestImage bestScore obj];
      trace_simpl.
    + lia.
    + lia.
    + lia.
    + rewrite Hs. lia.
    + lia.
    + discriminate.
    + destruct (inv_first I) as [g E]. rewrite E. cbn. eauto.
    + exact (inv_first_obj I).
    + right. exact Rf.
    + exact Ro.
    + exact Rn.
    + rewrite Hs. split.
      * exists (t ++ [Critiqued (currentImage st) c; Refined p]).
        now rewrite <- app_assoc.
      * apply Forall_app. split; [exact Hbelow|]. constructor; [lia|constructor].
    + exact Bb.
    + exact Bn.
    + exact Bbest.
    + lia.
    + intros. lia.
    + intros. lia.
Qed.

Lemma initial_Inv prompt v1 t :
  awaitGenerate env prompt [] = Done v1 t ->
  Inv env v1 (initialState prompt v1) t.
Proof.
  unfold awaitGenerate. cbn.
  destruct (generateAvatarImage env 0 prompt) as [img|e]; [|discriminate].
  intros H. inversion H; subst. clear H.
  constructor; cbn; auto; try lia.
  - eauto.
  - intros [|k] i c; discriminate.
  - split; [now exists []|constructor].
Qed.

Lemma iterations_Inv v1 x y :
  iterations env x y -> Inv env v1 (fst x) (snd x) -> Inv env v1 (fst y) (snd y).
Proof.
  induction 1 as [x|x y z Hxy IH Hyz]; intros I; [exact I|].
  inversion Hyz as [st t st' t' Hg Hb]; subst. cbn in *.
  eapply loopBody_Inv; [apply IH; exact I|exact Hg|exact Hb].
Qed.

Lemma iterations_trans x y z :
  iterations env x y -> iterations env y z -> iterations env x z.
Proof.
  intros Hxy Hyz. induction Hyz as [y|y z w Hyz IH Hzw]; [exact Hxy|].
  eapply iterations_step; [apply IH; exact Hxy|exact Hzw].
Qed.

(** [whileLoop] computes the iterations of the body up to the first
    state in which the guard fails. *)
Lemma whileLoop_Done fuel st t st' t' :
  whileLoop env fuel st t = Done st' t' ->
  iterations env (st, t) (st', t') /\ guard st' = false.
Proof.
  revert st t. induction fuel as [|fuel IH]; intros st t; cbn.
  - destruct (guard st) eqn:Hg; [discriminate|].
    intros H. inversion H; subst. split; [constructor|exact Hg].
  - destruct (guard st) eqn:Hg.
    + destruct (loopBody env st t) as [st1 t1| |] eqn:Hb; try discriminate.
      intros H. apply IH in H. destruct H as [H Hf]. split; [|exact Hf].
      eapply iterations_trans; [|exact H].
      eapply iterations_step; [constructor|]. now constructor.
    + intros H. inversion H; subst. split; [constructor|exact Hg].
Qed.

Lemma loopBody_fuel st t : loopBody env st t <> OutOfFuel.
Proof.
  unfold loopBody, bind, awaitCritique.
  destruct (critiqueGeneratedImage env _ _) as [c|e]; [|discriminate].
  destruct (score c >=? QUALITY_THRESHOLD); [discriminate|].
  unfold awaitRefine.
  destruct (refinePrompt env _ _ _) as [p|e]; [|discriminate].
  unfold awaitGenerate.
  destruct (generateAvatarImage env _ _) as [img|e]; discriminate.
Qed.

Lemma whileLoop_exit fuel st t :
  guard st = false -> whileLoop env fuel st t = Done st t.
Proof. intros Hg. destruct fuel; cbn; now rewrite Hg. Qed.

(** Every pass through the body that does not end the loop increments
    the counter, so [MAX_REFINEMENT_LOOPS] passes are enough. *)
Lemma whileLoop_fuel fuel st t :
  (MAX_REFINEMENT_LOOPS - loops st <= fuel)%nat ->
  whileLoop env fuel st t <> OutOfFuel.
Proof.
  revert st t. induction fuel as [|fuel IH]; intros st t Hf; cbn.
  - destruct (guard st) eqn:Hg; [|discriminate].
    apply guard_true in Hg. lia.
  - destruct (guard st) eqn:Hg; [|discriminate].
    apply guard_true in Hg. destruct Hg as [Hlt Hs].
    destruct (loopBody env st t) as [st1 t1|e t1|] eqn:Hb; try discriminate.
    + apply loopBody_Done in Hb. destruct Hb as (c & _ & Hb). cbn zeta in Hb.
      destruct Hb as [(_ & -> & _)|(_ & p & img & _ & _ & -> & _)].
      * rewrite whileLoop_exit; [discriminate|].
        unfold guard. cbn. apply andb_false_r.
      * apply IH. cbn [loops]. lia.
    + now apply loopBody_fuel in Hb.
Qed.

Lemma critiqueLoop_fuel prompt : critiqueLoop env prompt [] <> OutOfFuel.
Proof.
  unfold critiqueLoop, bind.
  destruct (awaitGenerate env prompt []) as [v1 t|e t|] eqn:Hg; try discriminate.
  - apply whileLoop_fuel. cbn [loops]. lia.
  - unfold awaitGenerate in Hg.
    destruct (generateAvatarImage env _ _); discriminate.
Qed.

(** A run of the loop that comes to its end went through iterations of
    the body from the initial state, and ends where the guard fails with
    the invariant established. *)
Lemma critiqueLoop_Done prompt st t :
  critiqueLoop env prompt [] = Done st t ->
  exists v1 t1,
    awaitGenerate env prompt [] = Done v1 t1 /\
    iterations env (initialState prompt v1, t1) (st, t) /\
    Inv env v1 st t /\ guard st = false.
Proof.
  unfold critiqueLoop, bind.
  destruct (awaitGenerate env prompt []) as [v1 t1|e t1|] eqn:Hg; try discriminate.
  intros H. apply whileLoop_Done in H. destruct H as [Hit Hf].
  exists v1, t1. split; [reflexivity|]. split; [exact Hit|]. split; [|exact Hf].
  exact (iterations_Inv Hit (initial_Inv prompt Hg)).
Qed.

(** ** Runs that are cut short by an exception *)

Lemma loopBody_Thrown st t e t' :
  loopBody env st t = Thrown e t' ->
  scores t' = scores t \/
  exists c, scores t' = scores t ++ [score c] /\ score c < QUALITY_THRESHOLD.
Proof.
  unfold loopBody, bind, awaitCritique.
  destruct (critiqueGeneratedImage env _ _) as [c|e0].
  2:{ intros H. inversion H; subst. now left. }
  destruct (Z.geb_spec (score c) QUALITY_THRESHOLD) as [Hge|Hlt]; [discriminate|].
  unfold awaitRefine.
  destruct (refinePrompt env _ _ _) as [p|e0].
  2:{ intros H. inversion H; subst. right. exists c. trace_simpl. split; [auto|lia]. }
  unfold awaitGenerate.
  destruct (generateAvatarImage env _ _) as [img|e0]; [discriminate|].
  intros H. inversion H; subst. right. exists c. trace_simpl. split; [auto|lia].
Qed.

Lemma whileLoop_Thrown fuel st t e t' :
  whileLoop env fuel st t = Thrown e t' ->
  exists st1 t1,
    iterations env (st, t) (st1, t1) /\ guard st1 = true /\
    loopBody env st1 t1 = Thrown e t'.
Proof.
  revert st t. induction fuel as [|fuel IH]; intros st t; cbn.
  - destruct (guard st); discriminate.
  - destruct (guard st) eqn:Hg; [|discriminate].
    destruct (loopBody env st t) as [st1 t1|e1 t1|] eqn:Hb; try discriminate.
    + intros H. apply IH in H. destruct H as (st2 & t2 & Hit & Hg2 & Hb2).
      exists st2, t2. split; [|auto].
      eapply iterations_trans; [|exact Hit].
      eapply iterations_step; [constructor|]. now constructor.
    + intros H. inversion H; subst. exists st, t. split; [constructor|auto].
Qed.

Lemma critiqueLoop_Thrown prompt e t :
  critiqueLoop env prompt [] = Thrown e t ->
  Forall (fun s => s < QUALITY_THRESHOLD) (scores t).
Proof.
  unfold critiqueLoop, bind.
  destruct (awaitGenerate env prompt []) as [v1 t1|e1 t1|] eqn:Hgen; try discriminate.
  - intros H. apply whileLoop_Thrown in H.
    destruct H as (st1 & t2 & Hit & Hg & Hb).
    pose proof (iterations_Inv Hit (initial_Inv prompt Hgen)) as I. cbn in I.
    apply guard_true in Hg. destruct Hg as [_ Hs].
    pose proof (inv_last I) as Hl. rewrite Hs in Hl. destruct Hl as [_ Hl].
    apply loopBody_Thrown in Hb. destruct Hb as [->|(c & -> & Hc)]; [exact Hl|].
    apply Forall_app. split; [exact Hl|]. constructor; [exact Hc|constructor].
  - unfold awaitGenerate in Hgen.
    destruct (generateAvatarImage env _ _); [discriminate|].
    inversion Hgen; subst. intros H. inversion H; subst. constructor.
Qed.

(** With adapters that never throw the loop runs to its end. *)
Lemma critiqueLoop_returns prompt :
  adaptersSucceed env -> exists st t, critiqueLoop env prompt [] = Done st t.
Proof.
  intros (Hc & Hr & Hg).
  destruct (critiqueLoop env prompt []) as [st t|e t|] eqn:H; [eauto| |].
  - exfalso. unfold critiqueLoop, bind in H.
    destruct (awaitGenerate env prompt []) as [v1 t1|e1 t1|] eqn:Hgen;
      try discriminate.
    + apply whileLoop_Thrown in H. destruct H as (st1 & t2 & _ & _ & Hb).
      unfold loopBody, bind, awaitCritique, awaitRefine, awaitGenerate in Hb.
      destruct (Hc (List.length (critiques t2)) (currentImage st1)) as [c Ec].
      rewrite Ec in Hb.
      destruct (score c >=? QUALITY_THRESHOLD); [discriminate|].
      match type of Hb with
      | context [refinePrompt env ?k ?p ?c] =>
          destruct (Hr k p c) as [p' Ep]; rewrite Ep in Hb
      end.
      match type of Hb with
      | context [generateAvatarImage env ?k ?p] =>
          destruct (Hg k p) as [img Ei]; rewrite Ei in Hb
      end.
      discriminate.
    + unfold awaitGenerate in Hgen. destruct (Hg 0%nat prompt) as [img Ei].
      cbn in Hgen. rewrite Ei in Hgen. discriminate.
  - now apply critiqueLoop_fuel in H.
Qed.

Lemma iteration_bestScore x y :
  iteration env x y -> bestScore (fst x) <= bestScore (fst y).
Proof.
  intros [st t st' t' _ Hb]. cbn.
  apply loopBody_Done in Hb. destruct Hb as (c & _ & Hb). cbn zeta in Hb.
  destruct Hb as [(_ & -> & _)|(_ & p & img & _ & _ & -> & _)]; cbn;
    rewrite trackBest_score; lia.
Qed.

Lemma iterations_bestScore x y :
  iterations env x y -> bestScore (fst x) <= bestScore (fst y).
Proof.
  induction 1 as [x|x y z _ IH Hyz]; [lia|].
  apply iteration_bestScore in Hyz. lia.
Qed.

(** After line 156 the current image is the best one, whether or not the
    restoration branch ran. *)
Lemma restoreBest_current v1 st t :
  Inv env v1 st t ->
  currentImage (restoreBest st) = bestImage st /\
  bestImage (restoreBest st) = bestImage st /\
  bestScore (restoreBest st) = bestScore st /\
  isSatisfied (restoreBest st) = isSatisfied st /\
  loops (restoreBest st) = loops st.
Proof.
  intros I. unfold restoreBest.
  destruct (Nat.eqb_spec (obj (currentImage st)) (obj (bestImage st))) as [E|N]; cbn.
  - repeat split. symmetry. apply (inv_best_current I).
    rewrite <- E. exact (inv_current I).
  - repeat split.
Qed.

End AppProperties.

Section AppClaims.

Import App.
Local Open Scope Z_scope.

Lemma executeGenerationLoop_Done env prompt r t :
  executeGenerationLoop env prompt [] = Done r t ->
  exists st,
    critiqueLoop env prompt [] = Done st t /\
    final r = restoreBest st /\
    generatedImage r = currentImage (restoreBest st) /\
    next r = (if negb (isSatisfied (restoreBest st)) then AWAITING_APPROVAL
              else GENERATING_VIDEO (currentImage (restoreBest st))).
Proof.
  unfold executeGenerationLoop, bind, ret.
  destruct (critiqueLoop env prompt []) as [st t1|e t1|]; try discriminate.
  intros H. inversion H; subst. exists st. cbn. auto.
Qed.

Lemma Forall_Exists_absurd {A} (P Q : A -> Prop) l :
  (forall x, P x -> Q x -> False) -> Forall P l -> Exists Q l -> False.
Proof.
  intros HPQ HF HE. induction HE as [x l Hx|x l _ IH]; inversion HF; subst; eauto.
Qed.

Lemma critiques_nonempty env v1 st t :
  Inv env v1 st t -> guard st = false ->
  exists c r, critiques t = (v1, c) :: r.
Proof.
  intros I Hg. destruct (inv_first_critique I) as [E|H]; [|exact H].
  exfalso. pose proof (inv_critiques I) as Hl. rewrite E in Hl. cbn in Hl.
  apply guard_false in Hg. unfold MAX_REFINEMENT_LOOPS in Hg.
  destruct Hg as [Hg|Hg]; [lia|]. rewrite Hg in Hl. lia.
Qed.

(** C1: whenever a critique score fed to the loop is at least
    QUALITY_THRESHOLD (85, inclusive), the loop has ended in the satisfied
    state at the first critique whose score reached the threshold: every
    earlier score is below it, that critique is the last provider call of
    the loop, so no image is generated after it, and every generated image
    has been critiqued. *)
Theorem threshold_score_ends_loop (env : Env) (prompt : string) (t : Trace) :
  outcomeTrace (critiqueLoop env prompt []) = Some t ->
  Exists (fun s => QUALITY_THRESHOLD <= s) (scores t) ->
  exists st t0 c,
    critiqueLoop env prompt [] = Done st t /\
    isSatisfied st = true /\
    t = t0 ++ [Critiqued (currentImage st) c] /\
    QUALITY_THRESHOLD <= score c /\
    Forall (fun s => s < QUALITY_THRESHOLD) (scores t0) /\
    generated t = generated t0 /\
    List.length (generated t) = List.length (critiques t).
Proof.
  intros Ht Hex.
  destruct (critiqueLoop env prompt []) as [st t1|e t1|] eqn:Hrun; cbn in Ht;
    [ |exfalso|discriminate]; inversion Ht; subst t1; clear Ht.
  - destruct (critiqueLoop_Done _ _ Hrun) as (v1 & t1 & _ & _ & I & _).
    pose proof (inv_last I) as Hl.
    destruct (isSatisfied st) eqn:Hs.
    + destruct Hl as (t0 & c & -> & Hc & Hb).
      exists st, t0, c. repeat split; auto.
      * rewrite generated_app. cbn. now rewrite app_nil_r.
      * rewrite (inv_generated I), (inv_critiques I), Hs. lia.
    + exfalso. destruct Hl as [_ Hl].
      eapply Forall_Exists_absurd; [|exact Hl|exact Hex]. cbn. intros; lia.
  - apply critiqueLoop_Thrown in Hrun.
    eapply Forall_Exists_absurd; [|exact Hrun|exact Hex]. cbn. intros; lia.
Qed.

(** C2: for critique scores in 0-100, the best score when the loop has
    ended is the maximum of the scores of all critique calls (it is one of
    them and none is greater), the first of which is the critique of the
    initial image V1; and from one pass of the loop to any later one the
    best score never decreases. *)
Theorem bestScore_is_maximum (env : Env) (prompt : string) st t :
  critiqueLoop env prompt [] = Done st t ->
  Forall validScore (scores t) ->
  (exists v1 g c r, generated t = v1 :: g /\ critiques t = (v1, c) :: r) /\
  In (bestScore st) (scores t) /\
  Forall (fun s => s <= bestScore st) (scores t) /\
  (forall v1 t1 x y,
     awaitGenerate env prompt [] = Done v1 t1 ->
     iterations env (initialState prompt v1, t1) x ->
     iterations env x y ->
     bestScore (fst x) <= bestScore (fst y)).
Proof.
  intros Hrun Hv.
  destruct (critiqueLoop_Done _ _ Hrun) as (v1 & t1 & _ & _ & I & Hg).
  destruct (critiques_nonempty I Hg) as (c0 & r0 & E0).
  destruct (inv_first I) as [g Eg].
  split; [now exists v1, g, c0, r0|].
  split; [|split; [exact (inv_best_bound I)|]].
  - destruct (inv_best I) as [[Hz _]|(r1 & c & r2 & E & Hc & _)].
    + pose proof (inv_best_bound I) as Hb.
      unfold scores in *. rewrite E0 in *. cbn in *.
      inversion Hv as [|? ? [H0 _] _]; subst. inversion Hb; subst.
      left. lia.
    + unfold scores. rewrite E, map_app, <- Hc. apply in_or_app. right. now left.
  - intros v t2 x y _ _ Hxy. exact (iterations_bestScore Hxy).
Qed.

(** C3: when the loop runs out of iterations with every critique score
    (each in 0-100) below the threshold, the image handed over for
    approval is the best image: its recorded score is the highest of all,
    and every image critiqued before it scored strictly less (the earliest
    maximum wins, the comparison of line 121 being strict); after the
    restoration step the current image is the best image of the loop. *)
Theorem exhausted_loop_returns_earliest_best (env : Env) (prompt : string) r t :
  executeGenerationLoop env prompt [] = Done r t ->
  Forall (fun s => s < QUALITY_THRESHOLD) (scores t) ->
  Forall validScore (scores t) ->
  isSatisfied (final r) = false /\
  loops (final r) = MAX_REFINEMENT_LOOPS /\
  next r = AWAITING_APPROVAL /\
  (exists r1 c r2,
     critiques t = r1 ++ (generatedImage r, c) :: r2 /\
     Forall (fun p => score (snd p) < score c) r1 /\
     Forall (fun p => score (snd p) <= score c) (critiques t)) /\
  (exists st,
     critiqueLoop env prompt [] = Done st t /\
     final r = restoreBest st /\
     generatedImage r = bestImage st /\
     currentImage (restoreBest st) = bestImage st).
Proof.
  intros Hrun Hlow Hv.
  destruct (executeGenerationLoop_Done _ _ Hrun) as (st & Hloop & Hf & Hi & Hn).
  destruct (critiqueLoop_Done _ _ Hloop) as (v1 & t1 & _ & _ & I & Hg).
  destruct (restoreBest_current I) as (Rc & Rb & Rs & Rsat & Rl).
  assert (Hs : isSatisfied st = false).
  { destruct (isSatisfied st) eqn:Hs; [|reflexivity]. exfalso.
    pose proof (inv_last I) as Hl. rewrite Hs in Hl.
    destruct Hl as (t0 & c & -> & Hc & _).
    rewrite scores_app in Hlow. apply Forall_app in Hlow.
    destruct Hlow as [_ Hlow]. inversion Hlow; subst. cbn in *. lia. }
  rewrite Hf, Hi, Hn, Rc, Rsat, Rl, Hs. cbn.
  split; [reflexivity|]. split.
  { apply guard_false in Hg. pose proof (inv_loops I).
    destruct Hg as [Hg|Hg]; [lia|congruence]. }
  split; [reflexivity|]. split; [|exists st; auto].
  pose proof (inv_best_bound I) as Hb.
  unfold scores in Hb, Hv. rewrite Forall_map in Hb, Hv.
  destruct (inv_best I) as [[Hz Hb1]|(r1 & c & r2 & E & Hc & _ & Hr1)].
  - destruct (critiques_nonempty I Hg) as (c0 & r0 & E0).
    rewrite Hb1. exists [], c0, r0. split; [exact E0|]. split; [constructor|].
    rewrite E0 in Hv. inversion Hv as [|? ? [H0 _] _]; subst. cbn in H0.
    eapply Forall_impl; [|exact Hb]. cbn. intros; lia.
  - exists r1, c, r2. rewrite Hc. auto.
Qed.

(** C5: when the loop ends by exhaustion (the satisfied flag is unset),
    it has generated one image more than it has critiqued; the image of
    the last refine+regenerate cycle was never critiqued and is not the
    image returned: restoration puts an earlier, critiqued image in its
    place, and that is V1 when no critique score exceeded 0. *)
Theorem exhausted_loop_discards_last_image (env : Env) (prompt : string) r t :
  executeGenerationLoop env prompt [] = Done r t ->
  isSatisfied (final r) = false ->
  exists st v1 g,
    critiqueLoop env prompt [] = Done st t /\
    final r = restoreBest st /\
    loops st = MAX_REFINEMENT_LOOPS /\
    generated t = v1 :: g /\
    List.length (generated t) = S (List.length (critiques t)) /\
    (exists t0, t = t0 ++ [Generated (currentImage st)]) /\
    ~ In (currentImage st) (map fst (critiques t)) /\
    generatedImage r <> currentImage st /\
    generatedImage r = bestImage st /\
    In (generatedImage r) (map fst (critiques t)) /\
    (obj (generatedImage r) < obj (currentImage st))%nat /\
    (Forall (fun s => s <= 0) (scores t) -> generatedImage r = v1).
Proof.
  intros Hrun Hsat.
  destruct (executeGenerationLoop_Done _ _ Hrun) as (st & Hloop & Hf & Hi & _).
  destruct (critiqueLoop_Done _ _ Hloop) as (v1 & t1 & _ & _ & I & Hg).
  destruct (restoreBest_current I) as (Rc & _ & _ & Rsat & _).
  rewrite Hf, Rsat in Hsat. rewrite Hi, Rc.
  assert (Hmax : loops st = MAX_REFINEMENT_LOOPS).
  { apply guard_false in Hg. pose proof (inv_loops I).
    destruct Hg as [Hg|Hg]; [lia|congruence]. }
  assert (Hpos : (0 < loops st)%nat) by (rewrite Hmax; unfold MAX_REFINEMENT_LOOPS; lia).
  pose proof (inv_best_older I Hsat Hpos) as Hold.
  pose proof (inv_critiques I) as Hcl. rewrite Hsat, Nat.add_0_r in Hcl.
  pose proof (inv_last I) as Hl. rewrite Hsat in Hl. destruct Hl as [Hl _].
  destruct (inv_first I) as [g Eg].
  exists st, v1, g. repeat split; auto.
  - rewrite (inv_generated I), Hcl. reflexivity.
  - intros Hin. apply in_map_iff in Hin. destruct Hin as (p & Hp & Hin).
    pose proof (inv_critiqued I) as Hc. rewrite Forall_forall in Hc.
    specialize (Hc p Hin). rewrite Hp, (inv_current I), Hcl in Hc. lia.
  - intros E. rewrite E, (inv_current I) in Hold. lia.
  - destruct (inv_best I) as [[_ Hb1]|(r1 & c & r2 & E & _)].
    + destruct (critiques_nonempty I Hg) as (c0 & r0 & E0).
      rewrite Hb1, E0. now left.
    + rewrite E, map_app. apply in_or_app. right. now left.
  - rewrite (inv_current I). exact Hold.
  - intros Hz. destruct (inv_best I) as [[_ Hb1]|(r1 & c & r2 & E & Hc & Hp & _)];
      [exact Hb1|exfalso].
    unfold scores in Hz. rewrite E, map_app, Forall_app in Hz.
    destruct Hz as [_ Hz]. inversion Hz; subst. cbn in *. lia.
Qed.

(** C6: in every state the loop passes through the iteration counter is
    at most MAX_REFINEMENT_LOOPS (3) and counts the refine+regenerate
    cycles performed so far (one prompt refinement and one regeneration
    each, after V1); the body runs only from states in which the counter
    is strictly below the maximum and the satisfied flag is unset, and
    from a state in which the counter has reached the maximum or the
    flag is set the loop leaves at once, with no further provider call;
    and the loop always comes to an end within its fuel. *)
Theorem loop_counter_bounded (env : Env) (prompt : string) v1 t1 st t :
  awaitGenerate env prompt [] = Done v1 t1 ->
  iterations env (initialState prompt v1, t1) (st, t) ->
  (loops st <= MAX_REFINEMENT_LOOPS)%nat /\
  MAX_REFINEMENT_LOOPS = 3%nat /\
  List.length (refinements t) = loops st /\
  List.length (generated t) = S (loops st) /\
  (forall y, iteration env (st, t) y ->
             (loops st < MAX_REFINEMENT_LOOPS)%nat /\ isSatisfied st = false) /\
  ((MAX_REFINEMENT_LOOPS <= loops st)%nat \/ isSatisfied st = true ->
   forall fuel, whileLoop env fuel st t = Done st t) /\
  critiqueLoop env prompt [] <> OutOfFuel /\
  (forall st' t', critiqueLoop env prompt [] = Done st' t' ->
                  iterations env (initialState prompt v1, t1) (st', t') /\
                  guard st' = false /\
                  (List.length (refinements t') <= MAX_REFINEMENT_LOOPS)%nat).
Proof.
  intros Hgen Hit.
  pose proof (iterations_Inv Hit (initial_Inv env prompt Hgen)) as I. cbn in I.
  split; [exact (inv_loops I)|]. split; [reflexivity|].
  split; [exact (inv_refinements I)|]. split; [exact (inv_generated I)|].
  split; [|split; [|split; [apply critiqueLoop_fuel|]]].
  - intros y Hy. inversion Hy; subst. now apply guard_true.
  - intros Hstop fuel.
    assert (Hg : guard st = false).
    { unfold guard. destruct Hstop as [Hl|Hs].
      - apply Nat.ltb_ge in Hl. now rewrite Hl.
      - rewrite Hs. apply andb_false_r. }
    destruct fuel; cbn [whileLoop]; now rewrite Hg.
  - intros st' t' Hrun.
    destruct (critiqueLoop_Done _ _ Hrun) as (v & t2 & Hgen' & Hit' & I' & Hg').
    rewrite Hgen in Hgen'. inversion Hgen'; subst.
    repeat split; auto. rewrite (inv_refinements I'). exact (inv_loops I').
Qed.

(** C4 as stated fails: with the critic script 80, 95, 70 the second
    score already reaches the threshold, so no third image is generated
    and the restoration step has nothing to restore. *)
Lemma scenario_80_95_70_has_no_third_image :
  ~ thirdImageScenario (scripted [80; 95; 70]) "".
Proof.
  intros (r & st & t & c & Hrun & _ & _ & _ & _ & Hgen & _).
  vm_compute in Hrun. inversion Hrun; subst. cbn in Hgen. lia.
Qed.

(** C4 (amended): when the critic returns 80 and then 95 (a third score
    70 being scripted but never asked for) and no adapter throws, the
    loop ends satisfied after the second critique: the scores fed to it
    are 80 and 95, two images have been generated, the best image is the
    second one (score 95) and is the current one, so the restoration step
    changes nothing, and that image goes on to video generation. *)
Theorem scenario_80_95_70 (env : Env) (prompt : string) :
  adaptersSucceed env ->
  criticReturns env [80; 95; 70] ->
  exists r st t c,
    executeGenerationLoop env prompt [] = Done r t /\
    critiqueLoop env prompt [] = Done st t /\
    scores t = [80; 95] /\
    isSatisfied st = true /\
    nth_error (critiques t) 1 = Some (bestImage st, c) /\ score c = 95 /\
    bestScore st = 95 /\
    obj (bestImage st) = 1%nat /\
    List.length (generated t) = 2%nat /\
    currentImage st = bestImage st /\
    restoreBest st = st /\
    generatedImage r = bestImage st /\
    next r = GENERATING_VIDEO (bestImage st).
Proof.
  intros (_ & Hr & Hg) Hc.
  destruct (Hg 0%nat prompt) as [img0 E0].
  destruct (Hc 0%nat 80 eq_refl (mkRef 0 img0)) as ([s0 f0 g0] & Ec0 & Hs0).
  cbn in Hs0. subst s0.
  destruct (Hr 0%nat prompt (mkCritique 80 f0 g0)) as [p1 Er].
  destruct (Hg 1%nat p1) as [img1 E1].
  destruct (Hc 1%nat 95 eq_refl (mkRef 1 img1)) as ([s1 f1 g1] & Ec1 & Hs1).
  cbn in Hs1. subst s1.
  assert (Hloop : critiqueLoop env prompt [] =
    Done (mkState p1 (mkRef 1 img1) 1 (mkRef 1 img1) 95 true)
         [Generated (mkRef 0 img0); Critiqued (mkRef 0 img0) (mkCritique 80 f0 g0);
          Refined p1; Generated (mkRef 1 img1);
          Critiqued (mkRef 1 img1) (mkCritique 95 f1 g1)]).
  { unfold critiqueLoop, bind, awaitGenerate. cbn. rewrite E0. cbn.
    unfold loopBody, bind, awaitCritique. cbn. rewrite Ec0. cbn.
    unfold awaitRefine. cbn. rewrite Er. cbn.
    unfold awaitGenerate. cbn. rewrite E1. cbn.
    unfold loopBody, bind, awaitCritique. cbn. rewrite Ec1. cbn.
    reflexivity. }
  eexists _, _, _, (mkCritique 95 f1 g1).
  split; [unfold executeGenerationLoop, bind; rewrite Hloop; reflexivity|].
  split; [exact Hloop|]. cbn. repeat split; reflexivity.
Qed.

(** ** The theorems at concrete runs *)

(** A score the critic would give at a fourth critique is never asked
    for: the loop is over after three. *)
Example late_score_never_requested :
  exists st t,
    critiqueLoop (scripted [10; 10; 10; 90]) "hacker" [] = Done st t /\
    scores t = [10; 10; 10] /\ isSatisfied st = false.
Proof. eexists _, _. split; [vm_compute; reflexivity|]. split; reflexivity. Qed.

Lemma scripted_succeeds l : adaptersSucceed (scripted l).
Proof. repeat split; intros; eexists; reflexivity. Qed.

Lemma scripted_returns l : criticReturns (scripted l) l.
Proof.
  intros k s Hk i. eexists. split; [reflexivity|]. cbn.
  now apply nth_error_nth.
Qed.

Ltac concrete_list :=
  match goal with
  | |- Forall ?P ?l => let l' := eval vm_compute in l in change (Forall P l')
  | |- Exists ?P ?l => let l' := eval vm_compute in l in change (Exists P l')
  end.

Ltac concrete_Forall :=
  concrete_list;
  repeat (apply Forall_cons; [unfold validScore, QUALITY_THRESHOLD; lia|]);
  apply Forall_nil.

Ltac concrete_Exists :=
  concrete_list;
  repeat first [ apply Exists_cons_hd; unfold QUALITY_THRESHOLD; lia
               | apply Exists_cons_tl ].

Lemma threshold_score_ends_loop_witness :
  let run := critiqueLoop (scripted [60; 72; 90]) "hacker" [] in
  outcomeTrace run = Some (runTrace run) /\
  Exists (fun s => QUALITY_THRESHOLD <= s) (scores (runTrace run)) /\
  exists st t0 c,
    run = Done st (runTrace run) /\
    isSatisfied st = true /\
    runTrace run = t0 ++ [Critiqued (currentImage st) c] /\
    QUALITY_THRESHOLD <= score c /\
    Forall (fun s => s < QUALITY_THRESHOLD) (scores t0) /\
    generated (runTrace run) = generated t0 /\
    List.length (generated (runTrace run)) = List.length (critiques (runTrace run)).
Proof.
  cbv zeta. split; [vm_compute; reflexivity|]. split; [concrete_Exists|].
  apply (@threshold_score_ends_loop (scripted [60; 72; 90]) "hacker");
    [vm_compute; reflexivity|concrete_Exists].
Defined.

Lemma bestScore_is_maximum_witness :
  exists st t,
    critiqueLoop (scripted [40; 50; 60]) "hacker" [] = Done st t /\
    Forall validScore (scores t) /\
    In (bestScore st) (scores t) /\
    Forall (fun s => s <= bestScore st) (scores t).
Proof.
  eexists _, _. split; [vm_compute; reflexivity|].
  split; [concrete_Forall|].
  match goal with
  | |- In (bestScore ?st) (scores ?t) /\ _ =>
      destruct (@bestScore_is_maximum (scripted [40; 50; 60]) "hacker" st t)
        as (_ & H1 & H2 & _);
      [vm_compute; reflexivity|concrete_Forall|split; assumption]
  end.
Defined.

Lemma exhausted_loop_returns_earliest_best_witness :
  exists r t,
    executeGenerationLoop (scripted [70; 70; 60]) "hacker" [] = Done r t /\
    Forall (fun s => s < QUALITY_THRESHOLD) (scores t) /\
    Forall validScore (scores t) /\
    obj (generatedImage r) = 0%nat /\
    next r = AWAITING_APPROVAL.
Proof.
  eexists _, _. split; [vm_compute; reflexivity|].
  split; [concrete_Forall|]. split; [concrete_Forall|].
  split; [reflexivity|].
  match goal with
  | |- next ?r = _ =>
      assert (Hrun : executeGenerationLoop (scripted [70; 70; 60]) "hacker" [] =
                     Done r (runTrace (executeGenerationLoop
                                         (scripted [70; 70; 60]) "hacker" [])))
        by (vm_compute; reflexivity);
      destruct (exhausted_loop_returns_earliest_best _ _ Hrun)
        as (_ & _ & H & _); [concrete_Forall|concrete_Forall|exact H]
  end.
Defined.

Lemma scenario_80_95_70_witness :
  adaptersSucceed (scripted [80; 95; 70]) /\
  criticReturns (scripted [80; 95; 70]) [80; 95; 70] /\
  exists r st t,
    executeGenerationLoop (scripted [80; 95; 70]) "hacker" [] = Done r t /\
    critiqueLoop (scripted [80; 95; 70]) "hacker" [] = Done st t /\
    scores t = [80; 95] /\
    List.length (generated t) = 2%nat /\
    next r = GENERATING_VIDEO (bestImage st).
Proof.
  split; [apply scripted_succeeds|]. split; [apply scripted_returns|].
  destruct (@scenario_80_95_70 (scripted [80; 95; 70]) "hacker"
              (scripted_succeeds _) (scripted_returns _))
    as (r & st & t & c & H1 & H2 & H3 & _ & _ & _ & _ & _ & H4 & _ & _ & _ & H5).
  exists r, st, t. auto.
Defined.

Lemma exhausted_loop_discards_last_image_witness :
  exists r t,
    executeGenerationLoop (scripted [40; 50; 60]) "hacker" [] = Done r t /\
    isSatisfied (final r) = false /\
    List.length (generated t) = 4%nat /\
    List.length (critiques t) = 3%nat /\
    obj (generatedImage r) = 2%nat /\
    exists st, critiqueLoop (scripted [40; 50; 60]) "hacker" [] = Done st t /\
               generatedImage r <> currentImage st.
Proof.
  eexists _, _. split; [vm_compute; reflexivity|].
  repeat (split; [reflexivity|]).
  match goal with
  | |- exists st, critiqueLoop _ _ _ = Done st ?t /\ generatedImage ?r <> _ =>
      assert (Hrun : executeGenerationLoop (scripted [40; 50; 60]) "hacker" [] =
                     Done r t) by (vm_compute; reflexivity);
      assert (Hsat : isSatisfied (final r) = false) by reflexivity;
      destruct (exhausted_loop_discards_last_image _ _ Hrun Hsat)
        as (st & v1 & g & H1 & _ & _ & _ & _ & _ & _ & H2 & _);
      exists st; split; [exact H1|exact H2]
  end.
Defined.

Lemma loop_counter_bounded_witness :
  exists st t,
    critiqueLoop (scripted [40; 50; 60]) "hacker" [] = Done st t /\
    loops st = 3%nat /\
    (loops st <= MAX_REFINEMENT_LOOPS)%nat /\
    List.length (refinements t) = loops st /\
    List.length (generated t) = S (loops st) /\
    (forall fuel, whileLoop (scripted [40; 50; 60]) fuel st t = Done st t).
Proof.
  eexists _, _. split; [vm_compute; reflexivity|]. split; [reflexivity|].
  match goal with
  | |- (loops ?st <= _)%nat /\ List.length (refinements ?t) = _ /\ _ =>
      assert (Hrun : critiqueLoop (scripted [40; 50; 60]) "hacker" [] = Done st t)
        by (vm_compute; reflexivity);
      destruct (critiqueLoop_Done _ _ Hrun) as (v1 & t1 & Hgen & Hit & _);
      destruct (@loop_counter_bounded _ _ _ _ _ _ Hgen Hit) as (H1 & _ & H2 & H3 & _ & H4 & _)
  end.
  split; [exact H1|]. split; [exact H2|]. split; [exact H3|].
  apply H4. left. unfold MAX_REFINEMENT_LOOPS. cbn. lia.
Defined.

End AppClaims.

(** * Properties of the Gemini adapters *)

Section GeminiProperties.

Import GeminiService.
Local Open Scope Z_scope.

(** ** White space *)

Lemma dropWhile_nil {A} (f : A -> bool) l : Js.dropWhile f l = [] <-> forallb f l = true.
Proof.
  induction l as [|x l IH]; cbn; [tauto|].
  destruct (f x); cbn; [exact IH|]. split; discriminate.
Qed.

Lemma dropWhile_head {A} (f : A -> bool) l x r : Js.dropWhile f l = x :: r -> f x = false.
Proof.
  induction l as [|y l IH]; cbn; [discriminate|].
  destruct (f y) eqn:Hy; [exact IH|]. intros H. inversion H; subst. exact Hy.
Qed.

Lemma dropWhile_split {A} (f : A -> bool) l :
  exists p, l = p ++ Js.dropWhile f l /\ forallb f p = true.
Proof.
  induction l as [|x l (p & Hl & Hp)]; cbn; [now exists []|].
  destruct (f x) eqn:Hx.
  - exists (x :: p). cbn. rewrite Hx, Hp. split; [now rewrite <- Hl|reflexivity].
  - now exists [].
Qed.

Lemma dropWhile_incl {A} (f : A -> bool) l x : In x (Js.dropWhile f l) -> In x l.
Proof.
  destruct (dropWhile_split f l) as (p & Hl & _). intros H.
  rewrite Hl. apply in_or_app. now right.
Qed.

Lemma chars_nonempty s : Forall (fun g => g <> "") (Js.chars s).
Proof.
  induction s as [|c s IH]; cbn; [constructor|].
  destruct (Js.chars s) as [|g gs]; [repeat constructor; discriminate|].
  inversion IH; subst.
  destruct (Js.continues g); repeat constructor; try discriminate; assumption.
Qed.

Lemma join_chars s : Js.join (Js.chars s) = s.
Proof.
  induction s as [|c s IH]; [reflexivity|]. cbn [Js.chars].
  destruct (Js.chars s) as [|g gs]; cbn in *; [now rewrite <- IH|].
  destruct (Js.continues g); cbn; now rewrite <- IH.
Qed.

Lemma join_empty l : Forall (fun g => g <> "") l -> Js.join l = "" -> l = [].
Proof.
  destruct l as [|g l]; [reflexivity|]. intros H. inversion H; subst. cbn.
  destruct g; [contradiction|discriminate].
Qed.

(** The characters [trim] keeps. *)
Lemma trim_chars s :
  exists l m r,
    Js.chars s = l ++ m ++ r /\ Js.trim s = Js.join m /\
    forallb Js.isWhiteSpace l = true /\ forallb Js.isWhiteSpace r = true /\
    (forall ch, hd_error m = Some ch -> Js.isWhiteSpace ch = false) /\
    (forall ch, hd_error (rev m) = Some ch -> Js.isWhiteSpace ch = false).
Proof.
  unfold Js.trim.
  destruct (dropWhile_split Js.isWhiteSpace (Js.chars s)) as (l & Hl & Hlw).
  set (x := Js.dropWhile Js.isWhiteSpace (Js.chars s)) in *.
  destruct (dropWhile_split Js.isWhiteSpace (rev x)) as (q & Hq & Hqw).
  set (y := Js.dropWhile Js.isWhiteSpace (rev x)) in *.
  assert (Hx : x = rev y ++ rev q).
  { rewrite <- rev_app_distr, <- Hq. now rewrite rev_involutive. }
  exists l, (rev y), (rev q). split; [now rewrite <- Hx|]. split; [reflexivity|].
  split; [exact Hlw|]. split; [|split].
  - rewrite forallb_forall in *. intros g Hg. apply Hqw. now apply in_rev.
  - intros ch Hch. destruct (rev y) as [|g m] eqn:E; [discriminate|].
    inversion Hch; subst. cbn in Hx.
    exact (dropWhile_head Js.isWhiteSpace (Js.chars s) Hx).
  - intros ch. rewrite rev_involutive. destruct y as [|g m] eqn:E; [discriminate|].
    intros Hch. inversion Hch; subst.
    exact (dropWhile_head Js.isWhiteSpace (rev x) E).
Qed.

Lemma trim_blank s : Js.trim s = "" <-> Js.blank s = true.
Proof.
  unfold Js.blank. split.
  - intros H. destruct (trim_chars s) as (l & m & r & Hs & Ht & Hl & Hr & Hh & _).
    rewrite Ht in H. apply join_empty in H.
    + subst m. rewrite Hs. cbn. rewrite forallb_app, Hl, Hr. reflexivity.
    + pose proof (chars_nonempty s) as Hn. rewrite Hs in Hn.
      apply Forall_app in Hn. destruct Hn as [_ Hn].
      apply Forall_app in Hn. tauto.
  - intros H. unfold Js.trim. apply dropWhile_nil in H. rewrite H. reflexivity.
Qed.

(** ** [optimizePrompt] and [generateAvatarImage] *)

(** C9 as stated fails: when the provider returns empty text the
    operation does not fail, it returns. *)
Lemma optimizePrompt_empty_text_does_not_fail :
  ~ exists e, optimizePrompt emptyTextProvider "Nova" "hacker" "" "" STUDIO None
              = Throw e.
Proof. intros [e H]. discriminate H. Qed.

(** C9 (amended): whatever the arguments, when the provider returns a
    response without text, or with text that is empty or only white
    space, [optimizePrompt] returns the empty string; it throws exactly
    when the provider call itself throws, and then the same value. *)
Theorem optimizePrompt_empty_text (generateContent : Provider)
    (name description style scenario : string) (backgroundMode : BackgroundMode)
    (userImageBase64 : option string) :
  let request := optimizePromptRequest name description style scenario
                                       backgroundMode userImageBase64 in
  let outcome := optimizePrompt generateContent name description style scenario
                                backgroundMode userImageBase64 in
  (forall response,
     generateContent request = Ok response ->
     text response = None \/
     (exists t, text response = Some t /\ Js.blank t = true) ->
     outcome = Ok "") /\
  (forall e, outcome = Throw e <-> generateContent request = Throw e).
Proof.
  cbv zeta. unfold optimizePrompt. split.
  - intros response -> [->|(t & -> & Hb)]; [reflexivity|].
    apply trim_blank in Hb. now rewrite Hb.
  - intros e. destruct (generateContent _) as [response|e'].
    + split; discriminate.
    + split; intros H; inversion H; reflexivity.
Qed.

Lemma optimizePrompt_empty_text_witness :
  optimizePrompt emptyTextProvider "Nova" "hacker" "" "" STUDIO None = Ok "".
Proof.
  apply (proj1 (optimizePrompt_empty_text emptyTextProvider
                  "Nova" "hacker" "" "" STUDIO None) (mkResponse (Some "") []));
    [reflexivity|].
  right. exists "". split; reflexivity.
Defined.

(** C10 as stated fails: the aspect ratio the adapter asks for is not a
    square one. *)
Lemma generateAvatarImage_aspect_ratio_not_square :
  ~ forall prompt reference,
      exists c, imageConfig (generateAvatarImageRequest prompt reference) = Some c /\
                squareAspectRatio (aspectRatio c) = true.
Proof.
  intros H. destruct (H "" None) as (c & Hc & Hs).
  inversion Hc; subst. discriminate Hs.
Qed.

(** C10 (amended): every call of [generateAvatarImage] sends the provider
    one request whose image configuration is the aspect ratio 16:9, which
    is not square, and the size tier 2K, whatever the prompt and the
    reference image; the answer to that request decides the outcome.  The
    square ratio 1:1, with the same tier, is the configuration of the
    variant of the adapter that feeds the 3D pipeline. *)
Theorem generateAvatarImage_fixed_configuration
    (optimizedPrompt : string) (referenceImageBase64 : option string) :
  imageConfig (generateAvatarImageRequest optimizedPrompt referenceImageBase64)
    = Some (mkImageConfig "16:9" "2K") /\
  squareAspectRatio "16:9" = false /\
  (forall p1 p2 : Provider,
     p1 (generateAvatarImageRequest optimizedPrompt referenceImageBase64)
       = p2 (generateAvatarImageRequest optimizedPrompt referenceImageBase64) ->
     generateAvatarImage p1 optimizedPrompt referenceImageBase64
       = generateAvatarImage p2 optimizedPrompt referenceImageBase64) /\
  squareAspectRatio (aspectRatio imageConfigFor3D) = true /\
  imageSize imageConfigFor3D = "2K".
Proof.
  repeat split. intros p1 p2 H. unfold generateAvatarImage. now rewrite H.
Qed.

(** ** The retry loop of [generateAvatarVideo] *)

Lemma pollOperation_slept operation answers slept r slept' :
  pollOperation operation answers slept = Some (r, slept') ->
  exists n, slept' = slept ++ repeat pollDelayMs n.
Proof.
  revert operation slept. induction answers as [|a answers IH]; intros op slept; cbn.
  - destruct (done op); [|discriminate].
    intros H. inversion H; subst. exists 0%nat. cbn. now rewrite app_nil_r.
  - destruct (done op).
    + intros H. inversion H; subst. exists 0%nat. cbn. now rewrite app_nil_r.
    + destruct a as [op'|e].
      * destruct (stateFailed op').
        -- intros H. inversion H; subst. now exists 1%nat.
        -- intros H. apply IH in H. destruct H as [n ->].
           exists (S n). now rewrite <- app_assoc.
      * intros H. inversion H; subst. now exists 1%nat.
Qed.

(** Inside an attempt the code sleeps only between polls, 5000 ms each
    time. *)
Lemma runAttempt_slept a r d :
  runAttempt a = Some (r, d) -> exists n, d = repeat pollDelayMs n.
Proof.
  unfold runAttempt. destruct (start a) as [op|e].
  - destruct (pollOperation op (polls a) []) as [[[op'|e] slept]|] eqn:Hp;
      [| |discriminate]; apply pollOperation_slept in Hp; destruct Hp as [n Hn];
      cbn in Hn; subst slept.
    + destruct (operationError op'); [|destruct (Js.truthy (uri op'))];
        intros H; inversion H; subst; now exists n.
    + intros H; inversion H; subst; now exists n.
  - intros H. inversion H; subst. now exists 0%nat.
Qed.

Lemma retryDelays_app l1 l2 : retryDelays (l1 ++ l2) = retryDelays l1 ++ retryDelays l2.
Proof. apply filter_app. Qed.

Lemma retryDelays_polls n : retryDelays (repeat pollDelayMs n) = [].
Proof. induction n as [|n IH]; cbn; [reflexivity|exact IH]. Qed.

Lemma retryDelays_attempt a r d : runAttempt a = Some (r, d) -> retryDelays d = [].
Proof.
  intros H. apply runAttempt_slept in H. destruct H as [n ->].
  apply retryDelays_polls.
Qed.

(** C7: when the first two attempts fail with errors whose message is
    classified as internal/server and the third succeeds, the operation
    returns the link of the third attempt after three calls, and the
    delays between attempts are exactly two, of baseDelayMs (4000 ms)
    each, one after each failure (an attempt itself sleeps only between
    its polls); when the first attempt fails with any other error there
    is no second attempt, nothing is slept after the failure and that
    error is thrown; and when all three attempts fail the error of the
    third is thrown, with no delay after it. *)
Theorem retry_policy (generateVideos : VideoProvider)
    (backgroundMode : BackgroundMode) (scenario : string) :
  let attempt n := runAttempt (generateVideos n (videoPrompt backgroundMode scenario)) in
  let run := generateAvatarVideo generateVideos backgroundMode scenario in
  (forall e1 d1 e2 d2 link d3,
     attempt 1%nat = Some (Throw e1, d1) -> isInternalError e1 = true ->
     attempt 2%nat = Some (Throw e2, d2) -> isInternalError e2 = true ->
     attempt 3%nat = Some (Ok link, d3) ->
     run = Some (mkRun (Ok link) (d1 ++ [baseDelayMs] ++ d2 ++ [baseDelayMs] ++ d3) 3) /\
     retryDelays (d1 ++ [baseDelayMs] ++ d2 ++ [baseDelayMs] ++ d3)
       = [baseDelayMs; baseDelayMs] /\
     baseDelayMs = 4000) /\
  (forall e1 d1,
     attempt 1%nat = Some (Throw e1, d1) -> isInternalError e1 = false ->
     run = Some (mkRun (Throw e1) d1 1) /\ retryDelays d1 = []) /\
  (forall e1 d1 e2 d2 e3 d3,
     attempt 1%nat = Some (Throw e1, d1) -> isInternalError e1 = true ->
     attempt 2%nat = Some (Throw e2, d2) -> isInternalError e2 = true ->
     attempt 3%nat = Some (Throw e3, d3) ->
     run = Some (mkRun (Throw e3) (d1 ++ [baseDelayMs] ++ d2 ++ [baseDelayMs] ++ d3) 3)).
Proof.
  cbv zeta. unfold generateAvatarVideo, MAX_RETRIES. split; [|split].
  - intros e1 d1 e2 d2 link d3 H1 I1 H2 I2 H3. split; [|split; [|reflexivity]].
    + cbn [retryLoop Nat.leb Nat.ltb andb]. rewrite H1, I1. cbn [andb].
      cbn [retryLoop Nat.leb Nat.ltb andb]. rewrite H2, I2. cbn [andb].
      cbn [retryLoop Nat.leb Nat.ltb andb]. rewrite H3.
      cbn [app]. now rewrite <- !app_assoc.
    + rewrite !retryDelays_app, (retryDelays_attempt _ H1),
        (retryDelays_attempt _ H2), (retryDelays_attempt _ H3). reflexivity.
  - intros e1 d1 H1 I1. split; [|exact (retryDelays_attempt _ H1)].
    cbn [retryLoop Nat.leb Nat.ltb andb]. rewrite H1, I1. cbn [andb]. reflexivity.
  - intros e1 d1 e2 d2 e3 d3 H1 I1 H2 I2 H3.
    cbn [retryLoop Nat.leb Nat.ltb andb]. rewrite H1, I1. cbn [andb].
    cbn [retryLoop Nat.leb Nat.ltb andb]. rewrite H2, I2. cbn [andb].
    cbn [retryLoop Nat.leb Nat.ltb andb]. rewrite H3.
    cbn [Nat.ltb Nat.leb andb throwLast app]. now rewrite <- !app_assoc.
Qed.

Lemma retry_policy_witness :
  generateAvatarVideo flakyVideos STUDIO ""
    = Some (mkRun (Ok "https://video/1") [4000; 5000; 4000; 5000; 5000] 3) /\
  generateAvatarVideo blockedVideos STUDIO ""
    = Some (mkRun (Throw (Error "Prompt rejected by the safety filter")) [] 1) /\
  generateAvatarVideo downVideos STUDIO ""
    = Some (mkRun (Throw (Error "Service unavailable: SERVER overloaded"))
                  [4000; 4000] 3).
Proof.
  split; [|split].
  - destruct (retry_policy flakyVideos STUDIO "") as (A & _ & _).
    apply (A (Error "500 Internal Server Error") []
             (Error "Veo State FAILED: internal failure") [5000]
             "https://video/1" [5000; 5000]); vm_compute; reflexivity.
  - destruct (retry_policy blockedVideos STUDIO "") as (_ & B & _).
    apply (B (Error "Prompt rejected by the safety filter") []);
      vm_compute; reflexivity.
  - destruct (retry_policy downVideos STUDIO "") as (_ & _ & C).
    apply (C (Error "Service unavailable: SERVER overloaded") []
             (Error "Service unavailable: SERVER overloaded") []
             (Error "Service unavailable: SERVER overloaded") []);
      vm_compute; reflexivity.
Defined.

End GeminiProperties.

(** * Properties of the task poller *)

Section TripoProperties.

Import TripoService.
Local Open Scope Z_scope.

Variable env : Env.
Variable taskId : string.
Variable onProgress : bool.
Variable maxWaitMs : Z.
Variable t0 : Z.

Local Notation "'loop'" := (pollLoop env taskId onProgress maxWaitMs t0).
Local Notation "'after'" := (worldAfter env taskId onProgress t0).

Lemma pollTime_lower k : pollInterval * Z.of_nat k <= pollTime env taskId k.
Proof.
  induction k as [|k IH]; [cbn; lia|].
  cbn [pollTime]. unfold pollInterval in *. lia.
Qed.

Lemma pollTime_mono j k : (j <= k)%nat -> pollTime env taskId j <= pollTime env taskId k.
Proof.
  induction 1 as [|k _ IH]; [lia|]. cbn [pollTime]. unfold pollInterval. lia.
Qed.

Lemma pending_status k d :
  pending env taskId k -> response (getTaskStatus env k taskId) = Ok d ->
  (statusString (status d) =? "success")%string = false /\
  isFailure (status d) = false.
Proof.
  intros (d' & E & Hs) Hd. rewrite E in Hd. inversion Hd; subst.
  destruct Hs as [-> | ->]; split; reflexivity.
Qed.

(** A pass that finds the task pending within the time limit leads to the
    next look at the clock. *)
Lemma pending_step k fuel :
  pending env taskId k -> pollTime env taskId k < maxWaitMs ->
  loop (S fuel) (after k) = loop fuel (after (S k)).
Proof.
  intros Hp Ht. destruct Hp as (d & E & Hs).
  destruct (pending_status (ex_intro _ d (conj E Hs)) E) as [Hsucc Hfail].
  cbn [pollLoop worldAfter now statusCalls progressCalls].
  replace (t0 + pollTime env taskId k - t0) with (pollTime env taskId k) by lia.
  apply Z.ltb_lt in Ht. rewrite Ht, E.
  cbn [now statusCalls progressCalls]. rewrite Hsucc, Hfail.
  f_equal. unfold sleep, worldAfter.
  destruct onProgress; cbn [now statusCalls progressCalls pollTime reports];
    rewrite ?E; change (S k - 1)%nat with (k - 0)%nat; rewrite Nat.sub_0_r;
    f_equal; lia.
Qed.

Lemma pending_prefix n fuel :
  (forall k, (k < n)%nat -> pending env taskId k) ->
  (forall k, (k < n)%nat -> pollTime env taskId k < maxWaitMs) ->
  loop (n + fuel) (after 0%nat) = loop fuel (after n).
Proof.
  revert fuel. induction n as [|n IH]; intros fuel Hp Ht; [reflexivity|].
  replace (S n + fuel)%nat with (n + S fuel)%nat by lia.
  rewrite IH by (intros; (apply Hp || apply Ht); lia).
  apply pending_step; [apply Hp|apply Ht]; lia.
Qed.

(** A look at the clock within the time limit has fuel left. *)
Lemma pollFuel_enough n :
  pollTime env taskId n < maxWaitMs -> exists f, pollFuel maxWaitMs = (n + S f)%nat.
Proof.
  intros Ht. pose proof (pollTime_lower n) as Hl. unfold pollFuel, pollInterval in *.
  assert (Z.of_nat n <= maxWaitMs / 3000) by (apply Z.div_le_lower_bound; lia).
  exists (Z.to_nat (maxWaitMs / 3000) - n)%nat. lia.
Qed.

(** The status call number [n], reached after [n] pending ones within the
    time limit, is made, and what it returns decides. *)
Lemma poll_reached n :
  (forall k, (k < n)%nat -> pending env taskId k) ->
  pollTime env taskId n < maxWaitMs ->
  exists f,
    waitForTaskCompletion env taskId onProgress maxWaitMs (mkWorld t0 0 [])
    = loop (S f) (after n).
Proof.
  intros Hp Ht. destruct (pollFuel_enough n Ht) as [f Hf]. exists f.
  unfold waitForTaskCompletion. cbn [now]. rewrite Hf.
  assert (E : mkWorld t0 0 [] = after 0%nat).
  { unfold worldAfter. cbn. destruct onProgress; f_equal; lia. }
  rewrite E. apply pending_prefix; [exact Hp|].
  intros k Hk. pose proof (@pollTime_mono k n). lia.
Qed.

Lemma terminal_poll n d f :
  pollTime env taskId n < maxWaitMs ->
  response (getTaskStatus env n taskId) = Ok d ->
  (statusString (status d) =? "success")%string = true \/ isFailure (status d) = true ->
  loop (S f) (after n) =
  Some (if (statusString (status d) =? "success")%string then Ok d
        else Throw (taskFailed (status d) taskId),
        mkWorld (t0 + pollTime env taskId n
                 + Z.of_N (latency (getTaskStatus env n taskId)))
                (S n)
                (if onProgress then reports env taskId (S n) else [])).
Proof.
  intros Ht E Hs.
  cbn [pollLoop worldAfter now statusCalls progressCalls].
  replace (t0 + pollTime env taskId n - t0) with (pollTime env taskId n) by lia.
  apply Z.ltb_lt in Ht. rewrite Ht, E. cbn [reports]. rewrite E.
  destruct (statusString (status d) =? "success")%string;
    [|destruct Hs as [Hs|Hs]; [discriminate|rewrite Hs]];
    destruct onProgress; reflexivity.
Qed.

(** Once the time limit is used up the poller gives up. *)
Lemma timeout_from k fuel :
  maxWaitMs - pollTime env taskId k <= pollInterval * Z.of_nat fuel ->
  (forall j, pollTime env taskId j < maxWaitMs -> pending env taskId j) ->
  exists n, loop fuel (after k) = Some (Throw taskTimedOut, after n) /\
            maxWaitMs <= pollTime env taskId n.
Proof.
  revert k. induction fuel as [|fuel IH]; intros k Hf Hp.
  - exists k. cbn [pollLoop worldAfter now].
    replace (t0 + pollTime env taskId k - t0) with (pollTime env taskId k) by lia.
    unfold pollInterval in Hf.
    destruct (Z.ltb_spec (pollTime env taskId k) maxWaitMs); [lia|].
    split; [reflexivity|lia].
  - destruct (Z.lt_ge_cases (pollTime env taskId k) maxWaitMs) as [Hlt|Hge].
    + rewrite (pending_step fuel (Hp k Hlt) Hlt). apply IH; [|exact Hp].
      cbn [pollTime]. unfold pollInterval in *. lia.
    + exists k. cbn [pollLoop worldAfter now].
      replace (t0 + pollTime env taskId k - t0) with (pollTime env taskId k) by lia.
      destruct (Z.ltb_spec (pollTime env taskId k) maxWaitMs); [lia|].
      split; [reflexivity|lia].
Qed.

Lemma pollFuel_covers : maxWaitMs <= pollInterval * Z.of_nat (pollFuel maxWaitMs).
Proof.
  unfold pollFuel, pollInterval.
  destruct (Z.lt_ge_cases maxWaitMs 0) as [Hn|Hp]; [lia|].
  pose proof (Z.mod_pos_bound maxWaitMs 3000 ltac:(lia)).
  pose proof (Z.div_mod maxWaitMs 3000 ltac:(lia)).
  pose proof (Z.div_pos maxWaitMs 3000 Hp ltac:(lia)). lia.
Qed.

(** The loop always comes to an end within its fuel. *)
Lemma pollLoop_fuel fuel w :
  maxWaitMs - (now w - t0) <= pollInterval * Z.of_nat fuel ->
  loop fuel w <> None.
Proof.
  revert w. induction fuel as [|fuel IH]; intros w Hf; cbn [pollLoop].
  - destruct (Z.ltb_spec (now w - t0) maxWaitMs); [|discriminate].
    unfold pollInterval in Hf. lia.
  - destruct (now w - t0 <? maxWaitMs); [|discriminate].
    destruct (response (getTaskStatus env (statusCalls w) taskId)) as [d|e];
      [|discriminate].
    destruct (statusString (status d) =? "success")%string; [discriminate|].
    destruct (isFailure (status d)); [discriminate|].
    apply IH. unfold sleep, pollInterval in *.
    destruct onProgress; cbn [now]; lia.
Qed.

End TripoProperties.

Section TripoClaims.

Import TripoService.
Local Open Scope Z_scope.

(** C8: the poller, started with no status call made, always comes to an
    end.  When the status calls return queued, running, running and
    success (the fourth call being made within maxWaitMs), onProgress is
    called exactly four times, with these statuses in this order, and the
    function resolves with the data of the fourth call.  When the first
    status that is not queued or running is one of failed, banned,
    expired, cancelled and unknown (its call being made within
    maxWaitMs), the function rejects with the error "Task <status>:
    <taskId>" of that status.  When every status call made within
    maxWaitMs finds the task queued or running, the function rejects with
    the error "Task timed out". *)
Theorem task_poller (env : Env) (taskId : string) (maxWaitMs t0 : Z) :
  let wait onProgress :=
    waitForTaskCompletion env taskId onProgress maxWaitMs (mkWorld t0 0 []) in
  let call k := response (getTaskStatus env k taskId) in
  (forall onProgress, wait onProgress <> None) /\
  (forall d0 d1 d2 d3,
     call 0%nat = Ok d0 -> status d0 = queued ->
     call 1%nat = Ok d1 -> status d1 = running ->
     call 2%nat = Ok d2 -> status d2 = running ->
     call 3%nat = Ok d3 -> status d3 = success ->
     pollTime env taskId 3 < maxWaitMs ->
     exists w,
       wait true = Some (Ok d3, w) /\
       progressCalls w = [(progress d0, "queued"); (progress d1, "running");
                          (progress d2, "running"); (progress d3, "success")] /\
       statusCalls w = 4%nat) /\
  (forall onProgress n d,
     (forall k, (k < n)%nat -> pending env taskId k) ->
     call n = Ok d ->
     In (status d) [failed; banned; expired; cancelled; unknown] ->
     pollTime env taskId n < maxWaitMs ->
     exists w,
       wait onProgress = Some (Throw (taskFailed (status d) taskId), w) /\
       statusCalls w = S n /\
       message (taskFailed (status d) taskId)
         = Some ("Task " ++ statusString (status d) ++ ": " ++ taskId)%string) /\
  (forall onProgress,
     (forall k, pollTime env taskId k < maxWaitMs -> pending env taskId k) ->
     exists w,
       wait onProgress = Some (Throw taskTimedOut, w) /\
       maxWaitMs <= now w - t0 /\
       message taskTimedOut = Some "Task timed out").
Proof.
  cbv zeta. split; [|split; [|split]].
  - intros onProgress. unfold waitForTaskCompletion. apply pollLoop_fuel.
    cbn [now]. pose proof (pollFuel_covers maxWaitMs). lia.
  - intros d0 d1 d2 d3 E0 S0 E1 S1 E2 S2 E3 S3 Ht.
    assert (Hp : forall k, (k < 3)%nat -> pending env taskId k).
    { intros k Hk. destruct k as [|[|[|k]]]; [| | |lia].
      - exists d0. auto.
      - exists d1. auto.
      - exists d2. auto. }
    destruct (@poll_reached env taskId true maxWaitMs t0 3 Hp Ht) as [f ->].
    rewrite (@terminal_poll env taskId true maxWaitMs t0 3 d3 f Ht E3)
      by (left; now rewrite S3).
    rewrite S3. cbn [statusString String.eqb]. eexists. split; [reflexivity|].
    cbn [progressCalls statusCalls reports]. rewrite E0, E1, E2, E3, S0, S1, S2, S3.
    split; reflexivity.
  - intros onProgress n d Hp E Hin Ht.
    assert (Hf : isFailure (status d) = true /\
                 (statusString (status d) =? "success")%string = false).
    { cbn in Hin.
      destruct Hin as [<-|[<-|[<-|[<-|[<-|[]]]]]]; split; reflexivity. }
    destruct Hf as [Hf Hs].
    destruct (@poll_reached env taskId onProgress maxWaitMs t0 n Hp Ht) as [f ->].
    rewrite (@terminal_poll env taskId onProgress maxWaitMs t0 n d f Ht E)
      by (right; exact Hf).
    rewrite Hs. eexists. split; [reflexivity|]. split; reflexivity.
  - intros onProgress Hp.
    destruct (@timeout_from env taskId onProgress maxWaitMs t0 0 (pollFuel maxWaitMs))
      as (n & Hn & Hge).
    + cbn [pollTime]. pose proof (pollFuel_covers maxWaitMs). lia.
    + exact Hp.
    + exists (worldAfter env taskId onProgress t0 n).
      split; [|split; [cbn [worldAfter now]; lia|reflexivity]].
      unfold waitForTaskCompletion. cbn [now]. rewrite <- Hn. f_equal.
      unfold worldAfter. cbn. destruct onProgress; f_equal; lia.
Qed.

Lemma task_poller_witness :
  let script := [(queued, 0); (running, 30); (running, 70); (success, 100)] in
  (exists w,
     waitForTaskCompletion (scriptedStatus script 200) "task-1" true
                           defaultMaxWaitMs (mkWorld 0 0 [])
     = Some (Ok (taskWith success 100), w) /\
     progressCalls w = [(0, "queued"); (30, "running"); (70, "running");
                        (100, "success")]) /\
  (exists w,
     waitForTaskCompletion (scriptedStatus [(queued, 0); (banned, 0)] 200) "task-1"
                           true defaultMaxWaitMs (mkWorld 0 0 [])
     = Some (Throw (Error "Task banned: task-1"), w)) /\
  (exists w,
     waitForTaskCompletion (scriptedStatus [(running, 10)] 200) "task-1" true
                           defaultMaxWaitMs (mkWorld 0 0 [])
     = Some (Throw (Error "Task timed out"), w)).
Proof.
  cbv zeta. split; [|split].
  - destruct (task_poller
                (scriptedStatus [(queued, 0); (running, 30); (running, 70);
                                 (success, 100)] 200)
                "task-1" defaultMaxWaitMs 0) as (_ & A & _).
    destruct (A (taskWith queued 0) (taskWith running 30) (taskWith running 70)
                (taskWith success 100)) as (w & H1 & H2 & _);
      try reflexivity.
    exists w. split; [exact H1|exact H2].
  - destruct (task_poller (scriptedStatus [(queued, 0); (banned, 0)] 200)
                "task-1" defaultMaxWaitMs 0) as (_ & _ & B & _).
    destruct (B true 1%nat (taskWith banned 0)) as (w & H & _).
    + intros k Hk. assert (k = 0%nat) by lia. subst k.
      exists (taskWith queued 0). split; [reflexivity|now left].
    + reflexivity.
    + cbn. tauto.
    + reflexivity.
    + exists w. exact H.
  - destruct (task_poller (scriptedStatus [(running, 10)] 200)
                "task-1" defaultMaxWaitMs 0) as (_ & _ & _ & C).
    destruct (C true) as (w & H & _).
    + intros k _. exists (taskWith running 10). split; [|now right].
      destruct k as [|[|k]]; reflexivity.
    + exists w. exact H.
Defined.

End TripoClaims.

(** * More properties of the agent loop *)

Section AppExtras.

Import App.
Local Open Scope Z_scope.

Variable env : Env.

Lemma trace_length (t : Trace) :
  List.length t =
  (List.length (generated t) + List.length (critiques t)
   + List.length (refinements t))%nat.
Proof.
  induction t as [|e t IH]; [reflexivity|].
  unfold critiques, generated, refinements in *.
  destruct e; cbn [flat_map app List.length] in *; lia.
Qed.

Lemma last_snoc {A} (l : list A) (x d : A) : last (l ++ [x]) d = x.
Proof.
  induction l as [|a l IH]; [reflexivity|].
  cbn [app]. destruct (l ++ [x]) eqn:E; [now destruct l|]. exact IH.
Qed.

Create Rewrite HintDb calls.

Hint Rewrite critiques_app generated_app refinements_app scores_app
  length_app map_app app_nil_r : calls.

Ltac calls_simpl :=
  autorewrite with calls in *;
  cbn [critiques generated refinements scores flat_map map app List.length
       fst snd] in *.

Lemma loopBody_OrderInv prompt0 v1 st t st' t' :
  Inv env v1 st t -> OrderInv prompt0 st t -> guard st = true ->
  loopBody env st t = Done st' t' ->
  OrderInv prompt0 st' t'.
Proof.
  intros I O Hg H. apply guard_true in Hg. destruct Hg as [Hlt Hs].
  apply loopBody_Done in H. destruct H as (c & _ & H). cbn zeta in H.
  pose proof (ord_generated O) as Og. rewrite Hs in Og.
  pose proof (ord_ids O) as Oi. pose proof (ord_prompt O) as Op.
  destruct H as [(_ & -> & ->)|(_ & p & img & _ & _ & -> & ->)].
  - constructor; cbn [isSatisfied currentImage currentPrompt loops]; calls_simpl.
    + exact Og.
    + exact Oi.
    + exact Op.
    + intros _. exact Hlt.
  - constructor; cbn [isSatisfied currentImage currentPrompt loops]; calls_simpl.
    + rewrite Hs, Og. calls_simpl. now rewrite <- app_assoc.
    + cbn [obj]. rewrite Oi, Nat.add_1_r, seq_S. reflexivity.
    + now rewrite last_snoc.
    + rewrite Hs. discriminate.
Qed.

Lemma initial_OrderInv prompt v1 t :
  awaitGenerate env prompt [] = Done v1 t ->
  OrderInv prompt (initialState prompt v1) t.
Proof.
  unfold awaitGenerate. cbn.
  destruct (generateAvatarImage env 0 prompt) as [img|e]; [|discriminate].
  intros H. inversion H; subst. constructor; cbn; auto. discriminate.
Qed.

Lemma iterations_OrderInv prompt0 v1 x y :
  iterations env x y ->
  Inv env v1 (fst x) (snd x) -> OrderInv prompt0 (fst x) (snd x) ->
  OrderInv prompt0 (fst y) (snd y).
Proof.
  induction 1 as [x|x y z Hxy IH Hyz]; intros I O; [exact O|].
  pose proof (iterations_Inv Hxy I) as Iy.
  inversion Hyz as [st t st' t' Hg Hb]; subst. cbn in *.
  eapply loopBody_OrderInv; [exact Iy|apply IH; assumption|exact Hg|exact Hb].
Qed.

Lemma critiqueLoop_OrderInv prompt st t :
  critiqueLoop env prompt [] = Done st t ->
  exists v1, Inv env v1 st t /\ OrderInv prompt st t /\ guard st = false.
Proof.
  intros H. destruct (critiqueLoop_Done _ _ H) as (v1 & t1 & Hg & Hit & I & Hf).
  exists v1. split; [exact I|]. split; [|exact Hf].
  exact (iterations_OrderInv Hit (initial_Inv env prompt Hg)
           (initial_OrderInv prompt Hg)).
Qed.

End AppExtras.

Section AppExtraTheorems.

Import App.
Local Open Scope Z_scope.

Ltac valid_scores :=
  match goal with
  | |- Forall ?P ?l => let l' := eval vm_compute in l in change (Forall P l')
  end;
  repeat (apply Forall_cons; [unfold validScore; lia|]); apply Forall_nil.

(** X1: a run of the loop that comes to its end has made at least one
    and at most three critique calls, at most four image generations (one
    more than refinements) and at most ten provider calls in all; a
    satisfied run has critiqued every image it generated and made at most
    eight calls. *)
Theorem provider_call_budget (env : Env) (prompt : string) st t :
  critiqueLoop env prompt [] = Done st t ->
  (1 <= List.length (critiques t) <= 3)%nat /\
  (1 <= List.length (generated t) <= 4)%nat /\
  List.length (generated t) = S (List.length (refinements t)) /\
  (List.length t <= 10)%nat /\
  (isSatisfied st = true ->
   List.length (generated t) = List.length (critiques t) /\
   (List.length t <= 8)%nat) /\
  (isSatisfied st = false ->
   List.length (critiques t) = 3%nat /\ List.length (generated t) = 4%nat).
Proof.
  intros H. destruct (critiqueLoop_OrderInv _ _ H) as (v1 & I & O & Hg).
  pose proof (inv_loops I) as Hl. pose proof (inv_generated I) as Hgen.
  pose proof (inv_refinements I) as Href. pose proof (inv_critiques I) as Hc.
  pose proof (ord_satisfied O) as Hs. pose proof (trace_length t) as Ht.
  apply guard_false in Hg. unfold MAX_REFINEMENT_LOOPS in *.
  destruct (isSatisfied st).
  - specialize (Hs eq_refl). repeat split; try lia; discriminate.
  - destruct Hg as [Hg|Hg]; [|discriminate]. repeat split; try lia; discriminate.
Qed.

Lemma provider_call_budget_witness :
  exists st t,
    critiqueLoop (scripted [60; 72; 90]) "hacker" [] = Done st t /\
    (1 <= List.length (critiques t) <= 3)%nat /\ (List.length t <= 10)%nat.
Proof.
  eexists _, _. split; [vm_compute; reflexivity|].
  match goal with
  | |- (_ <= List.length (critiques ?t) <= _)%nat /\ _ =>
      assert (Hrun : critiqueLoop (scripted [60; 72; 90]) "hacker" [] =
                     Done (mkState "hacker" (mkRef 2 (mkImage "" "image/png")) 2
                             (mkRef 2 (mkImage "" "image/png")) 90 true) t)
        by (vm_compute; reflexivity);
      destruct (provider_call_budget _ _ Hrun) as (H1 & _ & _ & H2 & _)
  end.
  split; [exact H1|exact H2].
Defined.

(** X2: in a run that comes to its end the images are critiqued in the
    order they were generated, each one once: the k-th critique call is
    shown the image of the k-th generator call and the trace records what
    the critic answered to it; every image but the last one of an
    unsatisfied run has been critiqued; all generated images are distinct
    objects; and the current prompt is the one the refiner returned last
    (the initial prompt when it was never called). *)
Theorem critiques_follow_generation (env : Env) (prompt : string) st t :
  critiqueLoop env prompt [] = Done st t ->
  generated t = map fst (critiques t) ++
                (if isSatisfied st then [] else [currentImage st]) /\
  NoDup (generated t) /\
  (forall k i c,
     nth_error (critiques t) k = Some (i, c) ->
     nth_error (generated t) k = Some i /\ obj i = k /\
     critiqueGeneratedImage env k i = Ok c) /\
  currentPrompt st = last (refinements t) prompt.
Proof.
  intros H. destruct (critiqueLoop_OrderInv _ _ H) as (v1 & I & O & _).
  pose proof (ord_generated O) as Og. pose proof (ord_ids O) as Oi.
  split; [exact Og|]. split; [|split; [|exact (ord_prompt O)]].
  - apply (NoDup_map_inv obj). rewrite Oi. apply seq_NoDup.
  - intros k i c Hk.
    assert (Hg : nth_error (generated t) k = Some i).
    { rewrite Og, nth_error_app1.
      - rewrite nth_error_map, Hk. reflexivity.
      - rewrite length_map. apply nth_error_Some. rewrite Hk. discriminate. }
    split; [exact Hg|]. split; [|exact (inv_oracle I _ Hk)].
    assert (Ho : nth_error (map obj (generated t)) k = Some (obj i))
      by (rewrite nth_error_map, Hg; reflexivity).
    rewrite Oi, nth_error_seq in Ho.
    destruct (k <? List.length (generated t))%nat; inversion Ho. reflexivity.
Qed.

Lemma critiques_follow_generation_witness :
  exists st t,
    critiqueLoop (scripted [40; 50; 60]) "hacker" [] = Done st t /\
    map (fun i => obj i) (generated t) = [0; 1; 2; 3]%nat /\
    generated t = map fst (critiques t) ++ [currentImage st].
Proof.
  eexists _, _. split; [vm_compute; reflexivity|]. split; [reflexivity|].
  match goal with
  | |- generated ?t = map fst (critiques ?t) ++ [currentImage ?st] =>
      assert (Hrun : critiqueLoop (scripted [40; 50; 60]) "hacker" [] = Done st t)
        by (vm_compute; reflexivity);
      destruct (critiques_follow_generation _ _ Hrun) as (H1 & _)
  end.
  exact H1.
Defined.

(** X3: whenever the function runs to its end with critique scores in
    0-100, satisfied or not, the image it leaves on display was critiqued,
    no recorded score is higher than its own and every image critiqued
    before it scored strictly less; when the run goes on to video
    generation that image is the one critiqued last, its score is at
    least the threshold and strictly above every other score. *)
Theorem displayed_image_is_best (env : Env) (prompt : string) r t :
  executeGenerationLoop env prompt [] = Done r t ->
  Forall validScore (scores t) ->
  exists r1 c r2,
    critiques t = r1 ++ (generatedImage r, c) :: r2 /\
    score c = bestScore (final r) /\
    Forall (fun p => score (snd p) < score c) r1 /\
    Forall (fun p => score (snd p) <= score c) r2 /\
    (forall image, next r = GENERATING_VIDEO image ->
                   image = generatedImage r /\ r2 = [] /\
                   QUALITY_THRESHOLD <= score c).
Proof.
  intros Hrun Hv.
  destruct (executeGenerationLoop_Done _ _ Hrun) as (st & Hloop & Hf & Hi & Hn).
  destruct (critiqueLoop_Done _ _ Hloop) as (v1 & t1 & _ & _ & I & Hg).
  destruct (restoreBest_current I) as (Rc & Rb & Rs & Rsat & Rl).
  rewrite Hf, Hi, Hn, Rc, Rs, Rsat.
  pose proof (inv_best_bound I) as Hb.
  unfold scores in Hb, Hv. rewrite Forall_map in Hb, Hv.
  assert (Hbest : exists r1 c r2,
             critiques t = r1 ++ (bestImage st, c) :: r2 /\
             score c = bestScore st /\
             Forall (fun p => score (snd p) < score c) r1).
  { destruct (inv_best I) as [[Hz Hb1]|(r1 & c & r2 & E & Hc & _ & Hr1)].
    - destruct (critiques_nonempty I Hg) as (c0 & r0 & E0).
      rewrite Hb1. exists [], c0, r0. split; [exact E0|].
      rewrite E0 in Hv, Hb. inversion Hv as [|? ? [H0 _] _]; subst.
      inversion Hb; subst. cbn in *. split; [lia|constructor].
    - exists r1, c, r2. rewrite Hc. auto. }
  destruct Hbest as (r1 & c & r2 & E & Hc & Hr1).
  exists r1, c, r2. split; [exact E|]. split; [exact Hc|]. split; [exact Hr1|].
  split.
  - rewrite E in Hb. apply Forall_app in Hb. destruct Hb as [_ Hb].
    inversion Hb; subst. rewrite Hc. assumption.
  - intros image Himg. destruct (isSatisfied st) eqn:Hsat; [|discriminate].
    cbn in Himg. inversion Himg; subst image. split; [reflexivity|].
    pose proof (inv_last I) as Hl. rewrite Hsat in Hl.
    destruct Hl as (t0 & c' & -> & Hc' & Hlow).
    rewrite critiques_app in E, Hb. cbn in E, Hb.
    assert (Hge : QUALITY_THRESHOLD <= score c).
    { apply Forall_app in Hb. destruct Hb as [_ Hb]. inversion Hb; subst.
      cbn in *. lia. }
    destruct r2 as [|x r2]; [auto|exfalso].
    assert (Hin : In (bestImage st, c) (critiques t0)).
    { replace (r1 ++ (bestImage st, c) :: x :: r2)
        with ((r1 ++ (bestImage st, c) :: removelast (x :: r2))
              ++ [last (x :: r2) x]) in E.
      - apply app_inj_tail in E. destruct E as [-> _].
        apply in_or_app. right. now left.
      - rewrite <- app_assoc. cbn [app]. f_equal. f_equal.
        symmetry. apply app_removelast_last. discriminate. }
    unfold scores in Hlow. rewrite Forall_map, Forall_forall in Hlow.
    specialize (Hlow _ Hin). cbn in Hlow. lia.
Qed.

Lemma displayed_image_is_best_witness :
  exists r t,
    executeGenerationLoop (scripted [60; 72; 90]) "hacker" [] = Done r t /\
    Forall validScore (scores t) /\
    exists r1 c r2, critiques t = r1 ++ (generatedImage r, c) :: r2 /\
                    score c = bestScore (final r).
Proof.
  eexists _, _. split; [vm_compute; reflexivity|].
  split; [valid_scores|].
  match goal with
  | |- exists r1 c r2, critiques ?t = r1 ++ (generatedImage ?r, c) :: r2 /\ _ =>
      assert (Hrun : executeGenerationLoop (scripted [60; 72; 90]) "hacker" [] =
                     Done r t) by (vm_compute; reflexivity);
      destruct (displayed_image_is_best _ _ Hrun) as (r1 & c & r2 & H1 & H2 & _);
      [valid_scores|exists r1, c, r2; split; [exact H1|exact H2]]
  end.
Defined.



End AppExtraTheorems.

(** * More properties of the Gemini adapters *)

Section GeminiExtras.

Import GeminiService.
Local Open Scope Z_scope.

(** ** [trim] *)

(** The head of [chars s] begins with the first byte of [s]. *)
Lemma chars_continues s :
  match Js.chars s with
  | [] => s = ""
  | g :: _ => Js.continues g = Js.continues s
  end.
Proof.
  destruct s as [|c s]; [reflexivity|]. cbn [Js.chars].
  destruct (Js.chars s) as [|g gs]; [reflexivity|].
  destruct (Js.continues g); reflexivity.
Qed.

(** No character but the first begins with a continuation byte. *)
Lemma chars_tail s : Forall (fun g => Js.continues g = false) (tl (Js.chars s)).
Proof.
  induction s as [|c s IH]; cbn [Js.chars]; [constructor|].
  destruct (Js.chars s) as [|g gs]; [constructor|].
  destruct (Js.continues g) eqn:Hg; cbn in *; [exact IH|].
  constructor; assumption.
Qed.

(** A character of [chars s] is one character. *)
Lemma chars_single s : Forall (fun g => Js.chars g = [g]) (Js.chars s).
Proof.
  induction s as [|c s IH]; cbn [Js.chars]; [constructor|].
  destruct (Js.chars s) as [|g gs]; [repeat constructor|].
  inversion IH as [|? ? Hg Hgs]; subst.
  destruct (Js.continues g) eqn:Hc.
  - constructor; [|exact Hgs]. cbn [Js.chars]. rewrite Hg, Hc. reflexivity.
  - constructor; [reflexivity|]. constructor; assumption.
Qed.

Lemma chars_app s1 s2 :
  Js.continues s2 = false -> Js.chars (s1 ++ s2) = Js.chars s1 ++ Js.chars s2.
Proof.
  intros H2. induction s1 as [|c s1 IH]; [reflexivity|].
  cbn [append Js.chars]. rewrite IH.
  destruct (Js.chars s1) as [|g gs] eqn:E1; cbn [app].
  - pose proof (chars_continues s2) as Hc.
    destruct (Js.chars s2) as [|g2 gs2]; [reflexivity|].
    rewrite Hc, H2. reflexivity.
  - destruct (Js.continues g); reflexivity.
Qed.

(** [chars] gives back a list of characters that follow one another in
    some string. *)
Lemma chars_join m :
  Forall (fun g => Js.chars g = [g]) m ->
  Forall (fun g => Js.continues g = false) (tl m) ->
  Js.chars (Js.join m) = m.
Proof.
  induction m as [|g m IH]; [reflexivity|]. intros Hs Ht.
  inversion Hs as [|? ? Hg Hm]; subst. cbn [tl] in Ht. cbn [Js.join fold_right].
  rewrite chars_app.
  - rewrite Hg. cbn [app]. f_equal. apply IH; [exact Hm|].
    destruct m; [constructor|]. inversion Ht; assumption.
  - destruct m as [|g' m']; [reflexivity|]. inversion Ht as [|? ? Hg' _]; subst.
    inversion Hm as [|? ? Hg1 _]; subst. cbn [Js.join fold_right].
    destruct g'; [discriminate Hg1|exact Hg'].
Qed.

Lemma chars_infix s l m r :
  Js.chars s = l ++ m ++ r -> Js.chars (Js.join m) = m.
Proof.
  intros Hs. apply chars_join.
  - pose proof (chars_single s) as H. rewrite Hs in H.
    apply Forall_app in H. destruct H as [_ H]. apply Forall_app in H. tauto.
  - pose proof (chars_tail s) as H. rewrite Hs in H.
    destruct m as [|g m]; [constructor|]. cbn [tl].
    destruct l as [|x l]; cbn [app tl] in H.
    + apply Forall_app in H. tauto.
    + apply Forall_app in H. destruct H as [_ H].
      inversion H as [|? ? _ H']; subst. apply Forall_app in H'. tauto.
Qed.

(** [trim] leaves no white space at either end of its result. *)
Lemma trim_ends s :
  (forall ch, Js.firstChar (Js.trim s) = Some ch -> Js.isWhiteSpace ch = false) /\
  (forall ch, Js.lastChar (Js.trim s) = Some ch -> Js.isWhiteSpace ch = false) /\
  exists l r,
    Js.chars s = l ++ Js.chars (Js.trim s) ++ r /\
    forallb Js.isWhiteSpace l = true /\ forallb Js.isWhiteSpace r = true.
Proof.
  destruct (trim_chars s) as (l & m & r & Hs & Ht & Hl & Hr & Hf & Hla).
  unfold Js.firstChar, Js.lastChar. rewrite Ht, (chars_infix _ _ _ _ Hs).
  split; [exact Hf|]. split; [exact Hla|]. exists l, r. auto.
Qed.

Lemma trim_not_blank s : Js.trim s <> "" -> Js.blank (Js.trim s) = false.
Proof.
  intros H. destruct (trim_ends s) as (Hf & _). unfold Js.blank, Js.firstChar in *.
  destruct (Js.chars (Js.trim s)) as [|g m] eqn:E.
  - exfalso. apply H. rewrite <- (join_chars (Js.trim s)), E. reflexivity.
  - cbn [forallb]. now rewrite (Hf g eq_refl).
Qed.



(** X6: [refinePrompt] never fails on an empty answer: when the provider
    returns no text, or text that is empty or only white space, the
    current prompt is returned unchanged; other text is returned trimmed;
    it throws exactly when the provider call throws; and the prompt it
    returns is blank only if the current prompt already was. *)
Theorem refinePrompt_falls_back (generateContent : Provider) (currentPrompt : string)
    (critique : App.CritiqueResult) (userFeedback : option string) :
  let request := refinePromptRequest currentPrompt critique userFeedback in
  let outcome := refinePrompt generateContent currentPrompt critique userFeedback in
  (forall response,
     generateContent request = Ok response ->
     text response = None \/
     (exists t, text response = Some t /\ Js.blank t = true) ->
     outcome = Ok currentPrompt) /\
  (forall response t,
     generateContent request = Ok response ->
     text response = Some t -> Js.blank t = false ->
     outcome = Ok (Js.trim t) /\ Js.trim t <> "") /\
  (forall e, outcome = Throw e <-> generateContent request = Throw e) /\
  (forall p, outcome = Ok p -> Js.blank p = true -> Js.blank currentPrompt = true).
Proof.
  cbv zeta. unfold refinePrompt. split; [|split; [|split]].
  - intros response -> [->|(t & -> & Hb)]; [reflexivity|].
    apply trim_blank in Hb. now rewrite Hb.
  - intros response t -> -> Hb.
    assert (Hne : Js.trim t <> "").
    { intros E. apply trim_blank in E. congruence. }
    split; [|exact Hne]. unfold Js.orElse.
    destruct (String.eqb_spec (Js.trim t) ""); [contradiction|reflexivity].
  - intros e. destruct (generateContent _) as [response|e'].
    + split; discriminate.
    + split; intros H; inversion H; reflexivity.
  - intros p. destruct (generateContent _) as [response|e']; [|discriminate].
    intros H Hb. inversion H as [Hp]. clear H.
    destruct (text response) as [t|]; [|congruence].
    unfold Js.orElse in Hp.
    destruct (String.eqb_spec (Js.trim t) "") as [E|N]; [congruence|].
    apply trim_not_blank in N. congruence.
Qed.

Lemma refinePrompt_falls_back_witness :
  refinePrompt (fun _ => Ok (mkResponse (Some (Js.utf8 160 ++ " " ++ Js.utf8 65279)%string) []))
               "a prompt" (App.mkCritique 40 "too dark" "add light") None
  = Ok "a prompt".
Proof.
  apply (proj1 (refinePrompt_falls_back
                  (fun _ => Ok (mkResponse
                                  (Some (Js.utf8 160 ++ " " ++ Js.utf8 65279)%string) []))
                  "a prompt" (App.mkCritique 40 "too dark" "add light") None)
               (mkResponse (Some (Js.utf8 160 ++ " " ++ Js.utf8 65279)%string) []));
    [reflexivity|].
  right. eexists. split; [reflexivity|]. vm_compute. reflexivity.
Defined.

(** X7: when the provider answers, [generateAvatarImage] returns the
    first part of the response that carries inline data, with the MIME
    type image/png when the part has none or an empty one, and throws "No
    image data found in response" exactly when no part carries inline
    data; the MIME type of a returned image is never empty. *)
Theorem generateAvatarImage_first_inline_part (generateContent : Provider)
    (optimizedPrompt : string) (referenceImageBase64 : option string)
    (response : GenerateContentResponse) :
  generateContent (generateAvatarImageRequest optimizedPrompt referenceImageBase64)
    = Ok response ->
  let outcome := generateAvatarImage generateContent optimizedPrompt
                                     referenceImageBase64 in
  (Forall (fun p => p = None) (parts response) <->
   outcome = Throw (Error "No image data found in response")) /\
  (forall before d after,
     parts response = before ++ Some d :: after ->
     Forall (fun p => p = None) before ->
     outcome = Ok (mkImage (inlineBytes d)
                           (match inlineMime d with
                            | Some m => if (m =? "")%string then "image/png" else m
                            | None => "image/png"
                            end))) /\
  (forall image, outcome = Ok image -> mimeType image <> "").
Proof.
  intros Hr. cbv zeta. unfold generateAvatarImage. rewrite Hr.
  assert (Hnone : forall ps, Forall (fun p => p = None) ps <->
                             firstInlineData ps = None).
  { induction ps as [|[d|] ps IH]; cbn.
    - split; [reflexivity|constructor].
    - split; [intros H; inversion H; discriminate|discriminate].
    - rewrite <- IH. split; [intros H; now inversion H|now constructor]. }
  assert (Hsome : forall before d after,
             Forall (fun p => p = None) before ->
             firstInlineData (before ++ Some d :: after) =
             Some (mkImage (inlineBytes d)
                           (match inlineMime d with
                            | Some m => Js.orElse m "image/png"
                            | None => "image/png"
                            end))).
  { induction before as [|x before IH]; intros d after Hb; [reflexivity|].
    inversion Hb; subst. cbn. now apply IH. }
  assert (Hmime : forall ps image, firstInlineData ps = Some image ->
                                   mimeType image <> "").
  { induction ps as [|[d|] ps IH]; cbn; intros image H; [discriminate| |eauto].
    inversion H; subst. cbn. destruct (inlineMime d) as [m|]; [|discriminate].
    unfold Js.orElse. destruct (String.eqb_spec m ""); [discriminate|assumption]. }
  split; [|split].
  - rewrite Hnone. destruct (firstInlineData (parts response));
      split; intros H; try discriminate; reflexivity.
  - intros before d after -> Hb. now rewrite (Hsome before d after Hb).
  - intros image. destruct (firstInlineData (parts response)) eqn:E; [|discriminate].
    intros H. inversion H; subst. eapply Hmime. exact E.
Qed.

Lemma generateAvatarImage_first_inline_part_witness :
  generateAvatarImage
    (fun _ => Ok (mkResponse None [None; Some (mkInline "AAAA" None);
                                   Some (mkInline "BBBB" (Some "image/jpeg"))]))
    "a prompt" None = Ok (mkImage "AAAA" "image/png").
Proof.
  destruct (generateAvatarImage_first_inline_part
              (fun _ => Ok (mkResponse None [None; Some (mkInline "AAAA" None);
                                             Some (mkInline "BBBB" (Some "image/jpeg"))]))
              "a prompt" None eq_refl) as (_ & H & _).
  apply (H [None] (mkInline "AAAA" None) [Some (mkInline "BBBB" (Some "image/jpeg"))]);
    [reflexivity|repeat constructor].
Defined.

(** ** The attempts of [generateAvatarVideo] *)

(** The polling ends on the first answer that is not a pending
    operation, after one sleep for each answer up to it. *)
Lemma pollOperation_settles operation pre x post slept :
  done operation = false ->
  forallb pendingAnswer pre = true -> pendingAnswer x = false ->
  pollOperation operation (pre ++ x :: post) slept
  = Some (match x with
          | Throw e => Throw e
          | Ok operation' =>
              if stateFailed operation'
              then Throw (Error ("Veo State FAILED: " ++
                            match operationError operation' with
                            | Some m => Js.orElse m "Unknown error"
                            | None => "Unknown error"
                            end))
              else Ok operation'
          end,
          slept ++ repeat pollDelayMs (S (List.length pre))).
Proof.
  revert operation slept. induction pre as [|y pre IH]; intros op slept Hd Hpre Hx.
  - cbn [app pollOperation List.length repeat]. rewrite Hd.
    destruct x as [op'|e]; [|reflexivity].
    destruct (stateFailed op') eqn:Hf; [reflexivity|].
    cbn in Hx. rewrite Hf in Hx. cbn in Hx. rewrite andb_true_r in Hx.
    apply negb_false_iff in Hx.
    destruct post; cbn [pollOperation]; rewrite Hx; reflexivity.
  - cbn [forallb] in Hpre. apply andb_true_iff in Hpre. destruct Hpre as [Hy Hpre].
    destruct y as [op1|e]; [|discriminate]. cbn in Hy.
    apply andb_true_iff in Hy. destruct Hy as [Hd1 Hf1].
    apply negb_true_iff in Hd1. apply negb_true_iff in Hf1.
    cbn [app pollOperation]. rewrite Hd, Hf1.
    rewrite IH by assumption. rewrite <- app_assoc. reflexivity.
Qed.

(** While every answer is a pending operation the polling goes on. *)
Lemma pollOperation_pending operation answers slept :
  done operation = false -> forallb pendingAnswer answers = true ->
  pollOperation operation answers slept = None.
Proof.
  revert operation slept. induction answers as [|y answers IH]; intros op slept Hd Ha.
  - cbn. now rewrite Hd.
  - cbn [forallb] in Ha. apply andb_true_iff in Ha. destruct Ha as [Hy Ha].
    destruct y as [op1|e]; [|discriminate]. cbn in Hy.
    apply andb_true_iff in Hy. destruct Hy as [Hd1 Hf1].
    apply negb_true_iff in Hd1. apply negb_true_iff in Hf1.
    cbn [pollOperation]. rewrite Hd, Hf1. now apply IH.
Qed.

Lemma first_settled (answers : list (Result VideoOperation)) :
  forallb pendingAnswer answers = true \/
  exists pre x post,
    answers = pre ++ x :: post /\
    forallb pendingAnswer pre = true /\ pendingAnswer x = false.
Proof.
  induction answers as [|y answers IH]; [now left|].
  destruct (pendingAnswer y) eqn:Hy.
  - destruct IH as [IH|(pre & x & post & -> & Hpre & Hx)].
    + left. cbn. now rewrite Hy.
    + right. exists (y :: pre), x, post. cbn. rewrite Hy. auto.
  - right. exists [], y, answers. auto.
Qed.

Lemma existsb_settled (answers : list (Result VideoOperation)) :
  existsb (fun answer => negb (pendingAnswer answer)) answers
  = negb (forallb pendingAnswer answers).
Proof.
  induction answers as [|y answers IH]; [reflexivity|]. cbn.
  rewrite IH. now destruct (pendingAnswer y).
Qed.

(** An attempt ends exactly when the provider lets it. *)
Lemma runAttempt_settles a : runAttempt a <> None <-> settles a = true.
Proof.
  unfold runAttempt, settles. destruct (start a) as [op|e]; [|split; [auto|discriminate]].
  rewrite existsb_settled. destruct (done op) eqn:Hd; cbn [orb].
  - split; [auto|]. intros _.
    destruct (polls a); cbn [pollOperation]; rewrite Hd;
      destruct (operationError op); [discriminate| |discriminate|];
      destruct (Js.truthy (uri op)); discriminate.
  - destruct (first_settled (polls a)) as [Hp|(pre & x & post & -> & Hpre & Hx)].
    + rewrite Hp. rewrite pollOperation_pending by assumption. cbn. split; [congruence|discriminate].
    + rewrite pollOperation_settles by assumption.
      assert (Hall : forallb pendingAnswer (pre ++ x :: post) = false).
      { rewrite forallb_app. cbn. rewrite Hx. now rewrite andb_false_r. }
      rewrite Hall. cbn. split; [reflexivity|]. intros _.
      destruct x as [op'|e]; [|discriminate].
      destruct (stateFailed op'); [discriminate|].
      destruct (operationError op'); [discriminate|].
      destruct (Js.truthy (uri op')); discriminate.
Qed.

(** X8: an attempt polls up to the first answer that is not a pending
    operation, and no further.  When [generateVideos] returns an
    operation that is not done and the provider answers the polls with
    pending operations [pre] and then with [x], the attempt ends on [x]
    after one sleep of 5000 ms for each of these answers, whatever the
    provider would have answered after them; it throws what [x] throws,
    throws "Veo State FAILED: ..." when [x] is in state FAILED, and ends
    otherwise as an attempt does whose first operation is [x].  It
    neither polls nor sleeps when [generateVideos] throws or returns an
    operation that is done, and it does not end while every answer is a
    pending operation. *)
Theorem attempt_polls_until_settled (a : Attempt) :
  (forall e, start a = Throw e -> runAttempt a = Some (Throw e, [])) /\
  (forall operation,
     start a = Ok operation -> done operation = true ->
     exists r, runAttempt a = Some (r, [])) /\
  (forall operation pre x post,
     start a = Ok operation -> done operation = false ->
     polls a = pre ++ x :: post ->
     forallb pendingAnswer pre = true -> pendingAnswer x = false ->
     exists r,
       runAttempt a = Some (r, repeat pollDelayMs (S (List.length pre))) /\
       match x with
       | Throw e => r = Throw e
       | Ok operation' =>
           if stateFailed operation'
           then r = Throw (Error ("Veo State FAILED: " ++
                                  match operationError operation' with
                                  | Some m => Js.orElse m "Unknown error"
                                  | None => "Unknown error"
                                  end))
           else runAttempt (mkAttempt (Ok operation') []) = Some (r, [])
       end) /\
  (forall operation,
     start a = Ok operation -> done operation = false ->
     forallb pendingAnswer (polls a) = true -> runAttempt a = None).
Proof.
  unfold runAttempt. split; [|split; [|split]].
  - intros e ->. reflexivity.
  - intros op -> Hd.
    destruct (polls a); cbn [pollOperation]; rewrite Hd;
      destruct (operationError op); eauto; destruct (Js.truthy (uri op)); eauto.
  - intros op pre x post -> Hd -> Hpre Hx.
    rewrite pollOperation_settles by assumption. cbn [app].
    destruct x as [op'|e]; [|eauto].
    destruct (stateFailed op') eqn:Hf; [eauto|].
    assert (Hd' : done op' = true).
    { cbn in Hx. rewrite Hf in Hx. cbn in Hx. rewrite andb_true_r in Hx.
      now apply negb_false_iff in Hx. }
    cbn [start polls pollOperation]. rewrite Hd'.
    destruct (operationError op'); [eauto|].
    destruct (Js.truthy (uri op')); eauto.
  - intros op -> Hd Hp. now rewrite pollOperation_pending by assumption.
Qed.

Lemma attempt_polls_until_settled_witness :
  runAttempt (flakyVideos 3%nat "") = Some (Ok "https://video/1", [5000; 5000]) /\
  runAttempt (stuckVideos 1%nat "") = None.
Proof.
  destruct (attempt_polls_until_settled (flakyVideos 3%nat "")) as (_ & _ & H & _).
  destruct (attempt_polls_until_settled (stuckVideos 1%nat "")) as (_ & _ & _ & H').
  split.
  - destruct (H pendingOperation [Ok pendingOperation]
                (Ok (mkOperation true false None (Some "https://video/1"))) []
                eq_refl eq_refl eq_refl eq_refl eq_refl) as (r & Hr & Hx).
    cbn in Hx. inversion Hx; subst. exact Hr.
  - exact (H' pendingOperation eq_refl eq_refl eq_refl).
Defined.

(** X9: provided the provider lets each of the three attempts end (its
    operation is at some poll reported done or failed, or a call
    throws), [generateAvatarVideo] ends; it fails to end only on an
    attempt the provider never lets end.  Whenever it ends it has made
    between one and three attempts; every attempt but the last failed
    with an error classified as internal/server and was followed by one
    delay of 4000 ms, and there is no other such delay; the outcome is
    the outcome of the last attempt; an error is thrown only when three
    attempts were made or the error is not of that class. *)
Theorem retry_loop_shape (generateVideos : VideoProvider)
    (backgroundMode : BackgroundMode) (scenario : string) :
  let attempt n := runAttempt (generateVideos n (videoPrompt backgroundMode scenario)) in
  let run := generateAvatarVideo generateVideos backgroundMode scenario in
  ((forall k, (1 <= k <= 3)%nat ->
              settles (generateVideos k (videoPrompt backgroundMode scenario)) = true) ->
   exists r, run = Some r) /\
  (run = None ->
   exists k, (1 <= k <= 3)%nat /\
             settles (generateVideos k (videoPrompt backgroundMode scenario)) = false) /\
  (forall r,
     run = Some r ->
     (1 <= attempts r <= 3)%nat /\
     retryDelays (delays r) = repeat baseDelayMs (attempts r - 1) /\
     (forall k, (1 <= k < attempts r)%nat ->
                exists e d, attempt k = Some (Throw e, d) /\ isInternalError e = true) /\
     (exists d, attempt (attempts r) = Some (result r, d)) /\
     (forall e, result r = Throw e -> attempts r = 3%nat \/ isInternalError e = false)).
Proof.
  cbv zeta.
  set (p := videoPrompt backgroundMode scenario).
  assert (Hnone : generateAvatarVideo generateVideos backgroundMode scenario = None ->
                  exists k, (1 <= k <= 3)%nat /\ settles (generateVideos k p) = false).
  { unfold generateAvatarVideo, MAX_RETRIES. fold p.
    cbn [retryLoop Nat.leb Nat.ltb andb].
    destruct (runAttempt (generateVideos 1%nat p)) as [[[l1|e1] d1]|] eqn:A1;
      [discriminate| |].
    2:{ intros _. exists 1%nat. split; [lia|].
        destruct (settles (generateVideos 1%nat p)) eqn:S1; [|reflexivity].
        apply runAttempt_settles in S1. contradiction. }
    destruct (isInternalError e1); cbn [andb]; [|discriminate].
    cbn [retryLoop Nat.leb Nat.ltb andb].
    destruct (runAttempt (generateVideos 2%nat p)) as [[[l2|e2] d2]|] eqn:A2;
      [discriminate| |].
    2:{ intros _. exists 2%nat. split; [lia|].
        destruct (settles (generateVideos 2%nat p)) eqn:S2; [|reflexivity].
        apply runAttempt_settles in S2. contradiction. }
    destruct (isInternalError e2); cbn [andb]; [|discriminate].
    cbn [retryLoop Nat.leb Nat.ltb andb].
    destruct (runAttempt (generateVideos 3%nat p)) as [[[l3|e3] d3]|] eqn:A3;
      [discriminate|discriminate|].
    intros _. exists 3%nat. split; [lia|].
    destruct (settles (generateVideos 3%nat p)) eqn:S3; [|reflexivity].
    apply runAttempt_settles in S3. contradiction. }
  split; [|split; [exact Hnone|]].
  { intros Hs.
    destruct (generateAvatarVideo generateVideos backgroundMode scenario) as [r|];
      [eauto|].
    destruct (Hnone eq_refl) as (k & Hk & Hf). rewrite (Hs k Hk) in Hf. discriminate. }
  intros r. unfold generateAvatarVideo, MAX_RETRIES. fold p.
  cbn [retryLoop Nat.leb Nat.ltb andb].
  destruct (runAttempt (generateVideos 1%nat p)) as [[[l1|e1] d1]|] eqn:A1;
    [| |discriminate].
  { intros H. inversion H; subst. cbn [attempts delays result app].
    rewrite (retryDelays_attempt _ A1). repeat split; try lia.
    - eauto.
    - discriminate. }
  destruct (isInternalError e1) eqn:I1; cbn [andb].
  2:{ intros H. inversion H; subst. cbn [attempts delays result app throwLast].
      rewrite (retryDelays_attempt _ A1). repeat split; try lia.
      - eauto.
      - intros e He. inversion He; subst. now right. }
  cbn [retryLoop Nat.leb Nat.ltb andb].
  destruct (runAttempt (generateVideos 2%nat p)) as [[[l2|e2] d2]|] eqn:A2;
    [| |discriminate].
  { intros H. inversion H; subst. cbn [attempts delays result app].
    rewrite !retryDelays_app, (retryDelays_attempt _ A1), (retryDelays_attempt _ A2).
    repeat split; try lia.
    - intros k Hk. assert (k = 1%nat) by lia. subst k. eauto.
    - eauto.
    - discriminate. }
  destruct (isInternalError e2) eqn:I2; cbn [andb].
  2:{ intros H. inversion H; subst. cbn [attempts delays result app throwLast].
      rewrite !retryDelays_app, (retryDelays_attempt _ A1), (retryDelays_attempt _ A2).
      repeat split; try lia.
      - intros k Hk. assert (k = 1%nat) by lia. subst k. eauto.
      - eauto.
      - intros e He. inversion He; subst. now right. }
  cbn [retryLoop Nat.leb Nat.ltb andb].
  destruct (runAttempt (generateVideos 3%nat p)) as [[[l3|e3] d3]|] eqn:A3;
    [| |discriminate].
  - intros H. inversion H; subst. cbn [attempts delays result app].
    rewrite !retryDelays_app, (retryDelays_attempt _ A1), (retryDelays_attempt _ A2),
      (retryDelays_attempt _ A3).
    repeat split; try lia.
    + intros k Hk. assert (k = 1 \/ k = 2)%nat as [->| ->] by lia; eauto.
    + eauto.
  - intros H. inversion H; subst. cbn [attempts delays result app throwLast].
    rewrite !retryDelays_app, (retryDelays_attempt _ A1), (retryDelays_attempt _ A2),
      (retryDelays_attempt _ A3).
    repeat split; try lia.
    + intros k Hk. assert (k = 1 \/ k = 2)%nat as [->| ->] by lia; eauto.
    + eauto.
Qed.

Lemma retry_loop_shape_witness :
  (exists r, generateAvatarVideo flakyVideos STUDIO "" = Some r /\ attempts r = 3%nat) /\
  (exists k, (1 <= k <= 3)%nat /\ settles (stuckVideos k (videoPrompt STUDIO "")) = false).
Proof.
  destruct (retry_loop_shape flakyVideos STUDIO "") as (Hends & _ & Hshape).
  destruct (retry_loop_shape stuckVideos STUDIO "") as (_ & Hnone & _).
  split.
  - destruct Hends as [r Hr].
    + intros k Hk. destruct k as [|[|[|[|k]]]]; try lia; reflexivity.
    + exists r. split; [exact Hr|].
      assert (E : generateAvatarVideo flakyVideos STUDIO ""
                  = Some (mkRun (Ok "https://video/1") [4000; 5000; 4000; 5000; 5000] 3))
        by (vm_compute; reflexivity).
      rewrite E in Hr. inversion Hr. reflexivity.
  - apply Hnone. vm_compute. reflexivity.
Defined.




(** ** Which errors are retried *)

Lemma prefix_spec n h : prefix n h = true <-> exists post, h = (n ++ post)%string.
Proof.
  revert h. induction n as [|a n IH]; intros h.
  - split; [intros _; now exists h|now destruct h].
  - destruct h as [|b h]; cbn;
      [split; [discriminate|intros [post H]; discriminate]|].
    destruct (ascii_dec a b) as [->|N].
    + rewrite IH. split; intros [post H]; exists post; [now rewrite H|now inversion H].
    + split; [discriminate|]. intros [post H]. inversion H. congruence.
Qed.

Lemma includes_unfold n h :
  Js.includes n h =
  if prefix n h then true
  else match h with
       | EmptyString => false
       | String _ h' => Js.includes n h'
       end.
Proof. destruct h; reflexivity. Qed.

Lemma includes_spec n h :
  Js.includes n h = true <-> exists pre post, h = (pre ++ n ++ post)%string.
Proof.
  split.
  - induction h as [|c h IH]; rewrite includes_unfold.
    + destruct (prefix n "") eqn:E; [|discriminate].
      intros _. apply prefix_spec in E. destruct E as [post E]. now exists "", post.
    + destruct (prefix n (String c h)) eqn:E.
      * intros _. apply prefix_spec in E. destruct E as [post E]. now exists "", post.
      * intros H. destruct (IH H) as (pre & post & ->). now exists (String c pre), post.
  - intros (pre & post & ->). induction pre as [|c pre IH]; rewrite includes_unfold.
    + assert (E : prefix n ("" ++ n ++ post) = true) by (apply prefix_spec; now exists post).
      now rewrite E.
    + cbn [append]. destruct (prefix n (String c (pre ++ n ++ post))); [reflexivity|exact IH].
Qed.

Lemma lowerChar_idempotent c : Js.lowerChar (Js.lowerChar c) = Js.lowerChar c.
Proof. destruct c as [[] [] [] [] [] [] [] []]; reflexivity. Qed.

Lemma toLowerCase_idempotent s : Js.toLowerCase (Js.toLowerCase s) = Js.toLowerCase s.
Proof.
  induction s as [|c s IH]; cbn; [reflexivity|].
  now rewrite lowerChar_idempotent, IH.
Qed.

(** X11: an error is classified as retryable exactly when it has a
    message whose lower-case form contains "internal" or "server"
    somewhere; an error without message never is; and the class of a
    message does not change when its capital letters are made small. *)
Theorem internal_error_classification (err : JsError) :
  (isInternalError err = true <->
   exists m pre post,
     message err = Some m /\
     (Js.toLowerCase m = (pre ++ "internal" ++ post)%string \/
      Js.toLowerCase m = (pre ++ "server" ++ post)%string)) /\
  (message err = None -> isInternalError err = false) /\
  (forall m, isInternalError (Error (Js.toLowerCase m)) = isInternalError (Error m)).
Proof.
  unfold isInternalError. split; [|split].
  - destruct (message err) as [m|].
    + rewrite orb_true_iff, !includes_spec. split.
      * intros [(pre & post & H)|(pre & post & H)]; exists m, pre, post; auto.
      * intros (m' & pre & post & Hm & H). inversion Hm; subst m'.
        destruct H as [H|H]; [left|right]; now exists pre, post.
    + split; [discriminate|]. intros (m & _ & _ & H & _). discriminate.
  - now intros ->.
  - intros m. cbn. now rewrite toLowerCase_idempotent.
Qed.

End GeminiExtras.

(** * More properties of the task poller *)

Section TripoExtras.

Import TripoService.
Local Open Scope Z_scope.

Variable env : Env.
Variable taskId : string.
Variable onProgress : bool.
Variable maxWaitMs : Z.
Variable t0 : Z.

Local Notation "'loop'" := (pollLoop env taskId onProgress maxWaitMs t0).
Local Notation "'after'" := (worldAfter env taskId onProgress t0).
Local Notation "'atCall'" := (worldAtCall env taskId onProgress t0).

Lemma pending_dec k :
  pending env taskId k \/
  (~ pending env taskId k /\
   (forall d, response (getTaskStatus env k taskId) = Ok d ->
              (statusString (status d) =? "success")%string = true \/
              isFailure (status d) = true)).
Proof.
  unfold pending. destruct (response (getTaskStatus env k taskId)) as [d|e] eqn:E.
  - destruct (status d) eqn:S;
      try (left; exists d; split; [reflexivity|auto]; fail);
      right; (split; [intros (d' & Hd & [H|H]); inversion Hd; subst; congruence|]);
      intros d' Hd; inversion Hd; subst; rewrite S; cbn; auto.
  - right. split; [intros (d & Hd & _); discriminate|]. discriminate.
Qed.

(** The run of the loop from the k-th look at the clock: some calls find
    the task pending, then the time is up or a call ends the polling. *)
Lemma pollLoop_cases fuel k r w :
  loop fuel (after k) = Some (r, w) ->
  exists n,
    (k <= n)%nat /\
    (forall j, (k <= j < n)%nat ->
               pending env taskId j /\ pollTime env taskId j < maxWaitMs) /\
    ((maxWaitMs <= pollTime env taskId n /\ r = Throw taskTimedOut /\ w = after n) \/
     (pollTime env taskId n < maxWaitMs /\ ~ pending env taskId n /\
      r = verdict taskId (response (getTaskStatus env n taskId)) /\ w = atCall n)).
Proof.
  revert k. induction fuel as [|fuel IH]; intros k.
  - cbn [pollLoop worldAfter now].
    replace (t0 + pollTime env taskId k - t0) with (pollTime env taskId k) by lia.
    destruct (Z.ltb_spec (pollTime env taskId k) maxWaitMs) as [Hx|Hx]; [discriminate|].
    intros H. inversion H; subst. exists k. split; [lia|]. split; [intros; lia|].
    left. auto.
  - destruct (Z.lt_ge_cases (pollTime env taskId k) maxWaitMs) as [Hlt|Hge].
    + destruct (pending_dec k) as [Hp|[Hn Ht]].
      * rewrite (@pending_step env taskId onProgress maxWaitMs t0 k fuel Hp Hlt).
        intros H. destruct (IH _ H) as (n & Hkn & Hpre & Hend).
        exists n. split; [lia|]. split; [|exact Hend].
        intros j Hj. destruct (Nat.eq_dec j k) as [->|]; [auto|apply Hpre; lia].
      * intros H. exists k. split; [lia|]. split; [intros; lia|]. right.
        split; [exact Hlt|]. split; [exact Hn|].
        cbn [pollLoop worldAfter now statusCalls progressCalls] in H.
        replace (t0 + pollTime env taskId k - t0) with (pollTime env taskId k) in H by lia.
        apply Z.ltb_lt in Hlt. rewrite Hlt in H.
        unfold verdict, worldAtCall. cbn [reports].
        destruct (response (getTaskStatus env k taskId)) as [d|e] eqn:E.
        -- cbn [now statusCalls progressCalls] in H.
           destruct (Ht d eq_refl) as [Hs|Hf].
           ++ rewrite Hs in *. inversion H; subst.
              split; [reflexivity|]. destruct onProgress; reflexivity.
           ++ destruct (statusString (status d) =? "success")%string;
                [|rewrite Hf in H]; inversion H; subst;
                (split; [reflexivity|]); destruct onProgress; reflexivity.
        -- inversion H; subst. split; [reflexivity|].
           destruct onProgress; [now rewrite app_nil_r|reflexivity].
    + cbn [pollLoop worldAfter now].
      replace (t0 + pollTime env taskId k - t0) with (pollTime env taskId k) by lia.
      destruct (Z.ltb_spec (pollTime env taskId k) maxWaitMs) as [Hx|Hx]; [lia|].
      intros H. inversion H; subst. exists k. split; [lia|]. split; [intros; lia|].
      left. auto.
Qed.

Lemma wait_cases r w :
  waitForTaskCompletion env taskId onProgress maxWaitMs (mkWorld t0 0 []) = Some (r, w) ->
  exists n,
    (forall j, (j < n)%nat ->
               pending env taskId j /\ pollTime env taskId j < maxWaitMs) /\
    ((maxWaitMs <= pollTime env taskId n /\ r = Throw taskTimedOut /\ w = after n) \/
     (pollTime env taskId n < maxWaitMs /\ ~ pending env taskId n /\
      r = verdict taskId (response (getTaskStatus env n taskId)) /\ w = atCall n)).
Proof.
  unfold waitForTaskCompletion. cbn [now].
  assert (E : mkWorld t0 0 [] = after 0%nat).
  { unfold worldAfter. cbn. destruct onProgress; f_equal; lia. }
  rewrite E. intros H. destruct (pollLoop_cases _ _ H) as (n & _ & Hpre & Hend).
  exists n. split; [|exact Hend]. intros j Hj. apply Hpre. lia.
Qed.

End TripoExtras.

Section TripoExtraTheorems.

Import TripoService.
Local Open Scope Z_scope.

Lemma success_status s : (statusString s =? "success")%string = true -> s = success.
Proof. destruct s; cbn; intros H; try discriminate; reflexivity. Qed.

Lemma ended_status env taskId n d :
  ~ pending env taskId n ->
  response (getTaskStatus env n taskId) = Ok d ->
  (statusString (status d) =? "success")%string = false ->
  In (status d) [failed; banned; expired; cancelled; unknown].
Proof.
  intros Hn Hd Hs. destruct (status d) eqn:S; cbn in Hs; try discriminate; cbn; auto 10;
    exfalso; apply Hn; exists d; auto.
Qed.

Lemma reports_length env taskId n :
  (forall j, (j < n)%nat -> exists d, response (getTaskStatus env j taskId) = Ok d) ->
  List.length (reports env taskId n) = n.
Proof.
  induction n as [|n IH]; intros H; [reflexivity|].
  cbn [reports]. rewrite length_app, IH by (intros; apply H; lia).
  destruct (H n ltac:(lia)) as [d ->]. cbn. lia.
Qed.

(** X12: the poller resolves only with a task whose status is success:
    the data it returns is what the last status call returned, every
    earlier call found the task queued or running, the last call was
    started within maxWaitMs, and the callback, when there is one, has
    been called exactly once per status call, in the order of the
    calls. *)
Theorem poller_resolves_only_on_success (env : Env) (taskId : string)
    (onProgress : bool) (maxWaitMs t0 : Z) d w :
  waitForTaskCompletion env taskId onProgress maxWaitMs (mkWorld t0 0 [])
    = Some (Ok d, w) ->
  status d = success /\
  exists n,
    statusCalls w = S n /\
    response (getTaskStatus env n taskId) = Ok d /\
    (forall j, (j < n)%nat -> pending env taskId j) /\
    pollTime env taskId n < maxWaitMs /\
    progressCalls w = (if onProgress then reports env taskId (S n) else []) /\
    List.length (reports env taskId (S n)) = S n.
Proof.
  intros H. destruct (wait_cases _ _ _ _ _ H) as (n & Hpre & Hend).
  destruct Hend as [(_ & Hr & _)|(Ht & Hn & Hr & ->)]; [discriminate|].
  unfold verdict in Hr.
  destruct (response (getTaskStatus env n taskId)) as [d'|e] eqn:E; [|discriminate].
  destruct (statusString (status d') =? "success")%string eqn:Hs; [|discriminate].
  inversion Hr; subst d'. split; [now apply success_status|].
  exists n. repeat split; auto.
  - intros j Hj. apply Hpre. exact Hj.
  - apply reports_length. intros j Hj.
    destruct (Nat.eq_dec j n) as [->|]; [eauto|].
    destruct (Hpre j ltac:(lia)) as [(dj & Hdj & _) _]. eauto.
Qed.

Lemma poller_resolves_only_on_success_witness :
  exists w,
    waitForTaskCompletion
      (scriptedStatus [(queued, 0); (running, 50); (success, 100)] 100) "task-1"
      true defaultMaxWaitMs (mkWorld 0 0 [])
    = Some (Ok (taskWith success 100), w) /\
    statusCalls w = 3%nat.
Proof.
  eexists. split; [vm_compute; reflexivity|].
  match goal with
  | |- statusCalls ?w = _ =>
      assert (H : waitForTaskCompletion
                    (scriptedStatus [(queued, 0); (running, 50); (success, 100)] 100)
                    "task-1" true defaultMaxWaitMs (mkWorld 0 0 [])
                  = Some (Ok (taskWith success 100), w)) by (vm_compute; reflexivity);
      destruct (poller_resolves_only_on_success _ _ _ _ _ H) as (_ & n & _)
  end.
  reflexivity.
Defined.

(** X13: the poller rejects in three ways only: with "Task timed out",
    at least maxWaitMs after its start; with the value a status call
    threw, at once and without another call; or with "Task <status>:
    <taskId>" for a status call that returned one of failed, banned,
    expired, cancelled and unknown. *)
Theorem poller_rejections (env : Env) (taskId : string)
    (onProgress : bool) (maxWaitMs t0 : Z) e w :
  waitForTaskCompletion env taskId onProgress maxWaitMs (mkWorld t0 0 [])
    = Some (Throw e, w) ->
  (e = taskTimedOut /\ maxWaitMs <= now w - t0) \/
  (exists n, statusCalls w = S n /\
             response (getTaskStatus env n taskId) = Throw e) \/
  (exists n d, statusCalls w = S n /\
               response (getTaskStatus env n taskId) = Ok d /\
               In (status d) [failed; banned; expired; cancelled; unknown] /\
               e = taskFailed (status d) taskId).
Proof.
  intros H. destruct (wait_cases _ _ _ _ _ H) as (n & Hpre & Hend).
  destruct Hend as [(Ht & Hr & ->)|(Ht & Hn & Hr & ->)].
  - left. inversion Hr; subst. split; [reflexivity|]. cbn [worldAfter now]. lia.
  - right. unfold verdict in Hr.
    destruct (response (getTaskStatus env n taskId)) as [d|e'] eqn:E.
    + right. destruct (statusString (status d) =? "success")%string eqn:Hs;
        [discriminate|]. inversion Hr; subst.
      exists n, d. repeat split; auto. eapply ended_status; eauto.
    + left. inversion Hr; subst. exists n. split; [reflexivity|exact E].
Qed.

Lemma poller_rejections_witness :
  exists w,
    waitForTaskCompletion (scriptedStatus [(queued, 0); (expired, 0)] 100) "task-1"
                          false defaultMaxWaitMs (mkWorld 0 0 [])
    = Some (Throw (Error "Task expired: task-1"), w) /\
    statusCalls w = 2%nat.
Proof.
  eexists. split; [vm_compute; reflexivity|].
  match goal with
  | |- statusCalls ?w = _ =>
      assert (H : waitForTaskCompletion (scriptedStatus [(queued, 0); (expired, 0)] 100)
                    "task-1" false defaultMaxWaitMs (mkWorld 0 0 [])
                  = Some (Throw (Error "Task expired: task-1"), w))
        by (vm_compute; reflexivity);
      pose proof (poller_rejections _ _ _ _ _ H) as [_|_]
  end; reflexivity.
Defined.

(** X14: the poller never makes more than maxWaitMs / 3000 + 1 status
    calls (101 with the default of five minutes), and starts none that
    would begin maxWaitMs or more after its start; with a limit of zero
    or less it makes no call at all and rejects with "Task timed out" at
    once; the callback is called at most once per status call, and the
    progress log stays empty when no callback was passed. *)
Theorem poller_call_bound (env : Env) (taskId : string)
    (onProgress : bool) (maxWaitMs t0 : Z) r w :
  waitForTaskCompletion env taskId onProgress maxWaitMs (mkWorld t0 0 [])
    = Some (r, w) ->
  (statusCalls w <= pollFuel maxWaitMs)%nat /\
  pollFuel defaultMaxWaitMs = 101%nat /\
  (forall n, statusCalls w = S n -> pollTime env taskId n < maxWaitMs) /\
  (maxWaitMs <= 0 -> r = Throw taskTimedOut /\ w = mkWorld t0 0 []) /\
  (List.length (progressCalls w) <= statusCalls w)%nat /\
  (onProgress = false -> progressCalls w = []).
Proof.
  intros H. destruct (wait_cases _ _ _ _ _ H) as (n & Hpre & Hend).
  assert (Hrep : forall m, (List.length (reports env taskId m) <= m)%nat).
  { induction m as [|m IH]; [cbn; lia|]. cbn [reports]. rewrite length_app.
    destruct (response (getTaskStatus env m taskId)); cbn; lia. }
  assert (Hcalls : forall m, pollTime env taskId m < maxWaitMs ->
                             (S m <= pollFuel maxWaitMs)%nat).
  { intros m Hm. pose proof (pollTime_lower env taskId m) as Hl.
    unfold pollFuel, pollInterval in *.
    assert (Z.of_nat m <= maxWaitMs / 3000) by (apply Z.div_le_lower_bound; lia).
    lia. }
  split; [|split; [reflexivity|split; [|split; [|split]]]].
  - destruct Hend as [(_ & _ & ->)|(Ht & _ & _ & ->)]; cbn [worldAfter worldAtCall statusCalls].
    + destruct n as [|n]; [lia|].
      destruct (Hpre n ltac:(lia)) as [_ Ht]. apply (Hcalls n Ht).
    + apply (Hcalls n Ht).
  - intros m Hm.
    destruct Hend as [(_ & _ & ->)|(Ht & _ & _ & ->)];
      cbn [worldAfter worldAtCall statusCalls] in Hm.
    + subst n. destruct (Hpre m ltac:(lia)) as [_ Ht]. exact Ht.
    + inversion Hm; subst. exact Ht.
  - intros Hz. assert (Hn0 : n = 0%nat).
    { destruct n as [|n]; [reflexivity|exfalso].
      destruct (Hpre 0%nat ltac:(lia)) as [_ Ht]. cbn in Ht. lia. }
    subst n. destruct Hend as [(_ & -> & ->)|(Ht & _)]; [|cbn in Ht; lia].
    split; [reflexivity|]. unfold worldAfter. cbn. destruct onProgress; f_equal; lia.
  - destruct Hend as [(_ & _ & ->)|(_ & _ & _ & ->)];
      cbn [worldAfter worldAtCall statusCalls progressCalls];
      destruct onProgress; cbn [List.length]; try lia; apply Hrep.
  - intros ->. destruct Hend as [(_ & _ & ->)|(_ & _ & _ & ->)]; reflexivity.
Qed.

Lemma poller_call_bound_witness :
  exists w,
    waitForTaskCompletion (scriptedStatus [(running, 10)] 200) "task-1" true
                          9000 (mkWorld 0 0 [])
    = Some (Throw taskTimedOut, w) /\
    (statusCalls w <= pollFuel 9000)%nat.
Proof.
  eexists. split; [vm_compute; reflexivity|].
  match goal with
  | |- (statusCalls ?w <= _)%nat =>
      assert (H : waitForTaskCompletion (scriptedStatus [(running, 10)] 200) "task-1"
                    true 9000 (mkWorld 0 0 []) = Some (Throw taskTimedOut, w))
        by (vm_compute; reflexivity);
      destruct (poller_call_bound _ _ _ _ _ H) as (H1 & _)
  end.
  exact H1.
Defined.

(** X15: the first status call that does not find the task queued or
    running decides, provided it is started within maxWaitMs: the poller
    ends then and there, resolving with the data when the status is
    success, rejecting with "Task <status>: <taskId>" for any other
    status, and rejecting with the value thrown when the call itself
    throws (a failed status request is not retried). *)
Theorem first_ended_call_decides (env : Env) (taskId : string)
    (onProgress : bool) (maxWaitMs t0 : Z) (n : nat) :
  (forall k, (k < n)%nat -> pending env taskId k) ->
  ~ pending env taskId n ->
  pollTime env taskId n < maxWaitMs ->
  waitForTaskCompletion env taskId onProgress maxWaitMs (mkWorld t0 0 [])
  = Some (verdict taskId (response (getTaskStatus env n taskId)),
          worldAtCall env taskId onProgress t0 n).
Proof.
  intros Hp Hn Ht.
  destruct (@poll_reached env taskId onProgress maxWaitMs t0 n Hp Ht) as [f ->].
  unfold verdict.
  destruct (response (getTaskStatus env n taskId)) as [d|e] eqn:E.
  - rewrite (@terminal_poll env taskId onProgress maxWaitMs t0 n d f Ht E).
    + reflexivity.
    + destruct (statusString (status d) =? "success")%string eqn:Hs; [now left|right].
      pose proof (ended_status Hn E Hs) as Hin. cbn in Hin.
      destruct Hin as [<-|[<-|[<-|[<-|[<-|[]]]]]]; reflexivity.
  - cbn [pollLoop worldAfter now statusCalls progressCalls].
    replace (t0 + pollTime env taskId n - t0) with (pollTime env taskId n) by lia.
    apply Z.ltb_lt in Ht. rewrite Ht, E. unfold worldAtCall. cbn [reports].
    rewrite E. destruct onProgress; [now rewrite app_nil_r|reflexivity].
Qed.

Lemma first_ended_call_decides_witness :
  waitForTaskCompletion
    (mkEnv (fun k _ => match k with
                       | O => mkCall (Ok (taskWith running 20)) 150
                       | _ => mkCall (Throw (Error "Get task failed: 502 - Bad Gateway")) 80
                       end)
           (fun _ => 0%N))
    "task-1" true defaultMaxWaitMs (mkWorld 0 0 [])
  = Some (Throw (Error "Get task failed: 502 - Bad Gateway"),
          mkWorld 3230 2 [(20, "running")]).
Proof.
  rewrite (@first_ended_call_decides _ "task-1" true defaultMaxWaitMs 0 1).
  - reflexivity.
  - intros k Hk. assert (k = 0%nat) by lia. subst k.
    exists (taskWith running 20). split; [reflexivity|now right].
  - intros (d & Hd & _). discriminate.
  - reflexivity.
Defined.

(** ** The HTTP calls and the flow of [generate3DModel] *)

(** X16: each of the three provider calls (upload, task start, task
    status) returns the data of the answer exactly when the HTTP response
    is OK and its JSON envelope has code 0.  A response that is not OK is
    reported as "<what> failed: <status> - <body>" from its text alone:
    its JSON is never read; an envelope with another code is reported as
    "<what> error: code <code>".  The status and the code are integers
    that JavaScript prints digit by digit (of absolute value up to
    2^53 - 1). *)
Theorem provider_call_unwraps_envelope {A : Type} (failed error : string)
    (fetched : Result (Http.Response (Http.Coded A))) :
  (forall a,
     Http.unwrap failed error fetched = Ok a <->
     exists response envelope,
       fetched = Ok response /\ Http.ok response = true /\
       Http.json response = Ok envelope /\ Js.value (Http.code envelope) = 0 /\
       Http.data envelope = a) /\
  (forall response body,
     fetched = Ok response -> Http.ok response = false ->
     Http.text response = Ok body ->
     Http.unwrap failed error fetched
     = Throw (Error (failed ++ ": " ++ Js.decimal (Http.status response)
                     ++ " - " ++ body)%string)) /\
  (forall response envelope,
     fetched = Ok response -> Http.ok response = true ->
     Http.json response = Ok envelope -> Js.value (Http.code envelope) <> 0 ->
     Http.unwrap failed error fetched
     = Throw (Error (error ++ ": code " ++ Js.decimal (Http.code envelope))%string)) /\
  Http.uploadImageToTripo = Http.unwrap "Upload failed" "Upload error" /\
  Http.startImageToModelTask = Http.unwrap "Task creation failed" "Task creation error" /\
  Http.getTaskStatus = Http.unwrap "Get task failed" "Get task error".
Proof.
  unfold Http.unwrap. split; [|split; [|split; [|repeat split]]].
  - intros a. split.
    + destruct fetched as [response|e]; [|discriminate].
      destruct (Http.ok response) eqn:Hok; cbn.
      * destruct (Http.json response) as [envelope|e] eqn:Hj; [|discriminate].
        destruct (Z.eqb_spec (Js.value (Http.code envelope)) 0) as [Hc|Hc]; cbn;
          [|discriminate].
        intros H. inversion H; subst. exists response, envelope. auto.
      * destruct (Http.text response); discriminate.
    + intros (response & envelope & -> & Hok & Hj & Hc & <-).
      rewrite Hok, Hj, Hc. reflexivity.
  - intros response body -> Hok Ht. now rewrite Hok, Ht.
  - intros response envelope -> Hok Hj Hc. rewrite Hok, Hj. cbn.
    destruct (Z.eqb_spec (Js.value (Http.code envelope)) 0); [contradiction|reflexivity].
Qed.

Lemma provider_call_unwraps_envelope_witness :
  Http.getTaskStatus
    (Ok (Http.mkResponse false (Js.mkInt 404 eq_refl) (Ok "not found")
                         (Throw (Error "Unexpected token < in JSON"))))
  = Throw (Error "Get task failed: 404 - not found") /\
  Http.uploadImageToTripo
    (Ok (Http.mkResponse true (Js.mkInt 200 eq_refl) (Ok "")
                         (Ok (Http.mkCoded (Js.mkInt (-2010) eq_refl) ""))))
  = Throw (Error "Upload error: code -2010").
Proof.
  split.
  - destruct (@provider_call_unwraps_envelope TaskData "Get task failed" "Get task error"
                (Ok (Http.mkResponse false (Js.mkInt 404 eq_refl) (Ok "not found")
                                     (Throw (Error "Unexpected token < in JSON")))))
      as (_ & H & _).
    exact (H (Http.mkResponse false (Js.mkInt 404 eq_refl) (Ok "not found")
                              (Throw (Error "Unexpected token < in JSON")))
             "not found" eq_refl eq_refl eq_refl).
  - destruct (@provider_call_unwraps_envelope string "Upload failed" "Upload error"
                (Ok (Http.mkResponse true (Js.mkInt 200 eq_refl) (Ok "")
                       (Ok (Http.mkCoded (Js.mkInt (-2010) eq_refl) "")))))
      as (_ & _ & H & _).
    exact (H (Http.mkResponse true (Js.mkInt 200 eq_refl) (Ok "")
                (Ok (Http.mkCoded (Js.mkInt (-2010) eq_refl) "")))
             (Http.mkCoded (Js.mkInt (-2010) eq_refl) "")
             eq_refl eq_refl eq_refl ltac:(discriminate)).
Defined.

Lemma split_nonempty sep s : Js.split sep s <> [].
Proof.
  destruct s as [|c s]; cbn; [discriminate|].
  destruct (Ascii.eqb c sep); [discriminate|].
  destruct (Js.split sep s); discriminate.
Qed.

Lemma split_without sep s : Js.without sep s = true -> Js.split sep s = [s].
Proof.
  induction s as [|c s IH]; cbn; [reflexivity|].
  rewrite andb_true_iff, negb_true_iff. intros [Hc Hs].
  now rewrite Hc, (IH Hs).
Qed.

Lemma split_at sep t rest :
  Js.without sep t = true ->
  Js.split sep (t ++ String sep rest) = t :: Js.split sep rest.
Proof.
  induction t as [|c t IH]; cbn.
  - intros _. now rewrite Ascii.eqb_refl.
  - rewrite andb_true_iff, negb_true_iff. intros [Hc Ht].
    now rewrite Hc, (IH Ht).
Qed.

(** X17: the image is uploaded under the name "avatar.<ext>", where
    <ext> is what stands between the first and the second slash of the
    MIME type (or after the first, when there is no second); it is "png"
    when the MIME type has no slash or nothing stands there. *)
Theorem upload_file_extension :
  (forall mimeType,
     Js.without "/" mimeType = true -> Http.extension mimeType = "png") /\
  (forall type subtype,
     Js.without "/" type = true -> Js.without "/" subtype = true ->
     Http.extension (type ++ "/" ++ subtype)
     = if (subtype =? "")%string then "png" else subtype) /\
  (forall type subtype rest,
     Js.without "/" type = true -> Js.without "/" subtype = true ->
     Http.extension (type ++ "/" ++ subtype ++ "/" ++ rest)
     = if (subtype =? "")%string then "png" else subtype) /\
  (forall mimeType,
     Http.fileName mimeType = ("avatar." ++ Http.extension mimeType)%string /\
     Http.extension mimeType <> "").
Proof.
  unfold Http.extension. split; [|split; [|split]].
  - intros m Hm. now rewrite split_without by exact Hm.
  - intros t sub Ht Hs. cbn [append].
    rewrite split_at by exact Ht. now rewrite split_without by exact Hs.
  - intros t sub rest Ht Hs. cbn [append].
    rewrite split_at by exact Ht. now rewrite split_at by exact Hs.
  - intros m. split; [reflexivity|]. unfold Js.orElse.
    destruct (String.eqb_spec (nth 1 (Js.split "/" m) "") ""); [discriminate|assumption].
Qed.

Lemma upload_file_extension_witness :
  Http.extension "image/jpeg" = "jpeg" /\ Http.extension "image/" = "png" /\
  Http.extension "png" = "png".
Proof.
  destruct upload_file_extension as (H1 & H2 & _).
  split; [exact (H2 "image" "jpeg" eq_refl eq_refl)|].
  split; [exact (H2 "image" "" eq_refl eq_refl)|exact (H1 "png" eq_refl)].
Defined.

(** X18: once the task has succeeded with a model URL, [generate3DModel]
    returns whatever the downloads do.  The source is the PBR model when
    there is one and the plain model otherwise; the data URL is returned
    as soon as the download succeeds; the model URL is the local object
    URL when that could be made too, and the provider's URL when the
    download or the making of the object URL fails. *)
Theorem model_download_is_best_effort (env : ModelEnv)
    (imageBase64 mimeType : string) (onProgress : bool) (t0 : Z)
    (imageToken taskId : string) (d : TaskData) (w : World) :
  uploadImageToTripo env imageBase64 mimeType = Ok imageToken ->
  startImageToModelTask env imageToken = Ok taskId ->
  waitForTaskCompletion (statusEnv env) taskId true defaultMaxWaitMs (mkWorld t0 0 [])
    = Some (Ok d, w) ->
  Js.truthy (model (output d)) || Js.truthy (pbr_model (output d)) = true ->
  exists res log source,
    generate3DModel env imageBase64 mimeType onProgress t0 = Some (Ok res, log) /\
    source <> "" /\
    (if Js.truthy (pbr_model (output d))
     then pbr_model (output d) = Some source
     else model (output d) = Some source) /\
    pbrModelUrl res = pbr_model (output d) /\
    (forall e, downloadAsBase64 env source = Throw e ->
               modelUrl res = source /\ modelBase64 res = None) /\
    (forall base64,
       downloadAsBase64 env source = Ok base64 ->
       modelBase64 res = Some base64 /\
       (forall local, objectUrl env base64 = Ok local -> modelUrl res = local) /\
       (forall e, objectUrl env base64 = Throw e -> modelUrl res = source)).
Proof.
  intros Hu Hs Hw Hurl. unfold generate3DModel. rewrite Hu, Hs, Hw.
  assert (Hno : negb (Js.truthy (model (output d))) &&
                negb (Js.truthy (pbr_model (output d))) = false).
  { destruct (Js.truthy (model (output d))), (Js.truthy (pbr_model (output d)));
      cbn in *; congruence. }
  rewrite Hno. cbv zeta.
  set (source := urlOr (orUrl (pbr_model (output d)) (model (output d))) "").
  assert (Hsrc : source <> "" /\
                 (if Js.truthy (pbr_model (output d))
                  then pbr_model (output d) = Some source
                  else model (output d) = Some source)).
  { unfold source, orUrl, urlOr, Js.orElse.
    destruct (pbr_model (output d)) as [u|] eqn:Hp; cbn [Js.truthy] in *.
    - destruct (String.eqb_spec u ""); cbn [negb] in *.
      + destruct (model (output d)) as [v|]; cbn [Js.truthy] in *; [|discriminate].
        destruct (String.eqb_spec v ""); cbn in *; [discriminate|auto].
      + destruct (String.eqb_spec u ""); [contradiction|auto].
    - destruct (model (output d)) as [v|]; cbn [Js.truthy] in *; [|discriminate].
      destruct (String.eqb_spec v ""); cbn in *; [discriminate|auto]. }
  destruct Hsrc as [Hne Hsel].
  eexists _, _, source. split; [reflexivity|]. split; [exact Hne|].
  split; [exact Hsel|]. split; [reflexivity|]. cbn [modelUrl modelBase64].
  unfold tryDownload. split.
  - intros e ->. split; reflexivity.
  - intros base64 ->. split; [destruct (objectUrl env base64); reflexivity|].
    split; [intros local ->|intros e ->]; reflexivity.
Qed.

Lemma model_download_is_best_effort_witness :
  exists log,
    generate3DModel exampleModelEnv "iVBORw0KGgo=" "image/png" true 0
    = Some (Ok (mkModel "model.glb" (Some "data:model.glb") None None), log).
Proof.
  assert (Hw : exists w,
             waitForTaskCompletion (statusEnv exampleModelEnv) "task-1" true
                                   defaultMaxWaitMs (mkWorld 0 0 [])
             = Some (Ok (taskWith success 100), w))
    by (eexists; vm_compute; reflexivity).
  destruct Hw as [w Hw].
  destruct (@model_download_is_best_effort exampleModelEnv "iVBORw0KGgo=" "image/png"
              true 0 "token-1" "task-1" (taskWith success 100) w
              eq_refl eq_refl Hw eq_refl)
    as (res & log & source & H & _).
  exists log. rewrite H. f_equal. f_equal.
  vm_compute in H. inversion H. reflexivity.
Defined.

(** X19: before the download stage nothing is swallowed:
    [generate3DModel] throws what the upload, the start of the task or
    the poller throws, and throws "No model URL in response" when the
    task succeeded with neither a model nor a PBR model URL; in all these
    cases the download is never announced to the progress callback.  The
    function always comes to an end. *)
Theorem model_flow_failures (env : ModelEnv) (imageBase64 mimeType : string)
    (onProgress : bool) (t0 : Z) :
  let run := generate3DModel env imageBase64 mimeType onProgress t0 in
  let announced (log : list (string * Percent)) :=
    In ("Downloading 3D model...", Exactly 92) log in
  run <> None /\
  (forall e, uploadImageToTripo env imageBase64 mimeType = Throw e ->
             exists log, run = Some (Throw e, log) /\ ~ announced log) /\
  (forall imageToken e,
     uploadImageToTripo env imageBase64 mimeType = Ok imageToken ->
     startImageToModelTask env imageToken = Throw e ->
     exists log, run = Some (Throw e, log) /\ ~ announced log) /\
  (forall imageToken taskId e w,
     uploadImageToTripo env imageBase64 mimeType = Ok imageToken ->
     startImageToModelTask env imageToken = Ok taskId ->
     waitForTaskCompletion (statusEnv env) taskId true defaultMaxWaitMs
                           (mkWorld t0 0 []) = Some (Throw e, w) ->
     exists log, run = Some (Throw e, log) /\ ~ announced log) /\
  (forall imageToken taskId d w,
     uploadImageToTripo env imageBase64 mimeType = Ok imageToken ->
     startImageToModelTask env imageToken = Ok taskId ->
     waitForTaskCompletion (statusEnv env) taskId true defaultMaxWaitMs
                           (mkWorld t0 0 []) = Some (Ok d, w) ->
     Js.truthy (model (output d)) = false ->
     Js.truthy (pbr_model (output d)) = false ->
     exists log, run = Some (Throw (Error "No model URL in response"), log) /\
                 ~ announced log).
Proof.
  cbv zeta.
  assert (Hpoll : forall (l : list (Z * string)) m,
             ~ In (m, Exactly 92)
                  (map (fun ps => ("Generating 3D model (" ++ snd ps ++ ")...",
                                   Adjusted (fst ps))%string) l)).
  { intros l m Hin. apply in_map_iff in Hin. destruct Hin as (x & Hx & _).
    discriminate. }
  unfold generate3DModel. split; [|split; [|split; [|split]]].
  - destruct (uploadImageToTripo env imageBase64 mimeType) as [token|e]; [|discriminate].
    destruct (startImageToModelTask env token) as [taskId|e]; [|discriminate].
    destruct (waitForTaskCompletion _ _ _ _ _) as [[[d|e] w]|] eqn:Hw.
    + destruct (_ && _); discriminate.
    + discriminate.
    + exfalso. revert Hw. unfold waitForTaskCompletion.
      apply (@pollLoop_fuel (statusEnv env) taskId true defaultMaxWaitMs t0).
      cbn [now]. pose proof (pollFuel_covers defaultMaxWaitMs). lia.
  - intros e ->. eexists. split; [reflexivity|].
    destruct onProgress; cbn; [intros [H|[]]; discriminate|tauto].
  - intros token e -> ->. eexists. split; [reflexivity|].
    destruct onProgress; cbn; [intros [H|[H|[]]]; discriminate|tauto].
  - intros token taskId e w -> -> ->. eexists. split; [reflexivity|].
    destruct onProgress; cbn [app]; [|intros []].
    intros [H|[H|H]]; try discriminate. exact (Hpoll _ _ H).
  - intros token taskId d w -> -> -> Hm Hp. rewrite Hm, Hp. cbn [negb andb].
    eexists. split; [reflexivity|].
    destruct onProgress; cbn [app]; [|intros []].
    intros [H|[H|H]]; try discriminate. exact (Hpoll _ _ H).
Qed.

Lemma model_flow_failures_witness :
  exists log,
    generate3DModel
      (mkModelEnv (fun _ _ => Throw (Error "Upload failed: 413 - too large"))
                  (fun _ => Ok "task-1") (fun url => Ok url) (fun url => Ok url)
                  (scriptedStatus [(success, 100)] 100))
      "iVBORw0KGgo=" "image/png" true 0
    = Some (Throw (Error "Upload failed: 413 - too large"), log).
Proof.
  destruct (model_flow_failures
              (mkModelEnv (fun _ _ => Throw (Error "Upload failed: 413 - too large"))
                          (fun _ => Ok "task-1") (fun url => Ok url) (fun url => Ok url)
                          (scriptedStatus [(success, 100)] 100))
              "iVBORw0KGgo=" "image/png" true 0) as (_ & H & _).
  destruct (H (Error "Upload failed: 413 - too large") eq_refl) as (log & Hlog & _).
  exists log. exact Hlog.
Defined.

End TripoExtraTheorems.

(** * Properties of the handlers *)

Section SessionExtras.

Import Session.
Local Open Scope Z_scope.

Lemma loop_run_fuel env prompt : App.executeGenerationLoop env prompt [] <> App.OutOfFuel.
Proof.
  unfold App.executeGenerationLoop, App.bind, App.ret.
  pose proof (critiqueLoop_fuel env prompt) as H.
  destruct (App.critiqueLoop env prompt []); [discriminate|discriminate|contradiction].
Qed.

(** The video step does not return when the generator does not;
    otherwise it ends in [COMPLETE] with the object URL stored, or in
    [ERROR] with nothing but the error changed. *)
Lemma startVideoGeneration_cases P image s :
  (generateAvatarVideo P image = None /\ startVideoGeneration P image s = None) \/
  (exists videoUri videoObjectUrl,
     generateAvatarVideo P image = Some (Ok videoUri) /\
     fetchOk P videoUri = Ok true /\
     objectUrl P videoUri = Ok videoObjectUrl /\
     startVideoGeneration P image s
     = Some (setStep COMPLETE (setGeneratedVideoUrl (Some videoObjectUrl) s))) \/
  (generateAvatarVideo P image <> None /\
   (exists m, startVideoGeneration P image s = Some (setStep ERROR (setError m s))) /\
   ~ exists videoUri videoObjectUrl,
       generateAvatarVideo P image = Some (Ok videoUri) /\
       fetchOk P videoUri = Ok true /\
       objectUrl P videoUri = Ok videoObjectUrl).
Proof.
  unfold startVideoGeneration.
  destruct (generateAvatarVideo P image) as [[uri|e]|] eqn:Hg; [| |now left].
  - destruct (fetchOk P uri) as [[|]|e] eqn:Hf.
    + destruct (objectUrl P uri) as [url|e] eqn:Ho.
      * right. left. exists uri, url. auto.
      * right. right. split; [discriminate|]. split; [eexists; reflexivity|].
        intros (u & v & Hu & _ & Hv). inversion Hu; subst. congruence.
    + right. right. split; [discriminate|]. split; [eexists; reflexivity|].
      intros (u & v & Hu & Hv & _). inversion Hu; subst. congruence.
    + right. right. split; [discriminate|]. split; [eexists; reflexivity|].
      intros (u & v & Hu & Hv & _). inversion Hu; subst. congruence.
  - right. right. split; [discriminate|]. split; [eexists; reflexivity|].
    intros (u & v & Hu & _). discriminate.
Qed.

Lemma errorText_nonempty e : errorText e <> "".
Proof.
  unfold errorText, Js.orElse. destruct (message e) as [m|]; [|discriminate].
  destruct (String.eqb_spec m ""); [discriminate|assumption].
Qed.

(** A run that asks for approval went three times round the loop, and its
    last critique is below the threshold. *)
Lemma unsatisfied_exit env prompt st t :
  App.critiqueLoop env prompt [] = App.Done st t ->
  App.isSatisfied st = false ->
  List.length (App.generated t) = 4%nat /\
  exists r i c, App.critiques t = r ++ [(i, c)] /\ App.score c < App.QUALITY_THRESHOLD.
Proof.
  intros H Hs. destruct (critiqueLoop_Done _ _ H) as (v1 & t1 & _ & _ & I & Hg).
  apply guard_false in Hg. destruct Hg as [Hg|Hg]; [|congruence].
  pose proof (App.inv_loops I) as Hl. unfold App.MAX_REFINEMENT_LOOPS in *.
  assert (El : App.loops st = 3%nat) by lia.
  split; [rewrite (App.inv_generated I); lia|].
  pose proof (App.inv_critiques I) as Hc. rewrite Hs, El in Hc.
  pose proof (App.inv_last I) as Hlast. rewrite Hs in Hlast. destruct Hlast as [_ Hlast].
  destruct (App.critiques t) as [|x l] eqn:E using rev_ind; [discriminate|].
  clear IHl. destruct x as [i c]. exists l, i, c. split; [reflexivity|].
  unfold App.scores in Hlast. rewrite E, map_app in Hlast.
  apply Forall_app in Hlast. destruct Hlast as [_ Hlast].
  inversion Hlast; subst. assumption.
Qed.

Lemma restoreBest_isSatisfied st :
  App.isSatisfied (App.restoreBest st) = App.isSatisfied st.
Proof. unfold App.restoreBest. now destruct (negb _). Qed.

(** The handler returns unless the video generator is called and does
    not return. *)
Lemma run_cases P initialPrompt initialFeedback s :
  (exists s', executeGenerationLoop P initialPrompt initialFeedback s = Some s') \/
  (executeGenerationLoop P initialPrompt initialFeedback s = None /\
   exists prompt r t image,
     App.executeGenerationLoop (loopEnv P) prompt [] = App.Done r t /\
     App.next r = App.GENERATING_VIDEO image /\
     generateAvatarVideo P image = None).
Proof.
  unfold executeGenerationLoop.
  destruct (establishPrompt P initialPrompt initialFeedback) as [[prompt b]|e]; [|eauto].
  destruct (App.executeGenerationLoop (loopEnv P) prompt []) as [r t|e t|] eqn:Hrun.
  - destruct (App.next r) as [|image] eqn:Hn; [eauto|].
    match goal with
    | |- context [startVideoGeneration P image ?x] =>
        destruct (startVideoGeneration_cases P image x)
          as [[Hg ->]|[(uri & url & _ & _ & _ & ->)|(_ & (m & ->) & _)]]
    end; [|eauto|eauto].
    right. split; [reflexivity|]. exists prompt, r, t, image. auto.
  - eauto.
  - exfalso. exact (@loop_run_fuel _ _ Hrun).
Qed.

(** A refiner that hands every prompt back leaves the prompt of the run
    as it was. *)
Lemma iterations_same_prompt env prompt x y :
  (forall k p c p', App.refinePrompt env k p c = Ok p' -> p' = p) ->
  App.iterations env x y ->
  App.currentPrompt (fst x) = prompt /\ Forall (eq prompt) (App.refinements (snd x)) ->
  App.currentPrompt (fst y) = prompt /\ Forall (eq prompt) (App.refinements (snd y)).
Proof.
  intros Hid Hit. induction Hit as [x|x y z _ IH Hstep]; [auto|].
  intros Hx. specialize (IH Hx). destruct IH as [Hp Hr].
  destruct Hstep as [st t st' t' _ Hbody]. cbn [fst snd] in *.
  apply loopBody_Done in Hbody. destruct Hbody as (c & _ & Hcase). cbv zeta in Hcase.
  destruct Hcase as [(_ & -> & ->)|(_ & p & img & Href & _ & -> & ->)].
  - rewrite refinements_app. cbn. rewrite app_nil_r. auto.
  - apply Hid in Href. subst p. rewrite refinements_app. cbn. split; [auto|].
    apply Forall_app. split; [exact Hr|]. constructor; [auto|constructor].
Qed.

End SessionExtras.

Section SessionExtraTheorems.

Import Session.
Local Open Scope Z_scope.

(** X20: a run of the component's [executeGenerationLoop] returns
    unless it reaches the video generator and that never returns (it
    polls without a deadline), which happens only after a satisfied
    loop.  When the run returns it has come to rest in one of the steps
    AWAITING_APPROVAL, COMPLETE and ERROR.  A video URL is on display
    exactly when the step is COMPLETE; an error text is set only in step
    ERROR; in step AWAITING_APPROVAL the loop counter shows 3, an image
    is on display and the critique on display scores below the
    threshold.  The feedback field is left as it was. *)
Theorem run_ends_settled (P : Providers) (initialPrompt initialFeedback : option string)
    (s : State) :
  let run := executeGenerationLoop P initialPrompt initialFeedback s in
  ((forall image, generateAvatarVideo P image <> None) -> exists s', run = Some s') /\
  (run = None ->
   exists prompt r t image,
     App.executeGenerationLoop (loopEnv P) prompt [] = App.Done r t /\
     App.next r = App.GENERATING_VIDEO image /\
     generateAvatarVideo P image = None) /\
  (forall s',
     run = Some s' ->
     (step s' = AWAITING_APPROVAL \/ step s' = COMPLETE \/ step s' = ERROR) /\
     (step s' = COMPLETE <-> generatedVideoUrl s' <> None) /\
     (error s' <> None -> step s' = ERROR) /\
     (step s' = AWAITING_APPROVAL ->
        loopCount s' = App.MAX_REFINEMENT_LOOPS /\
        generatedImage s' <> None /\
        exists c, critique s' = Some c /\ App.score c < App.QUALITY_THRESHOLD) /\
     userFeedback s' = userFeedback s).
Proof.
  cbv zeta. split; [|split].
  - intros Hv.
    destruct (run_cases P initialPrompt initialFeedback s)
      as [H|(_ & prompt & r & t & image & _ & _ & Hg)]; [exact H|].
    exfalso. exact (Hv image Hg).
  - intros Hnone.
    destruct (run_cases P initialPrompt initialFeedback s) as [(s' & H)|(_ & H)];
      [congruence|exact H].
  - intros s'. unfold executeGenerationLoop.
    destruct (establishPrompt P initialPrompt initialFeedback) as [[prompt b]|e].
    + destruct (App.executeGenerationLoop (loopEnv P) prompt []) as [r t|e t|] eqn:Hrun.
      * destruct (executeGenerationLoop_Done _ _ Hrun) as (st & Hc & _ & _ & Hn).
        rewrite Hn, restoreBest_isSatisfied.
        destruct (App.isSatisfied st) eqn:Hs; cbn [negb].
        -- match goal with
           | |- context [startVideoGeneration P ?i ?x] =>
               destruct (startVideoGeneration_cases P i x)
                 as [[_ ->]|[(uri & url & _ & _ & _ & ->)|(_ & (m & ->) & _)]]
           end; [discriminate| |]; intros H; injection H as <-; destruct b; cbn.
           ++ split; [auto|]. split; [split; [discriminate|reflexivity]|].
              split; [congruence|]. split; [discriminate|reflexivity].
           ++ split; [auto|]. split; [split; [discriminate|reflexivity]|].
              split; [congruence|]. split; [discriminate|reflexivity].
           ++ split; [auto|]. split; [split; [discriminate|congruence]|].
              split; [auto|]. split; [discriminate|reflexivity].
           ++ split; [auto|]. split; [split; [discriminate|congruence]|].
              split; [auto|]. split; [discriminate|reflexivity].
        -- destruct (unsatisfied_exit _ _ Hc Hs) as (Hg & l & i & c & E & Hsc).
           intros H. injection H as <-.
           assert (Hshown : forall x,
                      loopCount (shown t x) = App.MAX_REFINEMENT_LOOPS /\
                      critique (shown t x) = Some c).
           { intros x. unfold shown. cbn. rewrite Hg, E, rev_app_distr. cbn. auto. }
           destruct b; cbn - [shown].
           ++ split; [auto|]. split; [split; [discriminate|]|].
              { cbn. congruence. }
              split; [cbn; congruence|]. split; [intros _|reflexivity].
              split; [apply Hshown|]. split; [discriminate|].
              exists c. split; [apply Hshown|exact Hsc].
           ++ split; [auto|]. split; [split; [discriminate|]|].
              { cbn. congruence. }
              split; [cbn; congruence|]. split; [intros _|reflexivity].
              split; [apply Hshown|]. split; [discriminate|].
              exists c. split; [apply Hshown|exact Hsc].
      * intros H. injection H as <-. destruct b; cbn.
        -- split; [auto|]. split; [split; [discriminate|congruence]|].
           split; [auto|]. split; [discriminate|reflexivity].
        -- split; [auto|]. split; [split; [discriminate|congruence]|].
           split; [auto|]. split; [discriminate|reflexivity].
      * exfalso. exact (@loop_run_fuel _ _ Hrun).
    + intros H. injection H as <-. cbn.
      split; [auto|]. split; [split; [discriminate|congruence]|].
      split; [auto|]. split; [discriminate|reflexivity].
Qed.

Lemma run_ends_settled_witness :
  (exists s', executeGenerationLoop (scriptedProviders [60; 90]) None None initialSession
              = Some s' /\ step s' = COMPLETE) /\
  executeGenerationLoop (stuckProviders [60; 90]) None None initialSession = None.
Proof.
  destruct (run_ends_settled (scriptedProviders [60; 90]) None None initialSession)
    as (Hends & _ & Hrest).
  split.
  - destruct Hends as [s' Hs']; [intros image; discriminate|].
    exists s'. split; [exact Hs'|].
    destruct (Hrest s' Hs') as (_ & Hurl & _). apply Hurl.
    assert (E : exists s0, executeGenerationLoop (scriptedProviders [60; 90]) None None
                                                 initialSession = Some s0 /\
                           generatedVideoUrl s0 = Some "blob:1").
    { eexists. split; vm_compute; reflexivity. }
    destruct E as (s0 & E & Hu). rewrite Hs' in E. injection E as ->.
    rewrite Hu. discriminate.
  - vm_compute. reflexivity.
Defined.



(** X22: when a run ends in step AWAITING_APPROVAL, the image on display
    is the one the loop held as [bestImage] when it gave up, and
    [handleApprove] sends that image to the video generator.  The
    approval returns exactly when the generator does; it then ends in
    COMPLETE or ERROR, in COMPLETE exactly when the video was generated,
    fetched with an ok response and turned into an object URL, which is
    then the URL on display; the image on display stays. *)
Theorem approval_sends_best_image (P : Providers)
    (initialPrompt initialFeedback : option string) (s s' : State) :
  executeGenerationLoop P initialPrompt initialFeedback s = Some s' ->
  step s' = AWAITING_APPROVAL ->
  exists prompt st t,
    App.critiqueLoop (loopEnv P) prompt [] = App.Done st t /\
    App.isSatisfied st = false /\
    generatedImage s' = Some (App.bestImage st) /\
    handleApprove P s' = startVideoGeneration P (App.bestImage st) s' /\
    (handleApprove P s' = None <-> generateAvatarVideo P (App.bestImage st) = None) /\
    (forall s'',
       handleApprove P s' = Some s'' ->
       (step s'' = COMPLETE \/ step s'' = ERROR) /\
       (step s'' = COMPLETE <->
        exists videoUri videoObjectUrl,
          generateAvatarVideo P (App.bestImage st) = Some (Ok videoUri) /\
          fetchOk P videoUri = Ok true /\
          objectUrl P videoUri = Ok videoObjectUrl /\
          generatedVideoUrl s'' = Some videoObjectUrl) /\
       generatedImage s'' = generatedImage s').
Proof.
  unfold executeGenerationLoop.
  destruct (establishPrompt P initialPrompt initialFeedback) as [[prompt b]|e];
    [|intros H; inversion H; subst; cbn; discriminate].
  destruct (App.executeGenerationLoop (loopEnv P) prompt []) as [r t|e t|] eqn:Hrun;
    [|intros H; inversion H; subst; cbn; discriminate|discriminate].
  destruct (executeGenerationLoop_Done _ _ Hrun) as (st & Hc & _ & Hg & Hn).
  rewrite Hn, restoreBest_isSatisfied.
  destruct (critiqueLoop_Done _ _ Hc) as (v1 & t1 & _ & _ & I & _).
  destruct (restoreBest_current I) as (Hcur & _).
  rewrite Hcur in Hg.
  destruct (App.isSatisfied st) eqn:Hs; cbn [negb].
  - intros H Hstep. exfalso.
    match type of H with
    | context [startVideoGeneration P ?i ?x] =>
        destruct (startVideoGeneration_cases P i x)
          as [[_ Hv]|[(uri & url & _ & _ & _ & Hv)|(_ & (m & Hv) & _)]]
    end; rewrite Hv in H; [discriminate| |]; injection H as <-; discriminate.
  - intros H _. injection H as E.
    exists prompt, st, t. split; [exact Hc|]. split; [exact Hs|].
    assert (Hi : generatedImage s' = Some (App.bestImage st)).
    { rewrite <- E, Hg. reflexivity. }
    split; [exact Hi|].
    unfold handleApprove. rewrite Hi. split; [reflexivity|].
    destruct (startVideoGeneration_cases P (App.bestImage st) s')
      as [[Hv ->]|[(uri & url & Hu & Hf & Ho & ->)|(Hv & (m & ->) & Hno)]].
    + split; [tauto|]. discriminate.
    + split; [rewrite Hu; split; discriminate|].
      intros s'' H. injection H as <-. cbn.
      split; [auto|]. split; [|exact Hi].
      split; [intros _; exists uri, url; auto|reflexivity].
    + split; [split; [discriminate|contradiction]|].
      intros s'' H. injection H as <-. cbn.
      split; [auto|]. split; [|exact Hi].
      split; [discriminate|].
      intros (uri & url & Hu & Hf & Ho & _). exfalso. apply Hno. eauto.
Qed.

Lemma approval_sends_best_image_witness :
  exists s' s'',
    executeGenerationLoop (scriptedProviders [40; 70; 60]) None None initialSession
    = Some s' /\
    handleApprove (scriptedProviders [40; 70; 60]) s' = Some s'' /\
    generatedImage s'' = generatedImage s'.
Proof.
  eexists. eexists. split; [vm_compute; reflexivity|]. split; [vm_compute; reflexivity|].
  match goal with
  | |- generatedImage ?y = generatedImage ?x =>
      assert (Hrun : executeGenerationLoop (scriptedProviders [40; 70; 60]) None None
                                           initialSession = Some x)
        by (vm_compute; reflexivity);
      assert (Happ : handleApprove (scriptedProviders [40; 70; 60]) x = Some y)
        by (vm_compute; reflexivity);
      destruct (approval_sends_best_image _ _ _ _ Hrun eq_refl)
        as (prompt & st & t & _ & _ & _ & _ & _ & Hres);
      exact (proj2 (proj2 (Hres y Happ)))
  end.
Defined.

(** X23: a fresh submission whose first image is generated but whose
    first critique comes back without text stops in step ERROR with the
    text "No critique returned"; the optimized prompt and the uncritiqued
    first image stay on display, and neither a critique nor a video is
    shown. *)
Theorem empty_critique_fails_run (form : AvatarFormData) (G : Models) (P : Providers)
    (s : State) (prompt : string) (image : App.GeneratedImage)
    (reply : GeminiService.GenerateContentResponse) :
  optimizePrompt (withGemini form G P) = Ok prompt ->
  App.generateAvatarImage (geminiEnv form G) 0 prompt = Ok image ->
  criticModel G 0 (GeminiService.critiqueRequest
                     (description form)
                     (GeminiService.mkImage (App.data image) (App.mimeType image)))
  = Ok reply ->
  Js.truthy (GeminiService.text reply) = false ->
  exists s',
    handleSubmit (withGemini form G P) s = Some s' /\
    step s' = ERROR /\ error s' = Some "No critique returned" /\
    generatedPrompt s' = prompt /\
    generatedImage s' = Some (App.mkRef 0 image) /\
    critique s' = None /\ generatedVideoUrl s' = None /\ loopCount s' = 0%nat.
Proof.
  intros Ho Hi Hc Ht.
  assert (Hcrit : App.critiqueGeneratedImage (geminiEnv form G) 0 (App.mkRef 0 image)
                  = Throw (Error "No critique returned")).
  { cbn. unfold GeminiService.critiqueGeneratedImage. rewrite Hc.
    destruct (GeminiService.text reply) as [x|]; [|reflexivity].
    cbn in Ht. destruct (String.eqb x ""); [reflexivity|discriminate]. }
  assert (Hrun : App.executeGenerationLoop (loopEnv (withGemini form G P)) prompt []
                 = App.Thrown (Error "No critique returned")
                              [App.Generated (App.mkRef 0 image)]).
  { unfold App.executeGenerationLoop, App.critiqueLoop, App.bind, App.awaitGenerate.
    cbn [withGemini loopEnv App.generated flat_map List.length app].
    rewrite Hi. cbn [app]. unfold App.MAX_REFINEMENT_LOOPS. cbn [App.whileLoop].
    unfold App.guard. cbn [App.loops App.isSatisfied negb andb Nat.ltb Nat.leb].
    unfold App.MAX_REFINEMENT_LOOPS. cbn [Nat.ltb Nat.leb andb].
    unfold App.loopBody, App.bind, App.awaitCritique.
    cbn [App.currentImage App.critiques flat_map List.length app].
    rewrite Hcrit. reflexivity. }
  unfold handleSubmit, executeGenerationLoop, establishPrompt. cbn [String.eqb].
  rewrite Ho, Hrun. eexists. split; [reflexivity|]. cbn. auto 10.
Qed.

Lemma empty_critique_fails_run_witness :
  exists s', handleSubmit (withGemini novaForm muteCritic (scriptedProviders []))
                          initialSession = Some s' /\
             error s' = Some "No critique returned".
Proof.
  destruct (@empty_critique_fails_run novaForm muteCritic (scriptedProviders [])
              initialSession "a neon hacker, turnaround sheet"
              (App.mkImage "iVBORw0KGgo=" "image/png")
              (GeminiService.mkResponse None []))
    as (s' & Hs & _ & He & _);
    [vm_compute; reflexivity|vm_compute; reflexivity|reflexivity|reflexivity|].
  exists s'. split; [exact Hs|exact He].
Defined.

(** X24: when the model behind the refiner only ever answers with no
    text or with white space, the loop through the adapters never changes
    the prompt: every refinement of a run that comes to its end is the
    prompt the run was entered with, and so is its last prompt. *)
Theorem silent_refiner_keeps_prompt (form : AvatarFormData) (G : Models)
    (prompt : string) (st : App.LoopState) (t : App.Trace) :
  (forall k request,
     exists response,
       refinerModel G k request = Ok response /\
       forall x, GeminiService.text response = Some x -> Js.blank x = true) ->
  App.critiqueLoop (geminiEnv form G) prompt [] = App.Done st t ->
  App.currentPrompt st = prompt /\
  Forall (eq prompt) (App.refinements t) /\
  List.length (App.refinements t) = App.loops st.
Proof.
  intros Hsilent Hrun.
  destruct (critiqueLoop_Done _ _ Hrun) as (v1 & t1 & Hg & Hit & I & _).
  assert (Hid : forall k p c p',
             App.refinePrompt (geminiEnv form G) k p c = Ok p' -> p' = p).
  { intros k p c p'. cbn. unfold GeminiService.refinePrompt.
    destruct (Hsilent k (GeminiService.refinePromptRequest p c None))
      as (response & -> & Hb).
    intros H. inversion H as [E]. clear H.
    destruct (GeminiService.text response) as [x|]; [|reflexivity].
    specialize (Hb x eq_refl). apply trim_blank in Hb. rewrite Hb. reflexivity. }
  assert (Ht1 : App.refinements t1 = []).
  { unfold App.awaitGenerate in Hg.
    destruct (App.generateAvatarImage _ _ _); inversion Hg; reflexivity. }
  destruct (iterations_same_prompt (prompt := prompt) Hid Hit) as [Hp Hr].
  { cbn [fst snd]. rewrite Ht1. split; [reflexivity|constructor]. }
  cbn [fst snd] in *. split; [exact Hp|]. split; [exact Hr|].
  exact (App.inv_refinements I).
Qed.

Lemma silent_refiner_keeps_prompt_witness :
  exists st t,
    App.critiqueLoop (geminiEnv novaForm silentRefiner) "a neon hacker" []
    = App.Done st t /\
    App.currentPrompt st = "a neon hacker"%string /\
    Forall (eq "a neon hacker"%string) (App.refinements t).
Proof.
  eexists. eexists. split; [vm_compute; reflexivity|].
  match goal with
  | |- App.currentPrompt ?st = _ /\ Forall _ (App.refinements ?t) =>
      assert (Hrun : App.critiqueLoop (geminiEnv novaForm silentRefiner)
                                      "a neon hacker" [] = App.Done st t)
        by (vm_compute; reflexivity)
  end.
  assert (Hsilent : forall (k : nat) (request : GeminiService.GenerateContentRequest),
             exists response,
               refinerModel silentRefiner k request = Ok response /\
               forall x, GeminiService.text response = Some x -> Js.blank x = true).
  { intros k request. eexists. split; [reflexivity|].
    intros x Hx. inversion Hx. reflexivity. }
  destruct (@silent_refiner_keeps_prompt novaForm silentRefiner _ _ _ Hsilent Hrun)
    as (Hp & Hr & _).
  split; [exact Hp|exact Hr].
Defined.

End SessionExtraTheorems.
